(** * Gemini file cache: a shallow embedding of the Go sources

    The development follows three packages of the gateway:
    - [internal/filestore] (the local file store),
    - [sdk/api/handlers/gemini] (local handlers, the payload rewriter and the
      upstream proxy with its resumable sessions),
    - [executor] (what the Gemini executor reads of a call of the proxy).

    Go values are modelled as follows.  A Go [string] is a [string] (a list
    of 8-bit characters), a [[]byte] is a [list byte], [int64] is [Z] with
    the wrap-around written out ([wrap64]), [time.Time] is the number of
    nanoseconds since the epoch, a Go [error] is a value of [error].  The
    directories of the store, the wall clock and the failures of system
    calls live in an explicit [World] that every operation threads. *)

From Stdlib Require Import ZArith List Ascii String DecimalString Lia Bool.
From Stdlib Require Import Init.Byte Strings.Byte.
From stdpp Require Import base option list gmap strings fin_maps sorting.

Import ListNotations.
Local Open Scope string_scope.
Local Open Scope Z_scope.
Local Open Scope list_scope.

(** ** Bytes, hexadecimal text and decimal text *)

Module Bytes.

Definition to_Z (b : byte) : Z := Z.of_N (Byte.to_N b).

Definition of_Z (z : Z) : byte :=
  match Byte.of_N (Z.to_N (z mod 256)) with
  | Some b => b
  | None => x00
  end.

Definition of_char (c : ascii) : byte := byte_of_ascii c.
Definition to_char (b : byte) : ascii := ascii_of_byte b.

(** [[]byte(s)] and [string(b)]. *)
Definition of_string (s : string) : list byte := list_byte_of_string s.
Definition to_string (l : list byte) : string := string_of_list_byte l.

Definition char_code (c : ascii) : Z := Z.of_N (N_of_ascii c).

End Bytes.

Module Hex.

(** [hex.EncodeToString]: two lower-case digits per byte. *)
Definition hextable : string := "0123456789abcdef".

Definition digit (n : Z) : ascii :=
  match String.get (Z.to_nat n) hextable with
  | Some c => c
  | None => "0"%char
  end.

Fixpoint EncodeToString (src : list byte) : string :=
  match src with
  | [] => EmptyString
  | b :: rest =>
      String (digit (Bytes.to_Z b / 16))
        (String (digit (Bytes.to_Z b mod 16)) (EncodeToString rest))
  end.

End Hex.

Module Fmt.

(** [fmt.Sprintf("%d", n)] for an integer. *)
Definition decimal (n : Z) : string := NilZero.string_of_int (Z.to_int n).

End Fmt.

(** [int64] arithmetic wraps around. *)
Definition wrap64 (z : Z) : Z := (z + 2 ^ 63) mod 2 ^ 64 - 2 ^ 63.

(** ** crypto/sha256

    The digest is the one of FIPS 180-4, laid out as in Go's generic block
    function: eight 32-bit words of state, a 64-entry schedule per block. *)

Module Sha256.

Definition mask32 (x : Z) : Z := x mod 2 ^ 32.
Definition add32 (x y : Z) : Z := mask32 (x + y).
Definition rotr (n x : Z) : Z :=
  Z.lor (Z.shiftr x n) (mask32 (Z.shiftl x (32 - n))).
Definition not32 (x : Z) : Z := Z.lxor x (2 ^ 32 - 1).

(** The round constants are the first 32 bits of the fractional parts of
    the cube roots of the first 64 primes; the initial state comes from the
    square roots of the first 8. *)
Fixpoint root_search (k : Z) (bits : nat) (n acc : Z) : Z :=
  match bits with
  | O => acc
  | S b =>
      let cand := acc + 2 ^ Z.of_nat b in
      if cand ^ k <=? n then root_search k b n cand else root_search k b n acc
  end.

Definition frac32 (k p : Z) : Z :=
  root_search k 48 (p * 2 ^ (32 * k)) 0 mod 2 ^ 32.

Definition is_prime (n : nat) : bool :=
  forallb (fun d => negb (Nat.eqb (Nat.modulo n d) 0)) (seq 2 (n - 2)).

Definition primes : list Z :=
  Eval vm_compute in map Z.of_nat (List.filter is_prime (seq 2 310)).

Definition _K : list Z := Eval vm_compute in map (frac32 3) primes.

Record digest := Digest {
  h0 : Z; h1 : Z; h2 : Z; h3 : Z; h4 : Z; h5 : Z; h6 : Z; h7 : Z
}.

Definition init : digest :=
  Eval vm_compute in
    match map (frac32 2) (firstn 8 primes) with
    | [a; b; c; d; e; f; g; h] => Digest a b c d e f g h
    | _ => Digest 0 0 0 0 0 0 0 0
    end.

(** Padding: 0x80, zeros up to 56 mod 64, then the bit length on 8 bytes. *)
Definition be_bytes (n : nat) (v : Z) : list Z :=
  map (fun i => Z.shiftr v (8 * Z.of_nat (n - 1 - i)) mod 256) (seq 0 n).

Definition pad (msg : list Z) : list Z :=
  let len := Z.of_nat (length msg) in
  let zeros := Z.to_nat ((55 - len) mod 64) in
  msg ++ [0x80] ++ repeat 0 zeros ++ be_bytes 8 ((8 * len) mod 2 ^ 64).

Definition be32 (a b c d : Z) : Z :=
  Z.lor (Z.lor (Z.shiftl a 24) (Z.shiftl b 16)) (Z.lor (Z.shiftl c 8) d).

Fixpoint words (bs : list Z) : list Z :=
  match bs with
  | a :: b :: c :: d :: rest => be32 a b c d :: words rest
  | _ => []
  end.

Fixpoint chunks {A} (fuel n : nat) (l : list A) : list (list A) :=
  match fuel with
  | O => []
  | S fuel' =>
      match l with
      | [] => []
      | _ => firstn n l :: chunks fuel' n (skipn n l)
      end
  end.

Definition w_at (w : list Z) (i : nat) : Z := nth i w 0.

(** The schedule [w[16..63]], appended one entry at a time. *)
Definition extend (w : list Z) : list Z :=
  let i := length w in
  let v1 := w_at w (i - 2) in
  let t1 := Z.lxor (Z.lxor (rotr 17 v1) (rotr 19 v1)) (Z.shiftr v1 10) in
  let v2 := w_at w (i - 15) in
  let t2 := Z.lxor (Z.lxor (rotr 7 v2) (rotr 18 v2)) (Z.shiftr v2 3) in
  w ++ [add32 (add32 (add32 t1 (w_at w (i - 7))) t2) (w_at w (i - 16))].

Definition schedule (blk : list Z) : list Z :=
  Nat.iter 48 extend (words blk).

Definition round (s : digest) (kw : Z * Z) : digest :=
  let '(Digest a b c d e f g h) := s in
  let '(k, w) := kw in
  let s1 := Z.lxor (Z.lxor (rotr 6 e) (rotr 11 e)) (rotr 25 e) in
  let ch := Z.lxor (Z.land e f) (Z.land (not32 e) g) in
  let t1 := add32 (add32 (add32 (add32 h s1) ch) k) w in
  let s0 := Z.lxor (Z.lxor (rotr 2 a) (rotr 13 a)) (rotr 22 a) in
  let maj := Z.lxor (Z.lxor (Z.land a b) (Z.land a c)) (Z.land b c) in
  let t2 := add32 s0 maj in
  Digest (add32 t1 t2) a b c (add32 d t1) e f g.

Definition block (s : digest) (blk : list Z) : digest :=
  let r := fold_left round (combine _K (schedule blk)) s in
  Digest (add32 (h0 s) (h0 r)) (add32 (h1 s) (h1 r)) (add32 (h2 s) (h2 r))
         (add32 (h3 s) (h3 r)) (add32 (h4 s) (h4 r)) (add32 (h5 s) (h5 r))
         (add32 (h6 s) (h6 r)) (add32 (h7 s) (h7 r)).

Definition word_bytes (v : Z) : list byte := map Bytes.of_Z (be_bytes 4 v).

Definition output (s : digest) : list byte :=
  word_bytes (h0 s) ++ word_bytes (h1 s) ++ word_bytes (h2 s) ++
  word_bytes (h3 s) ++ word_bytes (h4 s) ++ word_bytes (h5 s) ++
  word_bytes (h6 s) ++ word_bytes (h7 s).

(** [sha256.Sum256]. *)
Definition Sum256 (data : list byte) : list byte :=
  let padded := pad (map Bytes.to_Z data) in
  output (fold_left block (chunks (length padded) 64 padded) init).

End Sha256.

(** ** strings *)

Module Strings.

Fixpoint HasPrefix (s prefix : string) : bool :=
  match prefix, s with
  | EmptyString, _ => true
  | String p prefix', String c s' =>
      if Ascii.eqb p c then HasPrefix s' prefix' else false
  | String _ _, EmptyString => false
  end.

Definition TrimPrefix (s prefix : string) : string :=
  if HasPrefix s prefix then
    String.substring (String.length prefix)
      (String.length s - String.length prefix) s
  else s.

Definition rev (s : string) : string :=
  string_of_list_ascii (List.rev (list_ascii_of_string s)).

Definition HasSuffix (s suffix : string) : bool :=
  HasPrefix (rev s) (rev suffix).

Definition TrimSuffix (s suffix : string) : string :=
  if HasSuffix s suffix then
    String.substring 0 (String.length s - String.length suffix) s
  else s.

(** [strings.Contains]. *)
Fixpoint Contains (s substr : string) : bool :=
  if HasPrefix s substr then true
  else match s with
       | EmptyString => false
       | String _ rest => Contains rest substr
       end.

End Strings.

(** ** internal/filestore *)

Module filestore.

Definition DefaultFileExpirationHours : Z := 48.
Definition MetadataFileExtension : string := ".meta.json".

(** Go errors.  The two sentinels of the package, what the [os] and
    [encoding/json] packages hand back, and the two forms of [fmt.Errorf]:
    with [%w] (the cause stays reachable for [errors.Is]) and without. *)
Inductive error : Type :=
| ErrFileNotFound
| ErrFileTooLarge
| ErrNotExist
| ErrSyscall (op : string)
| ErrUnmarshal
| ErrReader
| ErrMsg (msg : string)
| ErrWrap (msg : string) (cause : error).

#[global] Instance error_eq_dec : EqDecision error.
Proof. solve_decision. Defined.

Fixpoint errors_Is (err target : error) : bool :=
  if decide (err = target) then true
  else match err with
       | ErrWrap _ cause => errors_Is cause target
       | _ => false
       end.

Inductive Result (A : Type) : Type :=
| Ok (a : A)
| Err (e : error).
Arguments Ok {A} a.
Arguments Err {A} e.

(** FileMetadata stores information about an uploaded file. *)
Record FileMetadata := {
  FileID : string;
  Name : string;
  DisplayName : string;
  MimeType : string;
  SizeBytes : Z;
  SHA256Hash : string;
  URI : string;
  State : string;
  CreatedAt : Z;
  ExpiresAt : Z;
  UploadSource : string;
  APIKey : string
}.

(** GeminiFileStore: the fields the operations read or write.  The two
    directories are fixed paths; their contents are part of the [World]. *)
Record GeminiFileStore := {
  expirationHours : Z;
  maxTotalSizeMB : Z;
  currentTotalSize : Z
}.

Definition set_currentTotalSize (v : Z) (s : GeminiFileStore) : GeminiFileStore :=
  {| expirationHours := expirationHours s;
     maxTotalSizeMB := maxTotalSizeMB s;
     currentTotalSize := v |}.

(** *** The world outside the process

    A sidecar on disk is what [json.Unmarshal] makes of it: a record, or
    nothing.  [json.MarshalIndent] of a record is the sidecar that decodes
    to it. *)
Inductive sidecar : Type :=
| Sidecar (m : FileMetadata)
| Garbled.

Inductive dir : Type := FilesDir | MetadataDir.

Inductive syscall : Type :=
| SysCreate (name : string)
| SysWrite (name : string)
| SysRename (src dst : string)
| SysRemove (d : dir) (name : string)
| SysWriteFile (name : string)
| SysReadFile (name : string)
| SysStat (name : string)
| SysOpen (name : string)
| SysRead (name : string)
| SysReadDir (d : dir).

(** [filesDir] and [metadataDir] map a file name to its content.  [clock]
    lists the coming readings of [time.Now()] ([wall] is the reading once
    the list is used up).  [faults] tells, call after call, whether the next
    system call fails for a reason of its own (permissions, a full disk,
    ...); an empty list means no failure.  [trace] records every system call
    attempted on the two directories. *)
Record World := {
  filesDir : gmap string (list byte);
  metadataDir : gmap string sidecar;
  clock : list Z;
  wall : Z;
  faults : list bool;
  trace : list syscall
}.

Definition set_filesDir (f : gmap string (list byte)) (w : World) : World :=
  {| filesDir := f; metadataDir := metadataDir w; clock := clock w;
     wall := wall w; faults := faults w; trace := trace w |}.

Definition set_metadataDir (m : gmap string sidecar) (w : World) : World :=
  {| filesDir := filesDir w; metadataDir := m; clock := clock w;
     wall := wall w; faults := faults w; trace := trace w |}.

(** [time.Now()]. *)
Definition time_Now (w : World) : Z * World :=
  let t := hd (wall w) (clock w) in
  (t, {| filesDir := filesDir w; metadataDir := metadataDir w;
         clock := tl (clock w); wall := t; faults := faults w;
         trace := trace w |}).

(** Entering a system call: it is recorded, and the schedule of failures
    says whether it goes wrong. *)
Definition enter (c : syscall) (w : World) : bool * World :=
  (hd false (faults w),
   {| filesDir := filesDir w; metadataDir := metadataDir w;
      clock := clock w; wall := wall w; faults := tl (faults w);
      trace := trace w ++ [c] |}).

(** A content stream ([io.Reader]): the bytes it yields, and whether it
    then ends with an error instead of [io.EOF]. *)
Record Reader := { r_data : list byte; r_fail : bool }.

(** An open content file: the bytes it holds. *)
Record File := { f_name : string; f_data : list byte }.

Definition os_Create (name : string) (w : World) : option error * World :=
  let '(bad, w) := enter (SysCreate name) w in
  if bad then (Some (ErrSyscall "open"), w)
  else (None, set_filesDir (<[name := []]> (filesDir w)) w).

(** [io.Copy] into a freshly created file: the number of bytes written and
    the error, if any.  A failed write leaves the file empty. *)
Definition io_Copy (name : string) (src : Reader) (w : World)
  : (Z * option error) * World :=
  let '(bad, w) := enter (SysWrite name) w in
  if bad then ((0, Some (ErrSyscall "write")), w)
  else
    let w := set_filesDir (<[name := r_data src]> (filesDir w)) w in
    let n := Z.of_nat (length (r_data src)) in
    if r_fail src then ((n, Some ErrReader), w) else ((n, None), w).

(** [os.Rename] inside [filesDir]: the target is replaced if it exists. *)
Definition os_Rename (src dst : string) (w : World) : option error * World :=
  let '(bad, w) := enter (SysRename src dst) w in
  if bad then (Some (ErrSyscall "rename"), w)
  else match filesDir w !! src with
       | None => (Some ErrNotExist, w)
       | Some data =>
           (None, set_filesDir (<[dst := data]> (delete src (filesDir w))) w)
       end.

Definition os_Remove (d : dir) (name : string) (w : World)
  : option error * World :=
  let '(bad, w) := enter (SysRemove d name) w in
  if bad then (Some (ErrSyscall "remove"), w)
  else match d with
       | FilesDir =>
           match filesDir w !! name with
           | None => (Some ErrNotExist, w)
           | Some _ => (None, set_filesDir (delete name (filesDir w)) w)
           end
       | MetadataDir =>
           match metadataDir w !! name with
           | None => (Some ErrNotExist, w)
           | Some _ => (None, set_metadataDir (delete name (metadataDir w)) w)
           end
       end.

Definition os_WriteFile (name : string) (data : sidecar) (w : World)
  : option error * World :=
  let '(bad, w) := enter (SysWriteFile name) w in
  if bad then (Some (ErrSyscall "write"), w)
  else (None, set_metadataDir (<[name := data]> (metadataDir w)) w).

Definition os_ReadFile (name : string) (w : World) : Result sidecar * World :=
  let '(bad, w) := enter (SysReadFile name) w in
  if bad then (Err (ErrSyscall "read"), w)
  else match metadataDir w !! name with
       | None => (Err ErrNotExist, w)
       | Some data => (Ok data, w)
       end.

(** [os.Stat] on a content file, reduced to the size it reports. *)
Definition os_Stat (name : string) (w : World) : Result Z * World :=
  let '(bad, w) := enter (SysStat name) w in
  if bad then (Err (ErrSyscall "stat"), w)
  else match filesDir w !! name with
       | None => (Err ErrNotExist, w)
       | Some data => (Ok (Z.of_nat (length data)), w)
       end.

Definition os_Open (name : string) (w : World) : Result File * World :=
  let '(bad, w) := enter (SysOpen name) w in
  if bad then (Err (ErrSyscall "open"), w)
  else match filesDir w !! name with
       | None => (Err ErrNotExist, w)
       | Some data => (Ok {| f_name := name; f_data := data |}, w)
       end.

(** [io.ReadAll] on an open file, optionally behind an [io.LimitReader]. *)
Definition io_ReadAll (f : File) (limit : option Z) (w : World)
  : Result (list byte) * World :=
  let '(bad, w) := enter (SysRead (f_name f)) w in
  if bad then (Err (ErrSyscall "read"), w)
  else match limit with
       | None => (Ok (f_data f), w)
       | Some n => (Ok (firstn (Z.to_nat n) (f_data f)), w)
       end.

(** [os.ReadDir]: the names of the entries, sorted. *)
Definition name_le (a b : string) : Prop := String.leb a b = true.

#[global] Instance name_le_dec : RelDecision name_le.
Proof. intros a b. unfold name_le. apply _. Defined.

Definition sorted_names {A} (m : gmap string A) : list string :=
  merge_sort name_le (map fst (map_to_list m)).

Definition os_ReadDir (d : dir) (w : World) : Result (list string) * World :=
  let '(bad, w) := enter (SysReadDir d) w in
  if bad then (Err (ErrSyscall "readdir"), w)
  else match d with
       | FilesDir => (Ok (sorted_names (filesDir w)), w)
       | MetadataDir => (Ok (sorted_names (metadataDir w)), w)
       end.

(** *** Identifiers and owner hashes *)

(** GenerateFileID creates a unique file identifier: the first 16 bytes of
    the SHA-256 of the decimal nanosecond timestamp, in hexadecimal. *)
Definition GenerateFileID (w : World) : string * World :=
  let '(timestamp, w) := time_Now w in
  let hash := Sha256.Sum256 (Bytes.of_string (Fmt.decimal timestamp)) in
  (Hex.EncodeToString (firstn 16 hash), w).

Definition generateFileID (w : World) : string * World := GenerateFileID w.

(** hashAPIKey creates a one-way hash of the API key for privacy. *)
Definition hashAPIKey (apiKey : string) : string :=
  if decide (apiKey = "") then ""
  else Hex.EncodeToString (firstn 8 (Sha256.Sum256 (Bytes.of_string apiKey))).

Fixpoint validFileIDChars (fileID : string) : bool :=
  match fileID with
  | EmptyString => true
  | String c rest =>
      let isDigit := ("0" <=? c)%char && (c <=? "9")%char in
      let isLowerHex := ("a" <=? c)%char && (c <=? "f")%char in
      let isUpperHex := ("A" <=? c)%char && (c <=? "F")%char in
      if negb isDigit && negb isLowerHex && negb isUpperHex then false
      else validFileIDChars rest
  end.

Definition isValidFileID (fileID : string) : bool :=
  if negb (Nat.eqb (String.length fileID) 32) then false
  else validFileIDChars fileID.

(** [now.After(metadata.ExpiresAt)]; a nil record counts as expired. *)
Definition isExpired (metadata : option FileMetadata) (now : Z) : bool :=
  match metadata with
  | None => true
  | Some m => ExpiresAt m <? now
  end.

Definition isOwnedByAPIKey (metadata : option FileMetadata) (apiKey : string)
  : bool :=
  match metadata with
  | None => bool_decide (apiKey = "")
  | Some m =>
      if decide (APIKey m = "") then bool_decide (apiKey = "")
      else bool_decide (APIKey m = hashAPIKey apiKey)
  end.

Definition filterByAPIKey (files : list FileMetadata) (apiKey : string)
  : list FileMetadata :=
  let want := hashAPIKey apiKey in
  filter (fun metadata => APIKey metadata = want) files.

(** *** Sidecars *)

Definition saveMetadata (metadata : FileMetadata) (w : World)
  : option error * World :=
  let metaPath := FileID metadata +:+ MetadataFileExtension in
  let '(err, w) := os_WriteFile metaPath (Sidecar metadata) w in
  match err with
  | Some e => (Some (ErrWrap "failed to write metadata file" e), w)
  | None => (None, w)
  end.

Definition loadMetadata (fileID : string) (w : World)
  : Result FileMetadata * World :=
  if negb (isValidFileID fileID) then (Err ErrFileNotFound, w)
  else
    let metaPath := fileID +:+ MetadataFileExtension in
    let '(r, w) := os_ReadFile metaPath w in
    match r with
    | Err e =>
        if errors_Is e ErrNotExist then (Err ErrFileNotFound, w)
        else (Err (ErrWrap "failed to read metadata" e), w)
    | Ok Garbled => (Err (ErrWrap "failed to unmarshal metadata" ErrUnmarshal), w)
    | Ok (Sidecar metadata) => (Ok metadata, w)
    end.

(** *** SaveFile *)

Definition hour : Z := 3600 * 1000000000.

Definition quotaMessage (s : GeminiFileStore) : string :=
  "storage quota exceeded: current " +:+
  Fmt.decimal (Z.quot (currentTotalSize s) (1024 * 1024)) +:+
  " MB, limit " +:+ Fmt.decimal (maxTotalSizeMB s) +:+ " MB".

(** The part of SaveFile that runs between [os.Create] and the deferred
    removal of the temporary file. *)
Definition SaveFile_written (content : Reader)
    (name mimeType displayName apiKey fileID tempPath : string)
    (s : GeminiFileStore) (w : World)
  : Result FileMetadata * GeminiFileStore * World :=
  let '((written, err), w) := io_Copy tempPath content w in
  match err with
  | Some e => (Err (ErrWrap "failed to write file content" e), s, w)
  | None =>
      let maxBytes := wrap64 (wrap64 (maxTotalSizeMB s * 1024) * 1024) in
      if (0 <? maxTotalSizeMB s)
         && (maxBytes <? wrap64 (currentTotalSize s + written))
      then (Err (ErrMsg (quotaMessage s)), s, w)
      else
        let finalPath := fileID in
        let '(err, w) := os_Rename tempPath finalPath w in
        match err with
        | Some e => (Err (ErrWrap "failed to finalize file" e), s, w)
        | None =>
            let s := set_currentTotalSize
                       (wrap64 (currentTotalSize s + written)) s in
            let '(created, w) := time_Now w in
            let '(t, w) := time_Now w in
            let metadata :=
              {| FileID := fileID;
                 Name := name;
                 DisplayName := displayName;
                 MimeType := mimeType;
                 SizeBytes := written;
                 SHA256Hash :=
                   Hex.EncodeToString (Sha256.Sum256 (r_data content));
                 URI := "files/" +:+ fileID;
                 State := "ACTIVE";
                 CreatedAt := created;
                 ExpiresAt := t + wrap64 (expirationHours s * hour);
                 UploadSource := "local";
                 APIKey := hashAPIKey apiKey |} in
            let '(err, w) := saveMetadata metadata w in
            match err with
            | Some e =>
                let '(_, w) := os_Remove FilesDir finalPath w in
                let s := set_currentTotalSize
                           (wrap64 (currentTotalSize s - written)) s in
                (Err (ErrWrap "failed to save metadata" e), s, w)
            | None => (Ok metadata, s, w)
            end
        end
  end.

(** SaveFile saves an uploaded file with its metadata. *)
Definition SaveFile (content : Reader)
    (name mimeType displayName apiKey : string)
    (s : GeminiFileStore) (w : World)
  : Result FileMetadata * GeminiFileStore * World :=
  let '(fileID, w) := generateFileID w in
  let tempPath := fileID +:+ ".tmp" in
  let '(err, w) := os_Create tempPath w in
  match err with
  | Some e => (Err (ErrWrap "failed to create temp file" e), s, w)
  | None =>
      let '(res, s, w) :=
        SaveFile_written content name mimeType displayName apiKey
          fileID tempPath s w in
      let '(_, w) := os_Remove FilesDir tempPath w in
      (res, s, w)
  end.

(** *** Reads *)

(** GetFile retrieves file metadata by ID. *)
Definition GetFile (fileID : string) (w : World)
  : Result FileMetadata * World :=
  loadMetadata fileID w.

Definition GetFileForAPIKey (fileID apiKey : string) (w : World)
  : Result FileMetadata * World :=
  let '(r, w) := GetFile fileID w in
  match r with
  | Err err =>
      if errors_Is err ErrFileNotFound then (Err ErrFileNotFound, w)
      else (Err err, w)
  | Ok metadata =>
      if negb (isOwnedByAPIKey (Some metadata) apiKey)
      then (Err ErrFileNotFound, w)
      else
        let '(now, w) := time_Now w in
        if isExpired (Some metadata) now then (Err ErrFileNotFound, w)
        else (Ok metadata, w)
  end.

(** GetFileContent opens the file content for reading. *)
Definition GetFileContent (fileID : string) (w : World)
  : Result (File * FileMetadata) * World :=
  if negb (isValidFileID fileID) then (Err ErrFileNotFound, w)
  else
    let '(r, w) := loadMetadata fileID w in
    match r with
    | Err err => (Err err, w)
    | Ok metadata =>
        let '(now, w) := time_Now w in
        if ExpiresAt metadata <? now then (Err ErrFileNotFound, w)
        else
          let '(f, w) := os_Open fileID w in
          match f with
          | Err e => (Err (ErrWrap "failed to open file" e), w)
          | Ok file => (Ok (file, metadata), w)
          end
    end.

Definition GetFileContentForAPIKey (fileID apiKey : string) (w : World)
  : Result (File * FileMetadata) * World :=
  let '(r, w) := GetFileForAPIKey fileID apiKey w in
  match r with
  | Err err => (Err err, w)
  | Ok metadata =>
      let '(r, w) := GetFileContent fileID w in
      match r with
      | Err err =>
          if errors_Is err ErrFileNotFound then (Err ErrFileNotFound, w)
          else (Err err, w)
      | Ok (file, _) => (Ok (file, metadata), w)
      end
  end.

Definition ensureFileSizeAllowed (metadata : option FileMetadata)
    (maxBytes : Z) : option error :=
  if maxBytes <=? 0 then None
  else match metadata with
       | None => None
       | Some m =>
           if SizeBytes m <=? maxBytes then None else Some ErrFileTooLarge
       end.

Definition readAllWithinLimit (r : File) (maxBytes : Z) (w : World)
  : Result (list byte) * World :=
  if maxBytes <=? 0 then io_ReadAll r None w
  else
    let '(res, w) := io_ReadAll r (Some (wrap64 (maxBytes + 1))) w in
    match res with
    | Err err => (Err err, w)
    | Ok data =>
        if maxBytes <? Z.of_nat (length data) then (Err ErrFileTooLarge, w)
        else (Ok data, w)
    end.

Definition ReadFileBytesForAPIKey (fileID apiKey : string) (maxBytes : Z)
    (w : World) : Result (list byte * FileMetadata) * World :=
  let '(r, w) := GetFileContentForAPIKey fileID apiKey w in
  match r with
  | Err err => (Err err, w)
  | Ok (file, metadata) =>
      match ensureFileSizeAllowed (Some metadata) maxBytes with
      | Some err => (Err err, w)
      | None =>
          let '(res, w) := readAllWithinLimit file maxBytes w in
          match res with
          | Err err => (Err err, w)
          | Ok data => (Ok (data, metadata), w)
          end
      end
  end.

(** The loop of ListFiles over the directory entries. *)
Fixpoint ListFiles_loop (now : Z) (entries : list string)
    (files : list FileMetadata) (w : World) : list FileMetadata * World :=
  match entries with
  | [] => (files, w)
  | name :: rest =>
      if negb (Strings.HasSuffix name MetadataFileExtension)
      then ListFiles_loop now rest files w
      else
        let fileID := Strings.TrimSuffix name MetadataFileExtension in
        let '(r, w) := loadMetadata fileID w in
        match r with
        | Err _ => ListFiles_loop now rest files w
        | Ok metadata =>
            if isExpired (Some metadata) now
            then ListFiles_loop now rest files w
            else ListFiles_loop now rest (files ++ [metadata]) w
        end
  end.

(** ListFiles returns all non-expired files. *)
Definition ListFiles (w : World) : Result (list FileMetadata) * World :=
  let '(r, w) := os_ReadDir MetadataDir w in
  match r with
  | Err err => (Err (ErrWrap "failed to read metadata directory" err), w)
  | Ok entries =>
      let '(now, w) := time_Now w in
      let '(files, w) := ListFiles_loop now entries [] w in
      (Ok files, w)
  end.

Definition ListFilesForAPIKey (apiKey : string) (w : World)
  : Result (list FileMetadata) * World :=
  let '(r, w) := ListFiles w in
  match r with
  | Err err => (Err err, w)
  | Ok files => (Ok (filterByAPIKey files apiKey), w)
  end.

(** *** Deletion *)

(** deleteFileUnsafe removes file and metadata without locking. *)
Definition deleteFileUnsafe (fileID : string)
    (s : GeminiFileStore) (w : World) : option error * GeminiFileStore * World :=
  if negb (isValidFileID fileID) then (Some ErrFileNotFound, s, w)
  else
    let filePath := fileID in
    let metaPath := fileID +:+ MetadataFileExtension in
    let '(info, w) := os_Stat filePath w in
    let s := match info with
             | Ok size =>
                 set_currentTotalSize (wrap64 (currentTotalSize s - size)) s
             | Err _ => s
             end in
    let '(err, w) := os_Remove FilesDir filePath w in
    match err with
    | Some e =>
        if negb (errors_Is e ErrNotExist)
        then (Some (ErrWrap "failed to remove file" e), s, w)
        else
          let '(err, w) := os_Remove MetadataDir metaPath w in
          match err with
          | Some e =>
              if negb (errors_Is e ErrNotExist)
              then (Some (ErrWrap "failed to remove metadata" e), s, w)
              else (None, s, w)
          | None => (None, s, w)
          end
    | None =>
        let '(err, w) := os_Remove MetadataDir metaPath w in
        match err with
        | Some e =>
            if negb (errors_Is e ErrNotExist)
            then (Some (ErrWrap "failed to remove metadata" e), s, w)
            else (None, s, w)
        | None => (None, s, w)
        end
    end.

(** DeleteFile removes a file and its metadata. *)
Definition DeleteFile (fileID : string) (s : GeminiFileStore) (w : World)
  : option error * GeminiFileStore * World :=
  deleteFileUnsafe fileID s w.

Definition DeleteFileForAPIKey (fileID apiKey : string)
    (s : GeminiFileStore) (w : World) : option error * GeminiFileStore * World :=
  let '(r, w) := GetFileForAPIKey fileID apiKey w in
  match r with
  | Err err => (Some err, s, w)
  | Ok metadata =>
      let '(now, w) := time_Now w in
      if isExpired (Some metadata) now then (Some ErrFileNotFound, s, w)
      else DeleteFile fileID s w
  end.

(** The loop of cleanupExpiredFiles over the directory entries. *)
Fixpoint cleanupExpiredFiles_loop (now : Z) (entries : list string)
    (s : GeminiFileStore) (w : World) : GeminiFileStore * World :=
  match entries with
  | [] => (s, w)
  | name :: rest =>
      if negb (Strings.HasSuffix name MetadataFileExtension)
      then cleanupExpiredFiles_loop now rest s w
      else
        let fileID := Strings.TrimSuffix name MetadataFileExtension in
        let '(r, w) := loadMetadata fileID w in
        match r with
        | Err _ => cleanupExpiredFiles_loop now rest s w
        | Ok metadata =>
            if ExpiresAt metadata <? now
            then
              let '(_, s, w) := deleteFileUnsafe fileID s w in
              cleanupExpiredFiles_loop now rest s w
            else cleanupExpiredFiles_loop now rest s w
        end
  end.

(** cleanupExpiredFiles removes files past their expiration time. *)
Definition cleanupExpiredFiles (s : GeminiFileStore) (w : World)
  : GeminiFileStore * World :=
  let '(r, w) := os_ReadDir MetadataDir w in
  match r with
  | Err _ => (s, w)
  | Ok entries =>
      let '(now, w) := time_Now w in
      cleanupExpiredFiles_loop now entries s w
  end.

(** The loop of calculateTotalSize: [entry.Info()] may fail, the entry is
    then skipped. *)
Fixpoint calculateTotalSize_loop (entries : list string) (totalSize : Z)
    (w : World) : Z * World :=
  match entries with
  | [] => (totalSize, w)
  | name :: rest =>
      let '(info, w) := os_Stat name w in
      match info with
      | Err _ => calculateTotalSize_loop rest totalSize w
      | Ok size => calculateTotalSize_loop rest (wrap64 (totalSize + size)) w
      end
  end.

(** calculateTotalSize calculates the current total storage size. *)
Definition calculateTotalSize (s : GeminiFileStore) (w : World)
  : option error * GeminiFileStore * World :=
  let '(r, w) := os_ReadDir FilesDir w in
  match r with
  | Err err => (Some (ErrWrap "failed to read files directory" err), s, w)
  | Ok entries =>
      let '(totalSize, w) := calculateTotalSize_loop entries 0 w in
      (None, set_currentTotalSize totalSize s, w)
  end.

(** NewGeminiFileStore, once the two directories exist. *)
Definition NewGeminiFileStore (expirationHours maxTotalSizeMB : Z) (w : World)
  : GeminiFileStore * World :=
  let expirationHours :=
    if expirationHours <=? 0 then DefaultFileExpirationHours
    else expirationHours in
  let store := {| expirationHours := expirationHours;
                  maxTotalSizeMB := maxTotalSizeMB;
                  currentTotalSize := 0 |} in
  let '(_, store, w) := calculateTotalSize store w in
  (store, w).

End filestore.

(** ** sdk/api/handlers/gemini: the local handlers *)

Module gemini.
Import filestore.

(** MaxMultipartFileSize limits multipart uploads to 2GB. *)
Definition MaxMultipartFileSize : Z := 2 * 1024 * 1024 * 1024.

(** What the handlers read of a [gin.Context]: the value the auth
    middleware may have stored under ["apiKey"] ([Some None] when it is not
    a string), the request headers under their canonical names, the query
    parameters and the body. *)
Record Context := {
  ctx_apiKey : option (option string);
  ctx_header : list (string * string);
  ctx_query : list (string * string);
  ctx_body : Reader
}.

Fixpoint first_value (key : string) (l : list (string * string)) : string :=
  match l with
  | [] => ""
  | (k, v) :: rest => if decide (k = key) then v else first_value key rest
  end.

Definition GetHeader (c : Context) (key : string) : string :=
  first_value key (ctx_header c).

Definition Query (c : Context) (key : string) : string :=
  first_value key (ctx_query c).

(** gin's [filterFlags]: the content type up to the first space or
    semicolon. *)
Fixpoint filterFlags (content : string) : string :=
  match content with
  | EmptyString => EmptyString
  | String ch rest =>
      if Ascii.eqb ch " " || Ascii.eqb ch ";" then EmptyString
      else String ch (filterFlags rest)
  end.

Definition ContentType (c : Context) : string :=
  filterFlags (GetHeader c "Content-Type").

(** [http.MaxBytesReader]: reading past the limit is an error. *)
Definition MaxBytesReader (r : Reader) (n : Z) : Reader :=
  if n <? Z.of_nat (length (r_data r))
  then {| r_data := firstn (Z.to_nat n) (r_data r); r_fail := true |}
  else r.

(** The slice expression [s[:n]]: a run-time panic when [n] exceeds the
    length of [s]. *)
Definition slice_to (s : string) (n : nat) : option string :=
  if (n <=? String.length s)%nat then Some (String.substring 0 n s) else None.

(** extractAPIKey extracts API key from gin context or headers. *)
Definition extractAPIKey (c : Context) : string :=
  match ctx_apiKey c with
  | Some (Some keyStr) => keyStr
  | _ =>
      let authHeader := GetHeader c "Authorization" in
      if Strings.HasPrefix authHeader "Bearer "
      then Strings.TrimPrefix authHeader "Bearer "
      else if negb (bool_decide (GetHeader c "X-Goog-Api-Key" = ""))
      then GetHeader c "X-Goog-Api-Key"
      else if negb (bool_decide (Query c "key" = ""))
      then Query c "key"
      else ""
  end.

(** The JSON documents the handlers send: the error envelope and the file
    resource (here the record it is rendered from). *)
Inductive Body : Type :=
| ErrorBody (message status : string)
| FileBody (metadata : FileMetadata).

Record Response := {
  code : Z;
  uploadStatus : option string;
  body : Body
}.

(** A handler either writes a response or panics. *)
Inductive Outcome : Type :=
| Responded (r : Response)
| Panicked (reason : string).

(** handleResumableFinalize completes a resumable upload. *)
Definition handleResumableFinalize (c : Context)
    (s : GeminiFileStore) (w : World) : Outcome * GeminiFileStore * World :=
  let uploadID := Query c "upload_id" in
  if decide (uploadID = "") then
    (Responded {| code := 400; uploadStatus := None;
                  body := ErrorBody "missing upload_id parameter"
                            "INVALID_ARGUMENT" |}, s, w)
  else
    let body := MaxBytesReader (ctx_body c) MaxMultipartFileSize in
    let contentType := GetHeader c "X-Goog-Upload-Header-Content-Type" in
    let contentType :=
      if decide (contentType = "") then ContentType c else contentType in
    match slice_to uploadID 8 with
    | None => (Panicked "slice bounds out of range", s, w)
    | Some prefix =>
        let displayName := "upload-" +:+ prefix in
        let apiKey := extractAPIKey c in
        let '(r, s, w) :=
          SaveFile body uploadID contentType displayName apiKey s w in
        match r with
        | Err _ =>
            (Responded {| code := 500; uploadStatus := Some "failed";
                          body := ErrorBody "failed to save file" "INTERNAL" |},
             s, w)
        | Ok metadata =>
            (Responded {| code := 200; uploadStatus := Some "final";
                          body := FileBody metadata |}, s, w)
        end
    end.

(** handleResumableQuery checks the status of a resumable upload. *)
Definition handleResumableQuery (c : Context) : Z * list (string * string) :=
  let uploadID := Query c "upload_id" in
  if decide (uploadID = "") then (400, [])
  else (200, [("X-Goog-Upload-Status", "active");
              ("X-Goog-Upload-Size-Received", "0")]).

End gemini.

(** ** sdk/api/handlers/gemini: the upstream proxy

    The proxy forwards every call to the credential manager.  What lies
    outside the repository is gathered in [Externals]: the functions of the
    Go library whose behaviour is not spelled out here, the metadata keys
    declared by the [auth] package, and the manager itself, a state machine
    that answers [Execute]. *)

Module upstream.
Import filestore.

Abbreviation Header := (gmap string (list string)).
Abbreviation Values := (gmap string (list string)).

(** Values of type [any] as they occur in the metadata maps. *)
Inductive any : Type :=
| AnyString (v : string)
| AnyInt (v : Z)
| AnyBool (v : bool)
| AnyHeader (v : Header)
| AnyReader (v : Reader)
| AnyOther.

Record Request := {
  req_Metadata : gmap string any;
  req_Payload : list byte
}.

Record Options := {
  opt_Headers : Header;
  opt_Query : Values;
  opt_Metadata : gmap string any;
  opt_SourceFormat : string
}.

Record Response := {
  resp_Metadata : gmap string any;
  resp_Payload : list byte
}.

(** An error handed back by the manager: its text, and what its optional
    methods [StatusCode()] and [Headers()] and its [auth.Error] code say. *)
Record ProxyError := {
  err_text : string;
  err_StatusCode : option Z;
  err_Headers : option Header;
  err_authCode : option string
}.

Class Externals := {
  TrimSpace : string -> string;
  ToLower : string -> string;
  EqualFold : string -> string -> bool;
  CanonicalHeaderKey : string -> string;
  (** [url.Parse(raw)] followed by [Query().Get(key)]; [None] when the URL
      does not parse. *)
  url_query_get : string -> string -> option string;
  QueryEscape : string -> string;
  ForceAuthIDMetadataKey : string;
  NoRetryMetadataKey : string;
  SelectedAuthIDMetadataKey : string;
  Manager : Type;
  Manager_Execute :
    Request -> Options -> Manager -> (Response * option ProxyError) * Manager
}.

Definition geminiFilesActionKey : string := "gemini.files.action".
Definition geminiFilesNameKey : string := "gemini.files.name".
Definition cliproxyBodyReaderKey : string := "_cliproxy_body_reader".
Definition cliproxyBodyLengthKey : string := "_cliproxy_body_length".
Definition cliproxyResponseStatusKey : string := "_cliproxy_status_code".
Definition cliproxyResponseHeadersKey : string := "_cliproxy_headers".

Record uploadSession := {
  authID : string;
  expiresAt : Z
}.

(** GeminiUpstreamFileAPIHandler: [base] tells whether the handler has a
    base with an auth manager; [sessions] is [None] for the nil map. *)
Record GeminiUpstreamFileAPIHandler := {
  base : bool;
  sessions : option (gmap string uploadSession)
}.

(** What the handlers read of a [gin.Context]. *)
Record Context := {
  Request_Header : Header;
  Request_Query : Values;
  Request_Body : Reader;
  Request_ContentLength : Z;
  Request_TLS : bool;
  Request_Host : string
}.

(** The manager and what it has been asked so far: the calls of
    [Execute], with request and options, and the options of the calls of
    [PickAuth]. *)
Record Env `{Externals} := {
  manager : Manager;
  calls : list (Request * Options);
  picks : list Options
}.

(** What a handler writes to the client, by the function that writes it. *)
Inductive Written : Type :=
| WroteGeminiFileError (status : Z) (message code : string)
| WroteProxyResponseWithHeaders (status : Z) (hdr : option Header)
    (payload : list byte)
| WroteProxyError (err : ProxyError).

Section Handlers.
Context `{Externals}.

Definition Header_Get (h : Header) (key : string) : string :=
  match h !! CanonicalHeaderKey key with
  | Some (v :: _) => v
  | _ => ""
  end.

Definition Header_Set (h : Header) (key value : string) : Header :=
  <[CanonicalHeaderKey key := [value]]> h.

Definition GetHeader (c : Context) (key : string) : string :=
  Header_Get (Request_Header c) key.

Definition Query (c : Context) (key : string) : string :=
  match Request_Query c !! key with
  | Some (v :: _) => v
  | _ => ""
  end.

Definition keepQuery (k : string) : bool :=
  negb (EqualFold k "key" || EqualFold k "auth_token").

Definition cloneQueryWithoutClientAuth (c : Context) : Values :=
  filter (fun kv => keepQuery (fst kv) = true) (Request_Query c).

Definition keepHeader (k : string) : bool :=
  if EqualFold k "Authorization" || EqualFold k "X-Goog-Api-Key" then false
  else if EqualFold k "Content-Length" || EqualFold k "Host" then false
  else Strings.HasPrefix (ToLower k) "x-goog-upload-"
       || EqualFold k "Content-Type" || EqualFold k "Accept".

Definition cloneHeadersForGeminiFiles (c : Context) : Header :=
  filter (fun kv => keepHeader (fst kv) = true) (Request_Header c).

Definition fileOptionsFromRequest (c : Context) : Options :=
  {| opt_Headers := cloneHeadersForGeminiFiles c;
     opt_Query := cloneQueryWithoutClientAuth c;
     opt_Metadata := ∅;
     opt_SourceFormat := "" |}.

Definition with_Metadata (m : gmap string any) (opts : Options) : Options :=
  {| opt_Headers := opt_Headers opts; opt_Query := opt_Query opts;
     opt_Metadata := m; opt_SourceFormat := opt_SourceFormat opts |}.

Definition with_SourceFormat (f : string) (opts : Options) : Options :=
  {| opt_Headers := opt_Headers opts; opt_Query := opt_Query opts;
     opt_Metadata := opt_Metadata opts; opt_SourceFormat := f |}.

Definition notConfigured : ProxyError :=
  {| err_text := "gemini files: auth manager is not configured";
     err_StatusCode := Some 503; err_Headers := None; err_authCode := None |}.

Definition execute (h : GeminiUpstreamFileAPIHandler)
    (req : Request) (opts : Options) (env : Env)
  : (Response * option ProxyError) * Env :=
  if negb (base h) then
    (({| resp_Metadata := ∅; resp_Payload := [] |}, Some notConfigured), env)
  else
    let opts := with_SourceFormat "gemini" opts in
    let '(r, mgr) := Manager_Execute req opts (manager env) in
    (r, {| manager := mgr; calls := calls env ++ [(req, opts)];
           picks := picks env |}).

Definition unpackProxyMetadata (meta : gmap string any) : Z * option Header :=
  if decide (size meta = 0%nat) then (200, None)
  else
    let status := match meta !! cliproxyResponseStatusKey with
                  | Some (AnyInt v) => v
                  | _ => 0
                  end in
    let hdr := match meta !! cliproxyResponseHeadersKey with
               | Some (AnyHeader v) => Some v
               | _ => None
               end in
    (status, hdr).

Definition writeProxyResponse (resp : Response) (err : option ProxyError)
  : Written :=
  match err with
  | None =>
      let '(status, hdr) := unpackProxyMetadata (resp_Metadata resp) in
      WroteProxyResponseWithHeaders status hdr (resp_Payload resp)
  | Some e => WroteProxyError e
  end.

Definition writeGeminiFileError (status : Z) (message code : string)
  : Written :=
  let status := if status <=? 0 then 400 else status in
  WroteGeminiFileError status message code.

Definition authIDFromMetadata (meta : gmap string any) : string :=
  if decide (size meta = 0%nat) then ""
  else match meta !! SelectedAuthIDMetadataKey with
       | Some (AnyString v) => TrimSpace v
       | _ => ""
       end.

Definition extractUploadID (raw : string) : string :=
  let raw := TrimSpace raw in
  if decide (raw = "") then ""
  else match url_query_get raw "upload_id" with
       | None => ""
       | Some v => TrimSpace v
       end.

Definition buildProxyUploadURL (c : Context) (uploadID : string) : string :=
  let scheme := if Request_TLS c then "https" else "http" in
  let scheme :=
    if decide (TrimSpace (GetHeader c "X-Forwarded-Proto") = "") then scheme
    else TrimSpace (GetHeader c "X-Forwarded-Proto") in
  let host := TrimSpace (GetHeader c "X-Forwarded-Host") in
  let host := if decide (host = "") then TrimSpace (Request_Host c) else host in
  scheme +:+ "://" +:+ host +:+ "/upload/v1beta/files?upload_id="
    +:+ QueryEscape uploadID.

Definition with_sessions (m : option (gmap string uploadSession))
    (h : GeminiUpstreamFileAPIHandler) : GeminiUpstreamFileAPIHandler :=
  {| base := base h; sessions := m |}.

Definition twoHours : Z := 2 * hour.

Definition bindSession (uploadID authID : string) (now : Z)
    (h : GeminiUpstreamFileAPIHandler) : GeminiUpstreamFileAPIHandler :=
  if decide (TrimSpace uploadID = "") then h
  else if decide (TrimSpace authID = "") then h
  else
    let m := match sessions h with
             | None => ∅
             | Some m => m
             end in
    with_sessions
      (Some (<[uploadID := {| authID := authID;
                              expiresAt := now + twoHours |}]> m)) h.

Definition sessionAuthID (uploadID : string) (now : Z)
    (h : GeminiUpstreamFileAPIHandler)
  : (string * bool) * GeminiUpstreamFileAPIHandler :=
  let uploadID := TrimSpace uploadID in
  if decide (uploadID = "") then (("", false), h)
  else match sessions h with
       | None => (("", false), h)
       | Some m =>
           match m !! uploadID with
           | None => (("", false), with_sessions (Some (delete uploadID m)) h)
           | Some s =>
               if decide (authID s = "") then
                 (("", false), with_sessions (Some (delete uploadID m)) h)
               else if expiresAt s <? now then
                 (("", false), with_sessions (Some (delete uploadID m)) h)
               else ((authID s, true), h)
           end
       end.

Definition dropSession (uploadID : string)
    (h : GeminiUpstreamFileAPIHandler) : GeminiUpstreamFileAPIHandler :=
  let uploadID := TrimSpace uploadID in
  if decide (uploadID = "") then h
  else match sessions h with
       | None => h
       | Some m => with_sessions (Some (delete uploadID m)) h
       end.

Definition uploadRequest (c : Context) : Request :=
  {| req_Metadata :=
       <[cliproxyBodyLengthKey := AnyInt (Request_ContentLength c)]>
         (<[cliproxyBodyReaderKey := AnyReader (Request_Body c)]>
            (<[geminiFilesActionKey := AnyString "files.upload"]> ∅));
     req_Payload := [] |}.

Definition pinned (authID : string) : gmap string any :=
  <[NoRetryMetadataKey := AnyBool true]>
    (<[ForceAuthIDMetadataKey := AnyString authID]> ∅).

Definition handleResumableFollowUp (c : Context) (cmd : string) (now : Z)
    (h : GeminiUpstreamFileAPIHandler) (env : Env)
  : Written * GeminiUpstreamFileAPIHandler * Env :=
  let uploadID := TrimSpace (Query c "upload_id") in
  let '((authID, ok), h) := sessionAuthID uploadID now h in
  if negb ok then
    (writeGeminiFileError 400 "missing or expired upload_id" "INVALID_ARGUMENT",
     h, env)
  else
    let req := uploadRequest c in
    let opts := with_Metadata (pinned authID) (fileOptionsFromRequest c) in
    let '((resp, err), env) := execute h req opts env in
    let h :=
      if Strings.Contains (ToLower cmd) "finalize"
         && bool_decide (err = None)
      then dropSession uploadID h else h in
    (writeProxyResponse resp err, h, env).

Definition writeResumableStartResponse (c : Context) (resp : Response)
    (err : option ProxyError) (now : Z) (h : GeminiUpstreamFileAPIHandler)
  : Written * GeminiUpstreamFileAPIHandler :=
  match err with
  | Some _ => (writeProxyResponse resp err, h)
  | None =>
      let '(status, hdr) := unpackProxyMetadata (resp_Metadata resp) in
      let hdr := match hdr with
                 | None => ∅
                 | Some hdr => hdr
                 end in
      let uploadURL := Header_Get hdr "X-Goog-Upload-URL" in
      let uploadID := extractUploadID uploadURL in
      if decide (uploadID = "") then
        (WroteProxyResponseWithHeaders status (Some hdr) (resp_Payload resp), h)
      else
        let h := bindSession uploadID
                   (authIDFromMetadata (resp_Metadata resp)) now h in
        let hdr := Header_Set hdr "X-Goog-Upload-URL"
                     (buildProxyUploadURL c uploadID) in
        (WroteProxyResponseWithHeaders status (Some hdr) (resp_Payload resp), h)
  end.

Definition handleResumableStart (c : Context) (now : Z)
    (h : GeminiUpstreamFileAPIHandler) (env : Env)
  : Written * GeminiUpstreamFileAPIHandler * Env :=
  let body := r_data (Request_Body c) in
  let req :=
    {| req_Metadata := <[geminiFilesActionKey := AnyString "files.upload"]> ∅;
       req_Payload := body |} in
  let opts := fileOptionsFromRequest c in
  let '((resp, err), env) := execute h req opts env in
  let '(out, h) := writeResumableStartResponse c resp err now h in
  (out, h, env).

Definition handleResumableUpload (c : Context) (now : Z)
    (h : GeminiUpstreamFileAPIHandler) (env : Env)
  : Written * GeminiUpstreamFileAPIHandler * Env :=
  let cmd := TrimSpace (GetHeader c "X-Goog-Upload-Command") in
  if EqualFold cmd "start" then handleResumableStart c now h env
  else handleResumableFollowUp c cmd now h env.

End Handlers.

End upstream.

(** ** encoding/base64 *)

Module Base64.

Definition encodeStd : string :=
  "ABCDEFGHIJKLMNOPQRSTUVWXYZabcdefghijklmnopqrstuvwxyz0123456789+/".

Definition enc (n : Z) : ascii :=
  match String.get (Z.to_nat n) encodeStd with
  | Some c => c
  | None => "="%char
  end.

Fixpoint index_of (c : ascii) (s : string) (i : Z) : option Z :=
  match s with
  | EmptyString => None
  | String d rest => if Ascii.eqb c d then Some i else index_of c rest (i + 1)
  end.

Definition dec (c : ascii) : option Z := index_of c encodeStd 0.

(** [base64.StdEncoding.EncodeToString]. *)
Fixpoint EncodeToString (src : list byte) : string :=
  match src with
  | [] => EmptyString
  | [a] =>
      let a := Bytes.to_Z a in
      String (enc (a / 4)) (String (enc (a mod 4 * 16)) "==")
  | [a; b] =>
      let a := Bytes.to_Z a in
      let b := Bytes.to_Z b in
      String (enc (a / 4))
        (String (enc (a mod 4 * 16 + b / 16))
           (String (enc (b mod 16 * 4)) "="))
  | a :: b :: c :: rest =>
      let a := Bytes.to_Z a in
      let b := Bytes.to_Z b in
      let c := Bytes.to_Z c in
      String (enc (a / 4))
        (String (enc (a mod 4 * 16 + b / 16))
           (String (enc (b mod 16 * 4 + c / 64))
              (String (enc (c mod 64)) (EncodeToString rest))))
  end.

(** [base64.StdEncoding.DecodeString], on padded text without line
    breaks. *)
Fixpoint DecodeString (s : string) : option (list byte) :=
  match s with
  | EmptyString => Some []
  | String c1 (String c2 (String c3 (String c4 rest))) =>
      match dec c1, dec c2 with
      | Some s1, Some s2 =>
          let b1 := Bytes.of_Z (s1 * 4 + s2 / 16) in
          if Ascii.eqb c4 "=" && bool_decide (rest = EmptyString) then
            if Ascii.eqb c3 "=" then Some [b1]
            else match dec c3 with
                 | Some s3 =>
                     Some [b1; Bytes.of_Z (s2 mod 16 * 16 + s3 / 4)]
                 | None => None
                 end
          else
            match dec c3, dec c4, DecodeString rest with
            | Some s3, Some s4, Some tail =>
                Some (b1 :: Bytes.of_Z (s2 mod 16 * 16 + s3 / 4)
                         :: Bytes.of_Z (s3 mod 4 * 64 + s4) :: tail)
            | _, _, _ => None
            end
      | _, _ => None
      end
  | _ => None
  end.

End Base64.

(** ** gjson and sjson

    The rewriter reads and edits the payload through dotted paths.  The
    payload is modelled by the JSON value it denotes: an object keeps its
    members in order, duplicates included; a number keeps its text.  A
    dotted path is kept split into its components, [Item n] where the
    component is the decimal index [n]. *)

Module JSON.

#[local] Unset Elimination Schemes.
Inductive json : Type :=
| JNull
| JBool (b : bool)
| JNumber (raw : string)
| JString (s : string)
| JArray (elems : list json)
| JObject (members : list (string * json)).
#[local] Set Elimination Schemes.

Inductive step : Type :=
| Field (name : string)
| Item (index : nat).

Definition step_name (st : step) : string :=
  match st with
  | Field name => name
  | Item n => Fmt.decimal (Z.of_nat n)
  end.

(** The first member of that name. *)
Fixpoint member (k : string) (ms : list (string * json)) : option json :=
  match ms with
  | [] => None
  | (k', v) :: rest => if decide (k' = k) then Some v else member k rest
  end.

Fixpoint replace_member (k : string) (v : json) (ms : list (string * json))
  : list (string * json) :=
  match ms with
  | [] => []
  | (k', v') :: rest =>
      if decide (k' = k) then (k', v) :: rest
      else (k', v') :: replace_member k v rest
  end.

Fixpoint remove_member (k : string) (ms : list (string * json))
  : list (string * json) :=
  match ms with
  | [] => []
  | (k', v') :: rest =>
      if decide (k' = k) then rest else (k', v') :: remove_member k rest
  end.

(** One component of a path: a member of an object by name, an element of
    an array by index. *)
Definition child (j : json) (st : step) : option json :=
  match j, st with
  | JObject ms, _ => member (step_name st) ms
  | JArray es, Item n => es !! n
  | _, _ => None
  end.

Definition replace_child (j : json) (st : step) (v : json) : json :=
  match j, st with
  | JObject ms, _ => JObject (replace_member (step_name st) v ms)
  | JArray es, Item n => JArray (<[n := v]> es)
  | _, _ => j
  end.

Definition remove_child (j : json) (st : step) : json :=
  match j, st with
  | JObject ms, _ => JObject (remove_member (step_name st) ms)
  | JArray es, Item n => JArray (delete n es)
  | _, _ => j
  end.

(** [gjson.Get]: [None] when the path leads nowhere. *)
Fixpoint Get (j : json) (path : list step) : option json :=
  match path with
  | [] => Some j
  | st :: rest =>
      match child j st with
      | Some c => Get c rest
      | None => None
      end
  end.

Definition IsArray (r : option json) : bool :=
  match r with
  | Some (JArray _) => true
  | _ => false
  end.

Definition Array (r : option json) : list json :=
  match r with
  | Some (JArray es) => es
  | Some JNull | None => []
  | Some v => [v]
  end.

(** The text of a value, in compact form (the white space of the document
    is not kept). *)
Definition dquote : ascii := "034"%char.
Definition backslash : ascii := "092"%char.

Fixpoint escape (s : string) : string :=
  match s with
  | EmptyString => EmptyString
  | String c rest =>
      if Ascii.eqb c dquote || Ascii.eqb c backslash
      then String backslash (String c (escape rest))
      else String c (escape rest)
  end.

Definition quote (s : string) : string :=
  String dquote (escape s +:+ String dquote EmptyString).

Fixpoint raw (j : json) : string :=
  match j with
  | JNull => "null"
  | JBool true => "true"
  | JBool false => "false"
  | JNumber text => text
  | JString s => quote s
  | JArray es =>
      "[" +:+ (fix elems (l : list json) : string :=
                 match l with
                 | [] => ""
                 | [e] => raw e
                 | e :: rest => raw e +:+ "," +:+ elems rest
                 end) es +:+ "]"
  | JObject ms =>
      "{" +:+ (fix fields (l : list (string * json)) : string :=
                 match l with
                 | [] => ""
                 | [(k, v)] => quote k +:+ ":" +:+ raw v
                 | (k, v) :: rest =>
                     quote k +:+ ":" +:+ raw v +:+ "," +:+ fields rest
                 end) ms +:+ "}"
  end.

(** [Result.String()]. *)
Definition String_ (r : option json) : string :=
  match r with
  | None => ""
  | Some JNull => ""
  | Some (JBool true) => "true"
  | Some (JBool false) => "false"
  | Some (JNumber text) => text
  | Some (JString s) => s
  | Some v => raw v
  end.

(** What sjson builds for the components of a path that do not exist
    yet. *)
Fixpoint build (path : list step) (v : json) : json :=
  match path with
  | [] => v
  | Field k :: rest => JObject [(k, build rest v)]
  | Item n :: rest => JArray (repeat JNull n ++ [build rest v])
  end.

(** Setting a value along a path; [None] is sjson's error "cannot set
    array element for non-numeric key". *)
Fixpoint set (path : list step) (v : json) (j : json) : option json :=
  match path with
  | [] => Some v
  | st :: rest =>
      match child j st with
      | Some c =>
          match set rest v c with
          | Some c' => Some (replace_child j st c')
          | None => None
          end
      | None =>
          match j, st with
          | JObject ms, _ => Some (JObject (ms ++ [(step_name st, build rest v)]))
          | JArray es, Item n =>
              Some (JArray (es ++ repeat JNull (n - length es)
                               ++ [build rest v]))
          | JArray _, Field _ => None
          | _, Field k => Some (JObject [(k, build rest v)])
          | _, Item n => Some (JArray (repeat JNull n ++ [build rest v]))
          end
      end
  end.

(** Deleting the value at a path; [None] when there is nothing to
    delete. *)
Fixpoint del (path : list step) (j : json) : option json :=
  match path with
  | [] => None
  | [st] =>
      match child j st with
      | Some _ => Some (remove_child j st)
      | None => None
      end
  | st :: rest =>
      match child j st with
      | Some c =>
          match del rest c with
          | Some c' => Some (replace_child j st c')
          | None => None
          end
      | None => None
      end
  end.

(** [sjson.SetBytes] and [sjson.DeleteBytes] with the error dropped, as the
    rewriter calls them: on error the document comes back unchanged. *)
Definition SetBytes (j : json) (path : list step) (v : json) : json :=
  match set path v j with
  | Some j' => j'
  | None => j
  end.

Definition DeleteBytes (j : json) (path : list step) : json :=
  match del path j with
  | Some j' => j'
  | None => j
  end.

End JSON.

(** ** sdk/api/handlers/gemini: the payload rewriter *)

Module rewriter.
Import filestore JSON.

Definition maxInlineFileBytes : Z := 20 * 1024 * 1024.

Record filePartRef := {
  contentIndex : nat;
  partIndex : nat;
  fileURI : string;
  mimeType : string
}.

Definition parseLocalFilePart (contentIndex partIndex : nat) (part : json)
  : option filePartRef :=
  let fileURI := String_ (Get part [Field "file_data"; Field "file_uri"]) in
  let mimeType := String_ (Get part [Field "file_data"; Field "mime_type"]) in
  let '(fileURI, mimeType) :=
    if decide (fileURI = "")
    then (String_ (Get part [Field "fileData"; Field "fileUri"]),
          String_ (Get part [Field "fileData"; Field "mimeType"]))
    else (fileURI, mimeType) in
  if negb (Strings.HasPrefix fileURI "files/") then None
  else Some {| contentIndex := contentIndex; partIndex := partIndex;
               fileURI := fileURI; mimeType := mimeType |}.

(** The loop of appendRefsFromContent over the parts, from index [pi]. *)
Fixpoint appendRefsFromParts (out : list filePartRef) (contentIndex pi : nat)
    (parts : list json) : list filePartRef :=
  match parts with
  | [] => out
  | part :: rest =>
      match parseLocalFilePart contentIndex pi part with
      | Some ref => appendRefsFromParts (out ++ [ref]) contentIndex (S pi) rest
      | None => appendRefsFromParts out contentIndex (S pi) rest
      end
  end.

Definition appendRefsFromContent (out : list filePartRef) (contentIndex : nat)
    (content : json) : list filePartRef :=
  let parts := Get content [Field "parts"] in
  if negb (IsArray parts) then out
  else appendRefsFromParts out contentIndex 0 (Array parts).

(** The loop of findRefsInContents, from index [ci]. *)
Fixpoint findRefsFrom (out : list filePartRef) (ci : nat)
    (contents : list json) : list filePartRef :=
  match contents with
  | [] => out
  | content :: rest =>
      findRefsFrom (appendRefsFromContent out ci content) (S ci) rest
  end.

Definition findRefsInContents (contents : list json) : list filePartRef :=
  findRefsFrom [] 0 contents.

Definition findLocalFilePartRefs (payload : json) : list filePartRef :=
  let contents := Get payload [Field "contents"] in
  if negb (IsArray contents) then []
  else findRefsInContents (Array contents).

Definition resolveMimeType (ref : filePartRef)
    (metadata : option FileMetadata) : string :=
  if negb (bool_decide (mimeType ref = "")) then mimeType ref
  else match metadata with
       | Some m => MimeType m
       | None => ""
       end.

Definition normalizeReadError (err : error) : error :=
  if errors_Is err ErrFileNotFound then ErrFileNotFound
  else if errors_Is err ErrFileTooLarge then ErrFileTooLarge
  else ErrWrap "read local file" err.

Definition loadInlineFile (apiKey : string) (ref : filePartRef) (w : World)
  : Result (list byte * string) * World :=
  let fileID := Strings.TrimPrefix (fileURI ref) "files/" in
  let '(r, w) := ReadFileBytesForAPIKey fileID apiKey maxInlineFileBytes w in
  match r with
  | Err err => (Err (normalizeReadError err), w)
  | Ok (data, meta) => (Ok (data, resolveMimeType ref (Some meta)), w)
  end.

Definition partPath (ref : filePartRef) : list step :=
  [Field "contents"; Item (contentIndex ref);
   Field "parts"; Item (partIndex ref)].

Definition applyInlineData (payload : json) (ref : filePartRef)
    (mimeType : string) (data : list byte) : json :=
  let inlinePath := partPath ref ++ [Field "inline_data"] in
  let out := SetBytes payload (inlinePath ++ [Field "mime_type"])
               (JString mimeType) in
  let out := SetBytes out (inlinePath ++ [Field "data"])
               (JString (Base64.EncodeToString data)) in
  let out := DeleteBytes out (partPath ref ++ [Field "file_data"]) in
  let out := DeleteBytes out (partPath ref ++ [Field "fileData"]) in
  out.

Definition inlineLocalFilePart (payload : json) (apiKey : string)
    (ref : filePartRef) (w : World) : Result json * World :=
  let '(r, w) := loadInlineFile apiKey ref w in
  match r with
  | Err err => (Err err, w)
  | Ok (data, mimeType) => (Ok (applyInlineData payload ref mimeType data), w)
  end.

(** The loop of applyLocalFilePartRefs. *)
Fixpoint applyRefs (out : json) (apiKey : string) (refs : list filePartRef)
    (w : World) : Result json * World :=
  match refs with
  | [] => (Ok out, w)
  | ref :: rest =>
      let '(r, w) := inlineLocalFilePart out apiKey ref w in
      match r with
      | Err err => (Err err, w)
      | Ok updated => applyRefs updated apiKey rest w
      end
  end.

Definition applyLocalFilePartRefs (payload : json) (apiKey : string)
    (refs : list filePartRef) (w : World) : Result json * World :=
  applyRefs payload apiKey refs w.

(** rewriteLocalFileParts; [store] tells whether a local store is
    configured. *)
Definition rewriteLocalFileParts (payload : json) (store : bool)
    (apiKey : string) (w : World) : Result json * World :=
  if negb store then (Ok payload, w)
  else applyLocalFilePartRefs payload apiKey (findLocalFilePartRefs payload) w.

End rewriter.

(** ** Vocabulary of the specification

    The notions the specification uses to state its properties, written
    from its words; the properties below relate them to the code. *)

Module Spec.
Import filestore.

(** One of 0-9, a-f, A-F. *)
Definition hexChar (c : ascii) : Prop :=
  (("0" <=? c) && (c <=? "9") || ("a" <=? c) && (c <=? "f")
   || ("A" <=? c) && (c <=? "F"))%char = true.

(** An id that is not exactly 32 hexadecimal characters. *)
Definition malformedFileID (fileID : string) : Prop :=
  String.length fileID <> 32%nat \/
  exists c, In c (list_ascii_of_string fileID) /\ ~ hexChar c.

(** The stored owner hash is not the hash of the presented key, an empty
    stored hash matching the empty key only.  This is the store's own
    notion of a foreign record: it compares 16 hexadecimal characters of
    the digest, so two keys with the same hash are one owner to it. *)
Definition ownerHashDiffers (m : FileMetadata) (apiKey : string) : Prop :=
  if decide (APIKey m = "") then apiKey <> ""
  else APIKey m <> hashAPIKey apiKey.

(** The sidecar of [fileID], as it lies in the metadata directory. *)
Definition record (w : World) (fileID : string) : option sidecar :=
  metadataDir w !! (fileID +:+ MetadataFileExtension).

(** The reading the next call to [time.Now()] returns. *)
Definition nextNow (w : World) : Z := fst (time_Now w).

(** The next system call does not fail for a reason of its own. *)
Definition nextCallGoesThrough (w : World) : Prop :=
  hd false (faults w) = false.

(** The three situations in which a record is hidden from a caller. *)
Inductive Hidden (fileID apiKey : string) (w : World) : Prop :=
| hidden_missing :
    record w fileID = None -> Hidden fileID apiKey w
| hidden_other_hash m :
    record w fileID = Some (Sidecar m) -> ownerHashDiffers m apiKey ->
    Hidden fileID apiKey w
| hidden_expired m :
    record w fileID = Some (Sidecar m) -> ExpiresAt m < nextNow w ->
    Hidden fileID apiKey w.

Definition unexpiredAt (now : Z) (m : FileMetadata) : Prop :=
  isExpired (Some m) now = false.

(** The values an [int64] holds. *)
Definition int64 (z : Z) : Prop := - 2 ^ 63 <= z < 2 ^ 63.

(** Bytes held by the content directory, under any name. *)
Definition usage (files : gmap string (list byte)) : Z :=
  map_fold (fun _ (data : list byte) acc => acc + Z.of_nat (length data)) 0
    files.

Definition diskUsage (w : World) : Z := usage (filesDir w).

(** The store-size invariant. *)
Definition sizeInvariant (s : GeminiFileStore) (w : World) : Prop :=
  currentTotalSize s = diskUsage w.

End Spec.

(** Vocabulary for the resumable sessions of the proxy. *)
Module SessionSpec.
Import upstream.

Section Sessions.
Context `{Externals}.

(** The session token of a follow-up request, as the handler derives it
    from the query string. *)
Definition token (c : Context) : string :=
  TrimSpace (TrimSpace (Query c "upload_id")).

Definition session (h : GeminiUpstreamFileAPIHandler) (tok : string)
  : option uploadSession :=
  match sessions h with
  | None => None
  | Some m => m !! tok
  end.

(** The token is absent, unknown, bound to no credential, or past its
    TTL. *)
Inductive NoLiveSession (h : GeminiUpstreamFileAPIHandler) (tok : string)
    (now : Z) : Prop :=
| token_absent : tok = "" -> NoLiveSession h tok now
| token_unknown : session h tok = None -> NoLiveSession h tok now
| token_unbound s :
    session h tok = Some s -> authID s = "" -> NoLiveSession h tok now
| token_expired s :
    session h tok = Some s -> expiresAt s < now -> NoLiveSession h tok now.

(** The token names a session bound to [cred] that has not expired. *)
Definition LiveSession (h : GeminiUpstreamFileAPIHandler) (tok : string)
    (now : Z) (cred : string) : Prop :=
  tok <> "" /\ cred <> "" /\
  exists s, session h tok = Some s /\ authID s = cred /\ ~ expiresAt s < now.

(** The one call a follow-up makes to the manager: the client body, pinned
    to [cred] with retries off. *)
Definition pinnedCall (c : Context) (cred : string) : Request * Options :=
  (uploadRequest c,
   with_SourceFormat "gemini"
     (with_Metadata (pinned cred) (fileOptionsFromRequest c))).

Definition missingOrExpired : Written :=
  WroteGeminiFileError 400 "missing or expired upload_id" "INVALID_ARGUMENT".

End Sessions.
End SessionSpec.

(** Vocabulary for the payload rewriter. *)
Module RewriteSpec.
Import filestore JSON rewriter Spec.

(** Replacing the node a path leads to. *)
Fixpoint put (path : list step) (x : json) (j : json) : json :=
  match path with
  | [] => x
  | st :: rest =>
      match child j st with
      | Some c => replace_child j st (put rest x c)
      | None => j
      end
  end.

(** The part [pi] of the content [ci] of a payload. *)
Definition partAt (j : json) (ci pi : nat) : option json :=
  match child j (Field "contents") with
  | Some (JArray cs) =>
      match cs !! ci with
      | Some c =>
          match child c (Field "parts") with
          | Some (JArray ps) => ps !! pi
          | _ => None
          end
      | None => None
      end
  | _ => None
  end.

Definition coord (r : filePartRef) : nat * nat :=
  (contentIndex r, partIndex r).

(** How often a member name occurs in an object. *)
Definition occurrences (k : string) (ms : list (string * json)) : nat :=
  length (List.filter (fun kv => bool_decide (fst kv = k)) ms).

(** A part that can be rewritten: an object that carries each spelling of
    the reference at most once and no array under [inline_data]. *)
Definition tidy (part : json) : Prop :=
  match part with
  | JObject ms =>
      (occurrences "file_data" ms <= 1)%nat /\
      (occurrences "fileData" ms <= 1)%nat /\
      (forall es, member "inline_data" ms <> Some (JArray es))
  | _ => False
  end.

(** What applyInlineData does to the part itself. *)
Definition rewritePart (mimeType : string) (data : list byte) (part : json)
  : json :=
  let out := SetBytes part [Field "inline_data"; Field "mime_type"]
               (JString mimeType) in
  let out := SetBytes out [Field "inline_data"; Field "data"]
               (JString (Base64.EncodeToString data)) in
  let out := DeleteBytes out [Field "file_data"] in
  DeleteBytes out [Field "fileData"].

(** The part carries the bytes inline, under that mime type, and no
    reference any more. *)
Definition Inlined (part : option json) (mimeType : string)
    (data : list byte) : Prop :=
  exists p inline b64,
    part = Some p /\
    child p (Field "inline_data") = Some inline /\
    child inline (Field "mime_type") = Some (JString mimeType) /\
    child inline (Field "data") = Some (JString b64) /\
    Base64.DecodeString b64 = Some data /\
    child p (Field "file_data") = None /\
    child p (Field "fileData") = None.

(** A world in which no system call fails and the clock stands at
    [wall]. *)
Definition quiet (w : World) : Prop := faults w = [] /\ clock w = [].

Definition fileIDOf (r : filePartRef) : string :=
  Strings.TrimPrefix (fileURI r) "files/".

(** The handle names a record of the caller, with its content. *)
Definition Stored (w : World) (apiKey fileID : string)
    (data : list byte) (m : FileMetadata) : Prop :=
  isValidFileID fileID = true /\
  record w fileID = Some (Sidecar m) /\
  ~ ownerHashDiffers m apiKey /\
  ~ ExpiresAt m < wall w /\
  filesDir w !! fileID = Some data.

Definition fits (data : list byte) (m : FileMetadata) : Prop :=
  SizeBytes m <= maxInlineFileBytes /\
  Z.of_nat (length data) <= maxInlineFileBytes.

Definition Readable (w : World) (apiKey fileID : string)
    (data : list byte) (m : FileMetadata) : Prop :=
  Stored w apiKey fileID data m /\ fits data m.

(** The handle is missing for this caller: not an id, or hidden. *)
Definition Missing (w : World) (apiKey fileID : string) : Prop :=
  isValidFileID fileID = false \/ Hidden fileID apiKey w.

(** The handle names a record of the caller that exceeds the ceiling. *)
Definition TooBig (w : World) (apiKey fileID : string) : Prop :=
  exists data m, Stored w apiKey fileID data m /\ ~ fits data m.

(** What the bounded read returns in a quiet world. *)
Definition readOutcome (w : World) (apiKey fileID : string)
  : Result (list byte * FileMetadata) :=
  if negb (isValidFileID fileID) then Err ErrFileNotFound
  else match record w fileID with
       | None => Err ErrFileNotFound
       | Some Garbled =>
           Err (ErrWrap "failed to unmarshal metadata" ErrUnmarshal)
       | Some (Sidecar m) =>
           if negb (isOwnedByAPIKey (Some m) apiKey) then Err ErrFileNotFound
           else if ExpiresAt m <? wall w then Err ErrFileNotFound
           else match filesDir w !! fileID with
                | None => Err (ErrWrap "failed to open file" ErrNotExist)
                | Some data =>
                    if maxInlineFileBytes <? SizeBytes m
                    then Err ErrFileTooLarge
                    else if maxInlineFileBytes <? Z.of_nat (length data)
                    then Err ErrFileTooLarge
                    else Ok (data, m)
                end
       end.

(** The loop of applyLocalFilePartRefs when every read is answered by
    [readOutcome]. *)
Fixpoint applyPure (w : World) (apiKey : string) (out : json)
    (refs : list filePartRef) : Result json :=
  match refs with
  | [] => Ok out
  | ref :: rest =>
      match readOutcome w apiKey (fileIDOf ref) with
      | Err err => Err (normalizeReadError err)
      | Ok (data, meta) =>
          applyPure w apiKey
            (applyInlineData out ref (resolveMimeType ref (Some meta)) data)
            rest
      end
  end.

(** Two worlds with the same files, sidecars and time. *)
Definition sameDisk (w w' : World) : Prop :=
  filesDir w' = filesDir w /\ metadataDir w' = metadataDir w /\
  wall w' = wall w.

End RewriteSpec.

(** ** Concrete scenarios *)

Module Scenario.
Import filestore.

Definition t0 : Z := 1700000000000000000.

(** An empty store directory; the clock stands still at [t0]. *)
Definition emptyWorld : World :=
  {| filesDir := ∅; metadataDir := ∅; clock := []; wall := t0;
     faults := []; trace := [] |}.

Definition freshStore : GeminiFileStore :=
  {| expirationHours := 48; maxTotalSizeMB := 0; currentTotalSize := 0 |}.

Definition text (s : string) : Reader :=
  {| r_data := Bytes.of_string s; r_fail := false |}.

(** The world after ["hello"] was saved under owner ["key-a"]. *)
Definition savedHello : Result FileMetadata * GeminiFileStore * World :=
  Eval vm_compute in
    SaveFile (text "hello") "a.txt" "text/plain" "a.txt" "key-a"
      freshStore emptyWorld.

Definition helloID : string := "691ad6e89ddebaeb2b7594065c610863".

Definition helloStore : GeminiFileStore := snd (fst savedHello).
Definition helloWorld : World := snd savedHello.

Definition helloRecord : FileMetadata :=
  Eval vm_compute in
    match fst (fst savedHello) with
    | Ok m => m
    | Err _ =>
        {| FileID := ""; Name := ""; DisplayName := ""; MimeType := "";
           SizeBytes := 0; SHA256Hash := ""; URI := ""; State := "";
           CreatedAt := 0; ExpiresAt := 0; UploadSource := ""; APIKey := "" |}
    end.

(** Two keys that are not the same key and hash alike: the first 8 bytes
    of their SHA-256 digests agree.  ["hello"] saved under the first. *)
Definition twinKey1 : string := "key-cf11e58d5199367f".
Definition twinKey2 : string := "key-a4a6e98b57b6aedc".

Definition savedByTwin : Result FileMetadata * GeminiFileStore * World :=
  Eval vm_compute in
    SaveFile (text "hello") "a.txt" "text/plain" "a.txt" twinKey1
      freshStore emptyWorld.

Definition twinRecord : FileMetadata :=
  Eval vm_compute in
    match fst (fst savedByTwin) with
    | Ok m => m
    | Err _ => helloRecord
    end.

Definition twinStore : GeminiFileStore := snd (fst savedByTwin).
Definition twinWorld : World := snd savedByTwin.

Definition setClock (ts : list Z) (w : World) : World :=
  {| filesDir := filesDir w; metadataDir := metadataDir w; clock := ts;
     wall := wall w; faults := faults w; trace := trace w |}.

Definition setFaults (fs : list bool) (w : World) : World :=
  {| filesDir := filesDir w; metadataDir := metadataDir w; clock := clock w;
     wall := wall w; faults := fs; trace := trace w |}.

(** A second upload, ["world!"] under owner ["key-b"], while the clock
    still reads [t0]. *)
Definition savedWorld : Result FileMetadata * GeminiFileStore * World :=
  Eval vm_compute in
    SaveFile (text "world!") "b.txt" "text/plain" "b.txt" "key-b"
      helloStore helloWorld.

(** Deleting ["hello"] while the removal of its content file fails (the
    call to [os.Stat] before it goes through). *)
Definition failedDelete : option error * GeminiFileStore * World :=
  Eval vm_compute in
    DeleteFile helloID helloStore (setFaults [false; true] helloWorld).

(** A store with a quota of 1 MB of which all but one byte is used. *)
Definition nearlyFullStore : GeminiFileStore :=
  {| expirationHours := 48; maxTotalSizeMB := 1;
     currentTotalSize := 1024 * 1024 - 1 |}.

(** A finalize request whose upload_id has three characters. *)
Definition shortFinalize : gemini.Context :=
  {| gemini.ctx_apiKey := None;
     gemini.ctx_header := [("Authorization", "Bearer key-a")];
     gemini.ctx_query := [("upload_id", "abc")];
     gemini.ctx_body := text "hello" |}.

(** Fifty hours later the record has expired; its two files are still
    there. *)
Definition expiredWorld : World :=
  setClock (repeat (t0 + 50 * hour) 8) helloWorld.

End Scenario.

(** A proxy with one upstream credential, ["c1"].  The functions of the Go
    library are given on ASCII text; the metadata keys are stand-ins for
    the constants of the [auth] package. *)
Module ProxyScenario.
Import filestore upstream SessionSpec.

Definition isSpace (ch : ascii) : bool :=
  Ascii.eqb ch " " || (("009" <=? ch) && (ch <=? "013"))%char.

Fixpoint trimLeft (s : string) : string :=
  match s with
  | String ch rest => if isSpace ch then trimLeft rest else s
  | EmptyString => s
  end.

Definition trimSpace (s : string) : string :=
  Strings.rev (trimLeft (Strings.rev (trimLeft s))).

Definition lowerChar (ch : ascii) : ascii :=
  if (("A" <=? ch) && (ch <=? "Z"))%char
  then ascii_of_N (N_of_ascii ch + 32) else ch.

Definition upperChar (ch : ascii) : ascii :=
  if (("a" <=? ch) && (ch <=? "z"))%char
  then ascii_of_N (N_of_ascii ch - 32) else ch.

Fixpoint toLower (s : string) : string :=
  match s with
  | EmptyString => EmptyString
  | String ch rest => String (lowerChar ch) (toLower rest)
  end.

Fixpoint canonical (upper : bool) (s : string) : string :=
  match s with
  | EmptyString => EmptyString
  | String ch rest =>
      String (if upper then upperChar ch else lowerChar ch)
        (canonical (Ascii.eqb ch "-") rest)
  end.

(** The value of [key] in the query part of [raw]. *)
Fixpoint upTo (stop : ascii) (s : string) : string :=
  match s with
  | EmptyString => EmptyString
  | String ch rest => if Ascii.eqb ch stop then EmptyString
                      else String ch (upTo stop rest)
  end.

Fixpoint after (marker s : string) : option string :=
  if Strings.HasPrefix s marker then Some (Strings.TrimPrefix s marker)
  else match s with
       | EmptyString => None
       | String _ rest => after marker rest
       end.

Definition queryGet (raw key : string) : option string :=
  match after (key +:+ "=") raw with
  | Some rest => Some (upTo "&" rest)
  | None => Some ""
  end.

(** The upstream answers every call with 200, names ["c1"] as the
    credential it used and hands out the upload token ["tok123"]; the
    manager counts the calls. *)
Definition upstreamAnswer : upstream.Response :=
  {| resp_Metadata :=
       <["selected_auth_id" := AnyString "c1"]>
         (<[cliproxyResponseHeadersKey :=
              AnyHeader
                {[ "X-Goog-Upload-Url" :=
                     ["https://upstream.example/upload/v1beta/files?upload_id=tok123"] ]}]>
            (<[cliproxyResponseStatusKey := AnyInt 200]> ∅));
     resp_Payload := [] |}.

#[global] Instance asciiExternals : Externals :=
  {| TrimSpace := trimSpace;
     ToLower := toLower;
     EqualFold := fun a b => bool_decide (toLower a = toLower b);
     CanonicalHeaderKey := canonical true;
     url_query_get := fun raw key => queryGet raw key;
     QueryEscape := fun v => v;
     ForceAuthIDMetadataKey := "force_auth_id";
     NoRetryMetadataKey := "no_retry";
     SelectedAuthIDMetadataKey := "selected_auth_id";
     Manager := nat;
     Manager_Execute := fun _ _ n => ((upstreamAnswer, None), S n) |}.

Definition t0 : Z := 1700000000000000000.

Definition proxy0 : GeminiUpstreamFileAPIHandler :=
  {| base := true; sessions := None |}.

Definition env0 : Env := {| manager := 0%nat; calls := []; picks := [] |}.

Definition startRequest : upstream.Context :=
  {| Request_Header :=
       {[ "X-Goog-Upload-Protocol" := ["resumable"];
          "X-Goog-Upload-Command" := ["start"];
          "Authorization" := ["Bearer client-key"] ]};
     Request_Query := ∅;
     Request_Body := {| r_data := Bytes.of_string "{}"; r_fail := false |};
     Request_ContentLength := 2;
     Request_TLS := false;
     Request_Host := "proxy.example" |}.

Definition finalizeRequest : upstream.Context :=
  {| Request_Header :=
       {[ "X-Goog-Upload-Protocol" := ["resumable"];
          "X-Goog-Upload-Command" := ["upload, finalize"] ]};
     Request_Query := {[ "upload_id" := ["tok123"] ]};
     Request_Body := {| r_data := Bytes.of_string "hello"; r_fail := false |};
     Request_ContentLength := 5;
     Request_TLS := false;
     Request_Host := "proxy.example" |}.

(** The handler and the manager after the start. *)
Definition started : Written * GeminiUpstreamFileAPIHandler * Env :=
  Eval vm_compute in handleResumableStart startRequest t0 proxy0 env0.

Definition proxy1 : GeminiUpstreamFileAPIHandler := snd (fst started).
Definition env1 : Env := snd started.

End ProxyScenario.

(** The payload of the rewriter's test: one part that references the
    saved ["hello"] by its handle. *)
Module RewriteScenario.
Import filestore JSON rewriter.

Definition helloPayload : json :=
  JObject
    [("contents",
      JArray
        [JObject
           [("role", JString "user");
            ("parts",
             JArray
               [JObject
                  [("file_data",
                    JObject
                      [("file_uri", JString ("files/" +:+ Scenario.helloID));
                       ("mime_type", JString "text/plain")])];
                JObject [("text", JString "describe the file")]])]])].

Definition helloRef : filePartRef :=
  {| contentIndex := 0; partIndex := 0;
     fileURI := "files/" +:+ Scenario.helloID; mimeType := "text/plain" |}.

(** The payload of the test TestRewriteLocalFileParts_IgnoresNonLocalFileID:
    one part that references files/abc123, a handle that is no id of the
    store. *)
Definition upstreamHandlePayload : json :=
  JObject
    [("contents",
      JArray
        [JObject
           [("role", JString "user");
            ("parts",
             JArray
               [JObject
                  [("file_data",
                    JObject [("file_uri", JString "files/abc123");
                             ("mime_type", JString "audio/mpeg")])]])]])].

Definition upstreamHandleRef : filePartRef :=
  {| contentIndex := 0; partIndex := 0;
     fileURI := "files/abc123"; mimeType := "audio/mpeg" |}.

(** A part that names a file elsewhere under the first spelling and the
    saved ["hello"] under the second. *)
Definition twoSpellingsPayload : json :=
  JObject
    [("contents",
      JArray
        [JObject
           [("parts",
             JArray
               [JObject
                  [("file_data",
                    JObject
                      [("file_uri", JString "https://example.com/a.txt")]);
                   ("fileData",
                    JObject
                      [("fileUri",
                        JString ("files/" +:+ Scenario.helloID))])]])]])].

Definition helloPart : json :=
  JObject
    [("file_data",
      JObject [("file_uri", JString ("files/" +:+ Scenario.helloID));
               ("mime_type", JString "text/plain")])].

End RewriteScenario.

(** ** Vocabulary of the further properties *)

Module Served.
Import filestore rewriter Spec RewriteSpec.

(** The record and the bytes a reference stands for, when they are the
    caller's and within the ceiling. *)
Definition servedTo (w : World) (apiKey : string) (r : filePartRef) : Prop :=
  exists data m,
    record w (fileIDOf r) = Some (Sidecar m) /\
    isOwnedByAPIKey (Some m) apiKey = true /\
    filesDir w !! fileIDOf r = Some data /\
    Z.of_nat (length data) <= maxInlineFileBytes /\
    SizeBytes m <= maxInlineFileBytes.

End Served.

(** ** sdk/api/handlers/gemini: the upstream proxy, entry points and errors

    The rest of the proxy: the four entry points, the choice of a
    credential for a one-shot upload, and the rendering of an error.  What
    the Go library and the manager contribute beyond [upstream.Externals]
    is gathered in [Library]. *)

Module proxy.
Import filestore upstream.

Class Library `{Externals} := {
  (** [AuthManager.PickAuth(ctx, "gemini", "", opts)]: the id of the
      credential picked, or the error. *)
  Manager_PickAuth : Options -> Manager -> (string + ProxyError) * Manager;
  (** [http.StatusText]. *)
  StatusText : Z -> string;
  (** [json.Valid(bytes.TrimSpace(body))]. *)
  validJSON : string -> bool
}.

(** What writeProxyError hands to gin: [c.Data] with the error text as it
    is, or [c.JSON] with the error envelope; beside it, the headers of the
    error that are passed to [Header().Add]. *)
Inductive Rendered : Type :=
| RenderedData (status : Z) (contentType body : string) (added : Header)
| RenderedEnvelope (status code : Z) (message googleStatus : string)
    (added : Header).

Section Entries.
Context `{Library}.

Definition shouldSkipProxyResponseHeader (k : string) : bool :=
  if EqualFold k "Content-Length" || EqualFold k "Transfer-Encoding"
     || EqualFold k "Connection"
  then true else false.

(** applyResponseHeaders: the entries of [hdr] that are added to the
    response. *)
Definition applyResponseHeaders (hdr : option Header) : Header :=
  match hdr with
  | None => ∅
  | Some hdr =>
      filter (fun kv => shouldSkipProxyResponseHeader (fst kv) = false) hdr
  end.

Definition proxyErrorStatus (err : option ProxyError) : Z :=
  match err with
  | None => 500
  | Some e =>
      let own := match err_StatusCode e with
                 | Some code => if 0 <? code then Some code else None
                 | None => None
                 end in
      match own with
      | Some code => code
      | None =>
          match err_authCode e with
          | Some ac =>
              if bool_decide (ac = "executor_not_found")
                 || bool_decide (ac = "auth_not_found") then 503
              else if bool_decide (ac = "provider_not_found") then 400
              else 500
          | None => 500
          end
      end
  end.

Definition googleStatusForHTTP (code : Z) : string :=
  if decide (code = 400) then "INVALID_ARGUMENT"
  else if decide (code = 401) then "UNAUTHENTICATED"
  else if decide (code = 403) then "PERMISSION_DENIED"
  else if decide (code = 404) then "NOT_FOUND"
  else if decide (code = 429) then "RESOURCE_EXHAUSTED"
  else if decide (code = 408) then "DEADLINE_EXCEEDED"
  else if decide (code = 504) then "DEADLINE_EXCEEDED"
  else if decide (code = 503) then "UNAVAILABLE"
  else if decide (code = 502) then "UNAVAILABLE"
  else if 500 <=? code then "INTERNAL"
  else "UNKNOWN".

Definition writeProxyError (err : ProxyError) : Rendered :=
  let status := proxyErrorStatus (Some err) in
  let body := TrimSpace (err_text err) in
  let body := if decide (String.length body = 0%nat) then StatusText status
              else body in
  let status := match err_StatusCode err with
                | Some code => if 0 <? code then code else status
                | None => status
                end in
  let added := match err_Headers err with
               | Some hdr => applyResponseHeaders (Some hdr)
               | None => ∅
               end in
  if validJSON body then RenderedData status "application/json" body added
  else RenderedEnvelope status status body (googleStatusForHTTP status) added.

Definition pickAuth (h : GeminiUpstreamFileAPIHandler) (opts : Options)
    (env : Env) : (string + ProxyError) * Env :=
  if negb (base h) then (inr notConfigured, env)
  else
    let '(r, mgr) := Manager_PickAuth opts (manager env) in
    (r, {| manager := mgr; calls := calls env;
           picks := picks env ++ [opts] |}).

Definition handleMultipartUpload (c : Context)
    (h : GeminiUpstreamFileAPIHandler) (env : Env) : Written * Env :=
  let opts := fileOptionsFromRequest c in
  let '(picked, env) := pickAuth h opts env in
  match picked with
  | inr errPick => (WroteProxyError errPick, env)
  | inl authID =>
      let req := uploadRequest c in
      let opts := with_Metadata (pinned authID) opts in
      let '((resp, err), env) := execute h req opts env in
      (writeProxyResponse resp err, env)
  end.

Definition UploadFile (c : Context) (now : Z)
    (h : GeminiUpstreamFileAPIHandler) (env : Env)
  : Written * GeminiUpstreamFileAPIHandler * Env :=
  let protocol := GetHeader c "X-Goog-Upload-Protocol" in
  if EqualFold protocol "resumable" then handleResumableUpload c now h env
  else
    let '(out, env) := handleMultipartUpload c h env in
    (out, h, env).

(** [http.MethodGet] and [http.MethodDelete]. *)
Definition MethodGet : string := "GET".
Definition MethodDelete : string := "DELETE".

(** [fileId] stands for [c.Param("fileId")]. *)
Definition resolveMetadataAction (fileId method : string) : string :=
  if bool_decide (TrimSpace fileId = "") && bool_decide (method = MethodGet)
  then "files.list"
  else if decide (method = MethodDelete) then "files.delete"
  else "files.get".

(** The request proxyFileMetadata builds. *)
Definition metadataRequest (fileId method : string) : Request :=
  let action := resolveMetadataAction fileId method in
  let meta : gmap string any := <[geminiFilesActionKey := AnyString action]> ∅ in
  let meta :=
    if negb (bool_decide (action = "files.list"))
    then <[geminiFilesNameKey := AnyString (TrimSpace fileId)]> meta
    else meta in
  {| req_Metadata := meta; req_Payload := [] |}.

Definition proxyFileMetadata (c : Context) (fileId method : string)
    (h : GeminiUpstreamFileAPIHandler) (env : Env) : Written * Env :=
  let req := metadataRequest fileId method in
  let opts := fileOptionsFromRequest c in
  let '((resp, err), env) := execute h req opts env in
  (writeProxyResponse resp err, env).

Definition GetFile (c : Context) (fileId : string)
    (h : GeminiUpstreamFileAPIHandler) (env : Env) : Written * Env :=
  proxyFileMetadata c fileId MethodGet h env.

Definition ListFiles (c : Context) (fileId : string)
    (h : GeminiUpstreamFileAPIHandler) (env : Env) : Written * Env :=
  proxyFileMetadata c fileId MethodGet h env.

Definition DeleteFile (c : Context) (fileId : string)
    (h : GeminiUpstreamFileAPIHandler) (env : Env) : Written * Env :=
  proxyFileMetadata c fileId MethodDelete h env.

End Entries.

End proxy.

(** Vocabulary for the proxy's further properties. *)
Module ProxySpec.
Import filestore upstream proxy.

Section Forwarding.
Context `{Externals}.

(** A header or a query parameter in which a client presents its own
    credential. *)
Definition credentialHeader (k : string) : Prop :=
  EqualFold k "Authorization" = true \/ EqualFold k "X-Goog-Api-Key" = true.

Definition credentialQuery (k : string) : Prop :=
  EqualFold k "key" = true \/ EqualFold k "auth_token" = true.

(** The one call a start makes to the manager: the body of the request as
    payload, no credential pinned. *)
Definition startCall (c : Context) : Request * Options :=
  ({| req_Metadata := <[geminiFilesActionKey := AnyString "files.upload"]> ∅;
      req_Payload := r_data (Request_Body c) |},
   with_SourceFormat "gemini" (fileOptionsFromRequest c)).

(** The headers of the upstream answer, the upload id they carry and the
    credential the manager reports to have used. *)
Definition answerHeaders (resp : Response) : Header :=
  match snd (unpackProxyMetadata (resp_Metadata resp)) with
  | Some hdr => hdr
  | None => ∅
  end.

Definition upstreamUploadID (resp : Response) : string :=
  extractUploadID (Header_Get (answerHeaders resp) "X-Goog-Upload-URL").

(** The options of a call hold nothing of the client's but headers and
    query parameters of its request that are not credentials. *)
Definition forwardsNoCredential (c : Context) (opts : Options) : Prop :=
  (forall k v, opt_Headers opts !! k = Some v ->
               Request_Header c !! k = Some v /\ ~ credentialHeader k) /\
  (forall k v, opt_Query opts !! k = Some v ->
               Request_Query c !! k = Some v /\ ~ credentialQuery k).

(** What an entry point asks of the manager: at most one [PickAuth] and
    at most one [Execute], and what their options hold of the request is
    no credential of the client. *)
Definition forwardsSafely (c : Context) (before after : Env) : Prop :=
  exists newPicks newCalls,
    picks after = picks before ++ newPicks /\
    calls after = calls before ++ newCalls /\
    (length newPicks <= 1)%nat /\ (length newCalls <= 1)%nat /\
    Forall (forwardsNoCredential c) newPicks /\
    Forall (fun call => forwardsNoCredential c (snd call)) newCalls.

(** The options name [cred] as the credential to use, and switch retries
    off. *)
Definition pinnedTo (cred : string) (opts : Options) : Prop :=
  opt_Metadata opts !! ForceAuthIDMetadataKey = Some (AnyString cred) /\
  opt_Metadata opts !! NoRetryMetadataKey = Some (AnyBool true).

(** The request is an upload of the body of [c], streamed with its
    length. *)
Definition uploadsBodyOf (c : Context) (req : Request) : Prop :=
  req_Metadata req !! geminiFilesActionKey = Some (AnyString "files.upload") /\
  req_Metadata req !! cliproxyBodyReaderKey
  = Some (AnyReader (Request_Body c)) /\
  req_Metadata req !! cliproxyBodyLengthKey
  = Some (AnyInt (Request_ContentLength c)).

(** The request carries the header by which UploadFile tells a call of
    the resumable protocol. *)
Definition saysResumable (c : Context) : Prop :=
  EqualFold (GetHeader c "X-Goog-Upload-Protocol") "resumable" = true.

(** A follow-up of a resumable upload as UploadFile recognises it: the
    protocol header, and a command that is not the start. *)
Definition recognisedFollowUp (c : Context) : Prop :=
  saysResumable c /\
  EqualFold (TrimSpace (GetHeader c "X-Goog-Upload-Command")) "start" = false.

End Forwarding.

End ProxySpec.

(** The library of [proxy], on ASCII text: one credential to pick, and no
    error text that is a JSON document. *)
Module ProxyLibraryScenario.
Import filestore upstream proxy ProxyScenario.

#[global] Instance asciiLibrary : Library :=
  {| Manager_PickAuth := fun _ n => (inl "c1", n);
     StatusText := fun code =>
       if decide (code = 503) then "Service Unavailable" else "";
     validJSON := fun _ => false |}.

Definition unconfigured : GeminiUpstreamFileAPIHandler :=
  {| base := false; sessions := None |}.

(** A pool whose selection picks ["c2"]. *)
Definition pickingC2 : Library :=
  {| Manager_PickAuth := fun _ n => (inl "c2", n);
     StatusText := fun _ => "";
     validJSON := fun _ => false |}.

(** The finalize of the upload bound to ["c1"], sent to the upload URL
    with its command and without the protocol header. *)
Definition bareFinalize : upstream.Context :=
  {| Request_Header := {[ "X-Goog-Upload-Command" := ["upload, finalize"] ]};
     Request_Query := {[ "upload_id" := ["tok123"] ]};
     Request_Body := {| r_data := Bytes.of_string "hello"; r_fail := false |};
     Request_ContentLength := 5;
     Request_TLS := false;
     Request_Host := "proxy.example" |}.

End ProxyLibraryScenario.

(** ** sdk/api/handlers/gemini: the local handlers, entry points

    The handlers of GeminiFileAPIHandler beside the two modelled in
    [gemini]: the upload dispatch, the one-shot upload, the start of a
    resumable upload, and the three calls on a stored file.  The value of
    [c.Param("fileId")] is an argument of the handler; what gin and
    [mime/multipart] make of a request is gathered in [Binding]. *)

Module localapi.
Import filestore gemini.

(** One part of a multipart form: [header.Filename], the Content-Type of
    the part and its content. *)
Record Part := {
  Filename : string;
  part_ContentType : string;
  part_content : Reader
}.

(** A parsed form: the part named "file", if any, and the value of
    "display_name". *)
Record Form := {
  form_file : option Part;
  form_display_name : string
}.

Class Binding := {
  (** [c.ShouldBindJSON(&metadata)]: the text of the error, if any. *)
  ShouldBindJSON : Context -> option string;
  (** [c.Request.ParseMultipartForm] behind [http.MaxBytesReader]: the
      text of the error, or the form. *)
  ParseMultipartForm : Context -> string + Form;
  (** [strings.ToLower]. *)
  ToLower : string -> string
}.

(** What a handler sends: an error envelope, a file resource, a list of
    them, or a bare status with headers. *)
Inductive Answer : Type :=
| AnswerError (code : Z) (message status : string)
| AnswerFile (code : Z) (metadata : FileMetadata)
| AnswerUploaded (code : Z) (metadata : FileMetadata)
| AnswerFiles (code : Z) (files : list FileMetadata)
| AnswerStatus (code : Z) (headers : list (string * string)).

(** Which handler an upload was given to, with what it did. *)
Inductive Upload : Type :=
| Started (a : Answer)
| Finalized (o : Outcome)
| Queried (r : Z * list (string * string))
| OneShot (a : Answer)
| Refused (a : Answer).

(** [filepath.Ext]: the suffix from the last dot of the last element of
    the path, scanned from the end. *)
Fixpoint scanExt (reversed acc : list ascii) : list ascii :=
  match reversed with
  | [] => []
  | ch :: rest =>
      if Ascii.eqb ch "/" then []
      else if Ascii.eqb ch "." then ch :: acc
      else scanExt rest (ch :: acc)
  end.

Definition Ext (path : string) : string :=
  string_of_list_ascii (scanExt (List.rev (list_ascii_of_string path)) []).

Section Handlers.
Context `{Binding}.

(** detectMimeType attempts to detect MIME type from file extension. *)
Definition detectMimeType (filename : string) : string :=
  let ext := ToLower (Ext filename) in
  if bool_decide (ext = ".jpg") || bool_decide (ext = ".jpeg") then "image/jpeg"
  else if bool_decide (ext = ".png") then "image/png"
  else if bool_decide (ext = ".gif") then "image/gif"
  else if bool_decide (ext = ".webp") then "image/webp"
  else if bool_decide (ext = ".mp4") then "video/mp4"
  else if bool_decide (ext = ".mpeg") || bool_decide (ext = ".mpg")
  then "video/mpeg"
  else if bool_decide (ext = ".mov") then "video/quicktime"
  else if bool_decide (ext = ".avi") then "video/x-msvideo"
  else if bool_decide (ext = ".webm") then "video/webm"
  else if bool_decide (ext = ".mp3") then "audio/mpeg"
  else if bool_decide (ext = ".wav") then "audio/wav"
  else if bool_decide (ext = ".aac") then "audio/aac"
  else if bool_decide (ext = ".pdf") then "application/pdf"
  else if bool_decide (ext = ".txt") then "text/plain"
  else if bool_decide (ext = ".html") then "text/html"
  else if bool_decide (ext = ".json") then "application/json"
  else if bool_decide (ext = ".xml") then "application/xml"
  else "application/octet-stream".

(** handleMultipartUpload processes standard multipart file uploads. *)
Definition handleMultipartUpload (c : Context)
    (s : GeminiFileStore) (w : World) : Answer * GeminiFileStore * World :=
  match ParseMultipartForm c with
  | inl err =>
      (AnswerError 400 ("failed to parse multipart form: " +:+ err)
         "INVALID_ARGUMENT", s, w)
  | inr form =>
      match form_file form with
      | None =>
          (AnswerError 400 "missing or invalid 'file' field in multipart form"
             "INVALID_ARGUMENT", s, w)
      | Some header =>
          let displayName := form_display_name form in
          let displayName :=
            if decide (displayName = "") then Filename header
            else displayName in
          let mimeType := part_ContentType header in
          let mimeType :=
            if decide (mimeType = "") then detectMimeType (Filename header)
            else mimeType in
          let apiKey := extractAPIKey c in
          let '(r, s, w) :=
            SaveFile (part_content header) (Filename header) mimeType
              displayName apiKey s w in
          match r with
          | Err _ => (AnswerError 500 "failed to save file" "INTERNAL", s, w)
          | Ok metadata => (AnswerUploaded 200 metadata, s, w)
          end
      end
  end.

(** handleResumableStart initiates a resumable upload session. *)
Definition handleResumableStart (c : Context) (w : World) : Answer * World :=
  match ShouldBindJSON c with
  | Some err =>
      (AnswerError 400 ("invalid metadata: " +:+ err) "INVALID_ARGUMENT", w)
  | None =>
      let '(sessionID, w) := GenerateFileID w in
      let uploadURL := "/upload/v1beta/files?upload_id=" +:+ sessionID in
      (AnswerStatus 200
         [("X-Goog-Upload-URL", uploadURL);
          ("X-Goog-Upload-Status", "active");
          ("X-Goog-Upload-Chunk-Granularity", "262144")], w)
  end.

(** handleResumableUpload processes resumable upload protocol. *)
Definition handleResumableUpload (c : Context)
    (s : GeminiFileStore) (w : World) : Upload * GeminiFileStore * World :=
  let command := GetHeader c "X-Goog-Upload-Command" in
  if decide (command = "start") then
    let '(a, w) := handleResumableStart c w in (Started a, s, w)
  else if decide (command = "upload, finalize") then
    let '(o, s, w) := handleResumableFinalize c s w in (Finalized o, s, w)
  else if decide (command = "query") then
    (Queried (handleResumableQuery c), s, w)
  else
    (Refused (AnswerError 400 ("unsupported resumable command: " +:+ command)
                "INVALID_ARGUMENT"), s, w).

(** UploadFile handles file upload requests (both multipart and
    resumable). *)
Definition UploadFile (c : Context)
    (s : GeminiFileStore) (w : World) : Upload * GeminiFileStore * World :=
  let uploadType := GetHeader c "X-Goog-Upload-Protocol" in
  if decide (uploadType = "resumable") then handleResumableUpload c s w
  else if bool_decide (uploadType = "multipart") || bool_decide (uploadType = "")
  then
    let '(a, s, w) := handleMultipartUpload c s w in (OneShot a, s, w)
  else
    (Refused (AnswerError 400 ("unsupported upload protocol: " +:+ uploadType)
                "INVALID_ARGUMENT"), s, w).

End Handlers.

(** GetFile retrieves file metadata. *)
Definition GetFile (c : Context) (fileId : string) (w : World)
  : Answer * World :=
  if decide (fileId = "") then
    (AnswerError 400 "missing fileId parameter" "INVALID_ARGUMENT", w)
  else
    let fileID := Strings.TrimPrefix fileId "files/" in
    let apiKey := extractAPIKey c in
    let '(r, w) := GetFileForAPIKey fileID apiKey w in
    match r with
    | Err err =>
        if negb (errors_Is err ErrFileNotFound)
        then (AnswerError 500 "failed to get file" "INTERNAL", w)
        else (AnswerError 404 ("file not found: " +:+ fileID) "NOT_FOUND", w)
    | Ok metadata => (AnswerFile 200 metadata, w)
    end.

(** ListFiles lists all available files. *)
Definition ListFiles (c : Context) (w : World) : Answer * World :=
  let apiKey := extractAPIKey c in
  let '(r, w) := ListFilesForAPIKey apiKey w in
  match r with
  | Err _ => (AnswerError 500 "failed to list files" "INTERNAL", w)
  | Ok files => (AnswerFiles 200 files, w)
  end.

(** DeleteFile deletes a file. *)
Definition DeleteFile (c : Context) (fileId : string)
    (s : GeminiFileStore) (w : World) : Answer * GeminiFileStore * World :=
  if decide (fileId = "") then
    (AnswerError 400 "missing fileId parameter" "INVALID_ARGUMENT", s, w)
  else
    let fileID := Strings.TrimPrefix fileId "files/" in
    let apiKey := extractAPIKey c in
    let '(err, s, w) := DeleteFileForAPIKey fileID apiKey s w in
    match err with
    | Some e =>
        if errors_Is e ErrFileNotFound
        then (AnswerError 404 ("file not found: " +:+ fileID) "NOT_FOUND", s, w)
        else (AnswerError 500 "failed to delete file" "INTERNAL", s, w)
    | None => (AnswerStatus 204 [], s, w)
    end.

End localapi.

(** gin and [mime/multipart] on the requests of the scenario: every body
    binds as metadata, and is read as a form whose one part, "file", is
    named by the header X-File-Name and carries the body. *)
Module LocalScenario.
Import filestore gemini localapi Scenario.

#[global] Instance plainBinding : Binding :=
  {| ShouldBindJSON := fun _ => None;
     ParseMultipartForm := fun c =>
       inr {| form_file :=
                Some {| Filename := GetHeader c "X-File-Name";
                        part_ContentType := "";
                        part_content := ctx_body c |};
              form_display_name := "" |};
     ToLower := ProxyScenario.toLower |}.

(** An upload of ["hello"] as a.txt by the caller the middleware knows as
    ["key-a"]. *)
Definition helloUpload : Context :=
  {| ctx_apiKey := Some (Some "key-a");
     ctx_header := [("X-File-Name", "a.txt")];
     ctx_query := [];
     ctx_body := text "hello" |}.

(** A request of the caller ["key-b"], who presents the key in a header. *)
Definition requestOfKeyB : Context :=
  {| ctx_apiKey := None;
     ctx_header := [("X-Goog-Api-Key", "key-b")];
     ctx_query := [];
     ctx_body := text "" |}.

(** A finalize request that presents [uploadID]. *)
Definition finalizeWith (uploadID : string) : Context :=
  {| ctx_apiKey := Some (Some "key-a");
     ctx_header := [("X-Goog-Upload-Protocol", "resumable");
                    ("X-Goog-Upload-Command", "upload, finalize")];
     ctx_query := [("upload_id", uploadID)];
     ctx_body := text "hello" |}.

(** A request for a protocol the handler does not know. *)
Definition oddRequest : Context :=
  {| ctx_apiKey := None;
     ctx_header := [("X-Goog-Upload-Protocol", "raw")];
     ctx_query := [];
     ctx_body := text "hello" |}.

End LocalScenario.

(** ** executor: what the Gemini executor reads of a call

    The executor is the far end of the proxy: it receives the request the
    handlers of [proxy] hand to the manager.  Its constants are its own;
    modelled are the three functions that read the metadata of a call. *)

Module executor.
Import filestore upstream.

Definition geminiFilesActionKey : string := "gemini.files.action".
Definition geminiFilesNameKey : string := "gemini.files.name".
Definition cliproxyBodyReaderKey : string := "_cliproxy_body_reader".

Section Reads.
Context `{Externals}.

Definition geminiFilesAction (meta : gmap string any) : string :=
  if decide (size meta = 0%nat) then ""
  else
    let v := match meta !! geminiFilesActionKey with
             | Some (AnyString v) => v
             | _ => ""
             end in
    TrimSpace v.

(** [bytes.NewReader]. *)
Definition bytes_NewReader (b : list byte) : Reader :=
  {| r_data := b; r_fail := false |}.

Definition geminiFilesBody (req : Request) : Reader :=
  match req_Metadata req !! cliproxyBodyReaderKey with
  | Some (AnyReader r) => r
  | _ => bytes_NewReader (req_Payload req)
  end.

Definition normalizeGeminiFileName (meta : gmap string any) : string :=
  if decide (size meta = 0%nat) then "files/"
  else
    let name := match meta !! geminiFilesNameKey with
                | Some (AnyString v) => v
                | _ => ""
                end in
    let name := TrimSpace name in
    let name := Strings.TrimPrefix name "/" in
    if Strings.HasPrefix name "files/" then name
    else if decide (name = "") then "files/"
    else "files/" +:+ name.

End Reads.

End executor.

#[global] Arguments Sha256.Sum256 : simpl never.
#[global] Arguments Hex.EncodeToString : simpl never.
#[global] Arguments Fmt.decimal : simpl never.
#[global] Arguments filestore.hashAPIKey : simpl never.
#[global] Arguments wrap64 : simpl never.

(** * Properties *)

(** ** Digests, hexadecimal text and identifiers *)

Section Identifiers.
Import filestore.

(** The digest agrees with the published test vectors. *)
Example sha256_abc :
  Hex.EncodeToString (Sha256.Sum256 (Bytes.of_string "abc")) =
  "ba7816bf8f01cfea414140de5dae2223b00361a396177a9cb410ff61f20015ad".
Proof. vm_compute. reflexivity. Qed.

Example sha256_empty :
  Hex.EncodeToString (Sha256.Sum256 []) =
  "e3b0c44298fc1c149afbf4c8996fb92427ae41e4649b934ca495991b7852b855".
Proof. vm_compute. reflexivity. Qed.

Example sha256_two_blocks :
  Hex.EncodeToString (Sha256.Sum256 (Bytes.of_string
    "abcdbcdecdefdefgefghfghighijhijkijkljklmklmnlmnomnopnopq")) =
  "248d6a61d20638b8e5c026930c3e6039a33ce45964ff2167f6ecedd419db06c1".
Proof. vm_compute. reflexivity. Qed.

Example decimal_examples :
  Fmt.decimal 0 = "0" /\ Fmt.decimal 1700000000000000000 = "1700000000000000000"
  /\ Fmt.decimal (-42) = "-42".
Proof. vm_compute. repeat split. Qed.

Lemma be_bytes_length n v : length (Sha256.be_bytes n v) = n.
Proof. unfold Sha256.be_bytes. by rewrite length_map, length_seq. Qed.

Lemma Sum256_length data : length (Sha256.Sum256 data) = 32%nat.
Proof.
  unfold Sha256.Sum256, Sha256.output, Sha256.word_bytes.
  repeat rewrite ?length_app, ?length_map, ?be_bytes_length. reflexivity.
Qed.

Lemma hex_cons b src :
  Hex.EncodeToString (b :: src) =
  String (Hex.digit (Bytes.to_Z b / 16))
    (String (Hex.digit (Bytes.to_Z b mod 16)) (Hex.EncodeToString src)).
Proof. reflexivity. Qed.

Lemma hex_length src :
  String.length (Hex.EncodeToString src) = (2 * length src)%nat.
Proof. induction src as [|b src IH]; simpl; [done|]. rewrite IH. lia. Qed.

Lemma to_Z_range b : 0 <= Bytes.to_Z b < 256.
Proof.
  unfold Bytes.to_Z. pose proof (Byte.to_N_bounded b) as H.
  lia.
Qed.

Lemma digits_valid :
  forallb (fun i => validFileIDChars (String (Hex.digit (Z.of_nat i)) ""))
    (seq 0 16) = true.
Proof. reflexivity. Qed.

Lemma validFileIDChars_head c rest :
  validFileIDChars (String c "") = true ->
  validFileIDChars (String c rest) = validFileIDChars rest.
Proof.
  cbn [validFileIDChars]. by destruct (negb _ && negb _ && negb _)%bool.
Qed.

Lemma digit_valid n rest :
  0 <= n < 16 ->
  validFileIDChars (String (Hex.digit n) rest) = validFileIDChars rest.
Proof.
  intros Hn. apply validFileIDChars_head.
  pose proof digits_valid as Hall. rewrite forallb_forall in Hall.
  specialize (Hall (Z.to_nat n)). rewrite Z2Nat.id in Hall by lia.
  apply Hall, in_seq. lia.
Qed.

Lemma hex_valid_chars src : validFileIDChars (Hex.EncodeToString src) = true.
Proof.
  induction src as [|b src IH]; [reflexivity|].
  pose proof (to_Z_range b) as Hb.
  rewrite hex_cons.
  rewrite digit_valid by (split; [apply Z.div_pos; lia | apply Z.div_lt_upper_bound; lia]).
  rewrite digit_valid by (apply Z.mod_pos_bound; lia).
  exact IH.
Qed.

Lemma hex_of_16_bytes_valid src :
  length src = 16%nat -> isValidFileID (Hex.EncodeToString src) = true.
Proof.
  intros Hlen. unfold isValidFileID.
  rewrite hex_length, Hlen. cbn [Nat.mul Nat.add Nat.eqb negb].
  apply hex_valid_chars.
Qed.

Lemma time_Now_clock_only w :
  filesDir (snd (time_Now w)) = filesDir w /\
  metadataDir (snd (time_Now w)) = metadataDir w /\
  faults (snd (time_Now w)) = faults w /\
  trace (snd (time_Now w)) = trace w.
Proof. auto. Qed.

(** Every identifier GenerateFileID hands out passes isValidFileID. *)
Lemma GenerateFileID_valid w : isValidFileID (fst (GenerateFileID w)) = true.
Proof.
  unfold GenerateFileID. destruct (time_Now w) as [t w'] eqn:E.
  cbn [fst]. apply hex_of_16_bytes_valid.
  rewrite length_firstn, Sum256_length. reflexivity.
Qed.

Lemma hashAPIKey_length apiKey :
  apiKey <> "" -> String.length (hashAPIKey apiKey) = 16%nat.
Proof.
  intros Hne. unfold hashAPIKey. destruct (decide (apiKey = "")); [done|].
  rewrite hex_length, length_firstn, Sum256_length. reflexivity.
Qed.

Lemma hashAPIKey_empty_iff apiKey : hashAPIKey apiKey = "" <-> apiKey = "".
Proof.
  split.
  - intros H. destruct (decide (apiKey = "")) as [|Hne]; [done|].
    apply hashAPIKey_length in Hne. rewrite H in Hne. discriminate.
  - intros ->. reflexivity.
Qed.

End Identifiers.

(** ** The file store: reading records *)

Section Reads.
Import filestore Spec.

Lemma enter_fst c w : fst (enter c w) = hd false (faults w).
Proof. reflexivity. Qed.

Lemma enter_dirs c w :
  filesDir (snd (enter c w)) = filesDir w /\
  metadataDir (snd (enter c w)) = metadataDir w /\
  clock (snd (enter c w)) = clock w /\
  wall (snd (enter c w)) = wall w /\
  faults (snd (enter c w)) = tl (faults w) /\
  trace (snd (enter c w)) = trace w ++ [c].
Proof. auto 10. Qed.

Lemma nextNow_enter c w : nextNow (snd (enter c w)) = nextNow w.
Proof.
  reflexivity.
Qed.

(** loadMetadata, case by case. *)
Lemma loadMetadata_unfold fileID w :
  loadMetadata fileID w =
  if negb (isValidFileID fileID) then (Err ErrFileNotFound, w)
  else
    let w' := snd (enter (SysReadFile (fileID +:+ MetadataFileExtension)) w) in
    if hd false (faults w)
    then (Err (ErrWrap "failed to read metadata" (ErrSyscall "read")), w')
    else match record w fileID with
         | None => (Err ErrFileNotFound, w')
         | Some Garbled =>
             (Err (ErrWrap "failed to unmarshal metadata" ErrUnmarshal), w')
         | Some (Sidecar m) => (Ok m, w')
         end.
Proof.
  unfold loadMetadata, os_ReadFile, record.
  destruct (isValidFileID fileID); [|reflexivity]. cbn [negb].
  pose proof (enter_fst (SysReadFile (fileID +:+ MetadataFileExtension)) w) as Hf.
  pose proof (enter_dirs (SysReadFile (fileID +:+ MetadataFileExtension)) w)
    as (_ & Hm & _).
  destruct (enter _ w) as [bad w'] eqn:E. cbn [fst snd] in *. subst bad.
  destruct (hd false (faults w)); [reflexivity|].
  rewrite Hm. destruct (metadataDir w !! _) as [[m|]|]; reflexivity.
Qed.

Lemma loadMetadata_dirs fileID w :
  filesDir (snd (loadMetadata fileID w)) = filesDir w /\
  metadataDir (snd (loadMetadata fileID w)) = metadataDir w /\
  nextNow (snd (loadMetadata fileID w)) = nextNow w.
Proof.
  rewrite loadMetadata_unfold.
  pose proof (enter_dirs (SysReadFile (fileID +:+ MetadataFileExtension)) w)
    as (Hf & Hm & _).
  pose proof (nextNow_enter (SysReadFile (fileID +:+ MetadataFileExtension)) w).
  destruct (negb _); [auto|]. cbn zeta.
  destruct (hd false (faults w)); [auto|].
  destruct (record w fileID) as [[m|]|]; auto.
Qed.

End Reads.

(** ** Identifier validation (C2) *)

Section Validation.
Import filestore Spec.

Lemma validFileIDChars_cons c rest :
  validFileIDChars (String c rest) =
  ((("0" <=? c) && (c <=? "9") || ("a" <=? c) && (c <=? "f")
    || ("A" <=? c) && (c <=? "F"))%char && validFileIDChars rest).
Proof.
  cbn [validFileIDChars].
  destruct (("0" <=? c) && (c <=? "9"))%char,
           (("a" <=? c) && (c <=? "f"))%char,
           (("A" <=? c) && (c <=? "F"))%char; reflexivity.
Qed.

(** The loop of isValidFileID accepts exactly the strings of hexadecimal
    characters. *)
Lemma validFileIDChars_spec fileID :
  validFileIDChars fileID = true <->
  forall c, In c (list_ascii_of_string fileID) -> hexChar c.
Proof.
  induction fileID as [|a rest IH].
  - split; [intros _ c []|reflexivity].
  - rewrite validFileIDChars_cons, andb_true_iff, IH.
    cbn [list_ascii_of_string In]. unfold hexChar. split.
    + intros [Ha Hrest] c [<-|Hc]; auto.
    + intros H. split; [apply H; auto|]. intros c Hc. apply H. auto.
Qed.

(** isValidFileID holds exactly of the 32-character hexadecimal strings. *)
Lemma isValidFileID_spec fileID :
  isValidFileID fileID = true <-> ~ malformedFileID fileID.
Proof.
  unfold isValidFileID, malformedFileID.
  destruct (Nat.eqb_spec (String.length fileID) 32) as [Hlen|Hlen];
    cbn [negb].
  - rewrite validFileIDChars_spec. split.
    + intros Hall [Hne|(c & Hc & Hbad)]; [done|]. apply Hbad, Hall, Hc.
    + intros Hno c Hc. unfold hexChar.
      destruct ((_ || _ || _)%bool) eqn:E; [done|].
      exfalso. apply Hno. right. exists c. split; [done|].
      unfold hexChar. rewrite E. discriminate.
  - split; [discriminate|]. intros H. exfalso. apply H. by left.
Qed.

Lemma malformed_rejected fileID :
  malformedFileID fileID -> isValidFileID fileID = false.
Proof.
  intros Hbad. destruct (isValidFileID fileID) eqn:E; [|done].
  apply isValidFileID_spec in E. done.
Qed.

(** C2.  An id that is not exactly 32 hexadecimal characters is answered
    with ErrFileNotFound by every operation that turns an id into a path:
    the metadata load (behind GetFile, GetFileForAPIKey and the listings),
    GetFileContent and its owner-scoped and bounded-read variants, and the
    three deletions.  The world comes back as it was given, trace of system
    calls included: no file system access has been attempted. *)
Theorem invalid_id_is_not_found fileID apiKey maxBytes s w :
  malformedFileID fileID ->
  loadMetadata fileID w = (Err ErrFileNotFound, w) /\
  GetFile fileID w = (Err ErrFileNotFound, w) /\
  GetFileForAPIKey fileID apiKey w = (Err ErrFileNotFound, w) /\
  GetFileContent fileID w = (Err ErrFileNotFound, w) /\
  GetFileContentForAPIKey fileID apiKey w = (Err ErrFileNotFound, w) /\
  ReadFileBytesForAPIKey fileID apiKey maxBytes w = (Err ErrFileNotFound, w) /\
  deleteFileUnsafe fileID s w = (Some ErrFileNotFound, s, w) /\
  DeleteFile fileID s w = (Some ErrFileNotFound, s, w) /\
  DeleteFileForAPIKey fileID apiKey s w = (Some ErrFileNotFound, s, w) /\
  trace (snd (loadMetadata fileID w)) = trace w /\
  trace (snd (GetFileContent fileID w)) = trace w /\
  trace (snd (deleteFileUnsafe fileID s w)) = trace w.
Proof.
  intros Hbad. apply malformed_rejected in Hbad.
  assert (loadMetadata fileID w = (Err ErrFileNotFound, w)) as Hload.
  { unfold loadMetadata. by rewrite Hbad. }
  assert (GetFileForAPIKey fileID apiKey w = (Err ErrFileNotFound, w)) as Hget.
  { unfold GetFileForAPIKey, GetFile. by rewrite Hload. }
  assert (GetFileContent fileID w = (Err ErrFileNotFound, w)) as Hcontent.
  { unfold GetFileContent. by rewrite Hbad. }
  assert (GetFileContentForAPIKey fileID apiKey w = (Err ErrFileNotFound, w))
    as Hcontent'.
  { unfold GetFileContentForAPIKey. by rewrite Hget. }
  assert (deleteFileUnsafe fileID s w = (Some ErrFileNotFound, s, w)) as Hdel.
  { unfold deleteFileUnsafe. by rewrite Hbad. }
  repeat split; try done.
  - unfold ReadFileBytesForAPIKey. by rewrite Hcontent'.
  - unfold DeleteFileForAPIKey. by rewrite Hget.
  - by rewrite Hload.
  - by rewrite Hcontent.
  - by rewrite Hdel.
Qed.

(** The two path-escaping ids of the test suite are malformed. *)
Lemma dotdot_malformed : malformedFileID "..".
Proof. left. discriminate. Qed.

Lemma encoded_backslashes_malformed : malformedFileID "%5c..%5c..%5csecret".
Proof. left. discriminate. Qed.

Lemma invalid_id_is_not_found_witness :
  malformedFileID ".." /\
  GetFileForAPIKey ".." "key-a" Scenario.helloWorld
    = (Err ErrFileNotFound, Scenario.helloWorld) /\
  DeleteFileForAPIKey "%5c..%5c..%5csecret" "key-a"
      Scenario.helloStore Scenario.helloWorld
    = (Some ErrFileNotFound, Scenario.helloStore, Scenario.helloWorld).
Proof.
  split; [exact dotdot_malformed|]. split.
  - exact (proj1 (proj2 (proj2
      (invalid_id_is_not_found ".." "key-a" 0 Scenario.helloStore
         Scenario.helloWorld dotdot_malformed)))).
  - exact (proj1 (proj2 (proj2 (proj2 (proj2 (proj2 (proj2 (proj2
      (invalid_id_is_not_found "%5c..%5c..%5csecret" "key-a" 0
         Scenario.helloStore Scenario.helloWorld
         encoded_backslashes_malformed))))))))).
Defined.

End Validation.

(** ** Ownership and expiry on the owner-scoped paths (C1) *)

Section Ownership.
Import filestore Spec.

(** The code's ownership test is the specification's. *)
Lemma isOwnedByAPIKey_spec m apiKey :
  isOwnedByAPIKey (Some m) apiKey = false <-> ownerHashDiffers m apiKey.
Proof.
  unfold isOwnedByAPIKey, ownerHashDiffers.
  destruct (decide (APIKey m = "")); rewrite bool_decide_eq_false; done.
Qed.

(** A record saved under [owner] is another caller's as soon as the two
    owner hashes differ. *)
Lemma ownerHashDiffers_of_saved m owner apiKey :
  APIKey m = hashAPIKey owner ->
  hashAPIKey apiKey <> hashAPIKey owner ->
  ownerHashDiffers m apiKey.
Proof.
  intros Hm Hne. unfold ownerHashDiffers. destruct (decide (APIKey m = "")) as [E|E].
  - intros ->. apply Hne. rewrite <- Hm, E. reflexivity.
  - rewrite Hm. congruence.
Qed.

(** The empty key and a non-empty key never share an owner hash. *)
Lemma hashAPIKey_empty_vs_nonempty owner apiKey :
  (owner = "" /\ apiKey <> "") \/ (owner <> "" /\ apiKey = "") ->
  hashAPIKey apiKey <> hashAPIKey owner.
Proof.
  intros [[-> Hne]|[Hne ->]] Heq.
  - apply Hne, hashAPIKey_empty_iff. rewrite Heq. reflexivity.
  - apply Hne, hashAPIKey_empty_iff. rewrite <- Heq. reflexivity.
Qed.

Lemma time_Now_dirs w :
  filesDir (snd (time_Now w)) = filesDir w /\
  metadataDir (snd (time_Now w)) = metadataDir w.
Proof. auto. Qed.

Lemma GetFileForAPIKey_dirs fileID apiKey w :
  filesDir (snd (GetFileForAPIKey fileID apiKey w)) = filesDir w /\
  metadataDir (snd (GetFileForAPIKey fileID apiKey w)) = metadataDir w.
Proof.
  unfold GetFileForAPIKey, GetFile.
  pose proof (loadMetadata_dirs fileID w) as (Hf & Hm & _).
  destruct (loadMetadata fileID w) as [[m|e] w1]; cbn [snd] in *.
  - destruct (negb _); [auto|].
    pose proof (time_Now_dirs w1) as [Hf' Hm'].
    destruct (time_Now w1) as [now w2]; cbn [snd] in *.
    destruct (isExpired _ _); cbn [snd]; split; congruence.
  - destruct (errors_Is e ErrFileNotFound); auto.
Qed.

(** What GetFileForAPIKey answers for a hidden record. *)
Lemma GetFileForAPIKey_hidden fileID apiKey w :
  Hidden fileID apiKey w ->
  fst (GetFileForAPIKey fileID apiKey w) = Err ErrFileNotFound \/
  (hd false (faults w) = true /\
   fst (GetFileForAPIKey fileID apiKey w)
     = Err (ErrWrap "failed to read metadata" (ErrSyscall "read"))).
Proof.
  intros Hhid. unfold GetFileForAPIKey, GetFile.
  pose proof (loadMetadata_dirs fileID w) as (_ & _ & Hnow).
  rewrite loadMetadata_unfold in *.
  destruct (negb (isValidFileID fileID)); [by left|]. cbn zeta in *.
  destruct (hd false (faults w)); [by right|]. left.
  destruct Hhid as [Hnone | m Hsome Hother | m Hsome Hexp].
  - rewrite Hnone. reflexivity.
  - rewrite Hsome. apply isOwnedByAPIKey_spec in Hother.
    rewrite Hother. reflexivity.
  - rewrite Hsome in *. cbn [snd] in Hnow.
    destruct (negb (isOwnedByAPIKey (Some m) apiKey)); [reflexivity|].
    unfold nextNow in *.
    destruct (time_Now (snd (enter _ w))) as [now w2]. cbn [fst] in Hnow.
    subst now. cbn [isExpired].
    destruct (Z.ltb_spec (ExpiresAt m) (fst (time_Now w))); [reflexivity|lia].
Qed.

Lemma hidden_record_is_not_found_aux fileID apiKey m w :
  record w fileID = Some (Sidecar m) ->
  ExpiresAt m < nextNow w ->
  nextCallGoesThrough w ->
  fst (GetFileForAPIKey fileID apiKey w) = Err ErrFileNotFound.
Proof.
  intros Hrec Hexp Hgo.
  destruct (GetFileForAPIKey_hidden fileID apiKey w) as [H|[Hbad _]];
    [by eapply hidden_expired|done|].
  unfold nextCallGoesThrough in Hgo. congruence.
Qed.

(** C1, as the code has it.  A record is hidden from a caller when it does
    not exist, when its stored owner hash is not the hash of the presented
    key (an empty stored hash matching the empty key only), or when it has
    expired.  For a hidden record GetFileForAPIKey and DeleteFileForAPIKey
    never succeed and leave the counter and both directories untouched;
    and once the read of the sidecar goes through, both answer with the
    one sentinel ErrFileNotFound, whichever of the three situations
    holds.  Ownership is decided on the hash alone: a key other than the
    one the record was saved under is served when the two hash alike, see
    [same_hash_other_key_is_served]. *)
Theorem hidden_record_is_not_found fileID apiKey s w :
  Hidden fileID apiKey w ->
  (forall m, fst (GetFileForAPIKey fileID apiKey w) <> Ok m) /\
  fst (fst (DeleteFileForAPIKey fileID apiKey s w)) <> None /\
  snd (fst (DeleteFileForAPIKey fileID apiKey s w)) = s /\
  filesDir (snd (DeleteFileForAPIKey fileID apiKey s w)) = filesDir w /\
  metadataDir (snd (DeleteFileForAPIKey fileID apiKey s w)) = metadataDir w /\
  (nextCallGoesThrough w ->
   fst (GetFileForAPIKey fileID apiKey w) = Err ErrFileNotFound /\
   fst (fst (DeleteFileForAPIKey fileID apiKey s w)) = Some ErrFileNotFound).
Proof.
  intros Hhid.
  pose proof (GetFileForAPIKey_hidden fileID apiKey w Hhid) as Hget.
  pose proof (GetFileForAPIKey_dirs fileID apiKey w) as [Hf Hm].
  unfold DeleteFileForAPIKey.
  destruct (GetFileForAPIKey fileID apiKey w) as [[m|e] w1]; cbn [fst snd] in *.
  { destruct Hget as [?|[_ ?]]; discriminate. }
  repeat split; try done.
  - unfold nextCallGoesThrough in H.
    destruct Hget as [?|[Hbad _]]; [done|congruence].
  - unfold nextCallGoesThrough in H.
    destruct Hget as [Hget|[Hbad _]]; [congruence|congruence].
Qed.

End Ownership.

(** ** Expiry on the read paths (C3) *)

Section Expiry.
Import filestore Spec.

Lemma ListFiles_loop_unexpired now entries : forall files w,
  Forall (unexpiredAt now) files ->
  Forall (unexpiredAt now) (fst (ListFiles_loop now entries files w)).
Proof.
  induction entries as [|name rest IH]; intros files w Hfiles; [done|].
  cbn [ListFiles_loop].
  destruct (negb (Strings.HasSuffix name MetadataFileExtension)); [by apply IH|].
  destruct (loadMetadata _ w) as [[m|e] w1]; [|by apply IH].
  destruct (isExpired (Some m) now) eqn:E; [by apply IH|].
  apply IH. apply Forall_app. split; [done|]. by constructor.
Qed.

Lemma ListFiles_loop_dirs now entries : forall files w,
  filesDir (snd (ListFiles_loop now entries files w)) = filesDir w /\
  metadataDir (snd (ListFiles_loop now entries files w)) = metadataDir w.
Proof.
  induction entries as [|name rest IH]; intros files w; [done|].
  cbn [ListFiles_loop].
  destruct (negb (Strings.HasSuffix name MetadataFileExtension)); [by apply IH|].
  pose proof (loadMetadata_dirs (Strings.TrimSuffix name MetadataFileExtension) w)
    as (Hf & Hm & _).
  destruct (loadMetadata _ w) as [[m|e] w1]; cbn [snd] in *.
  - destruct (isExpired (Some m) now);
      destruct (IH files w1), (IH (files ++ [m]) w1); split; congruence.
  - destruct (IH files w1); split; congruence.
Qed.

(** ListFiles only fails when reading the directory fails, and lists no
    record that has expired at the time it reads the clock. *)
Lemma ListFiles_unexpired w :
  match fst (ListFiles w) with
  | Ok files => Forall (fun m => ~ ExpiresAt m < nextNow w) files
  | Err _ => hd false (faults w) = true
  end.
Proof.
  unfold ListFiles, os_ReadDir.
  pose proof (enter_fst (SysReadDir MetadataDir) w) as Hbad.
  pose proof (nextNow_enter (SysReadDir MetadataDir) w) as Hnow.
  destruct (enter _ w) as [bad w1]; cbn [fst snd] in *. subst bad.
  destruct (hd false (faults w)); [reflexivity|].
  unfold nextNow in Hnow. destruct (time_Now w1) as [now w2].
  cbn [fst] in Hnow. subst now.
  pose proof (ListFiles_loop_unexpired (fst (time_Now w))
                (sorted_names (metadataDir w1)) [] w2 ltac:(constructor)) as Hall.
  destruct (ListFiles_loop _ _ _ _) as [files w3]. cbn [fst] in *.
  eapply Forall_impl; [exact Hall|]. intros m Hm. unfold unexpiredAt in Hm.
  cbn [isExpired] in Hm. unfold nextNow. apply Z.ltb_ge in Hm. lia.
Qed.

Lemma ListFiles_dirs w :
  filesDir (snd (ListFiles w)) = filesDir w /\
  metadataDir (snd (ListFiles w)) = metadataDir w.
Proof.
  unfold ListFiles, os_ReadDir.
  pose proof (enter_dirs (SysReadDir MetadataDir) w) as (Hf & Hm & _).
  destruct (enter _ w) as [bad w1]; cbn [snd] in *.
  destruct bad; [done|].
  pose proof (time_Now_dirs w1) as [Hf' Hm'].
  destruct (time_Now w1) as [now w2]; cbn [snd] in *.
  pose proof (ListFiles_loop_dirs now (sorted_names (metadataDir w1)) [] w2)
    as [Hf'' Hm''].
  destruct (ListFiles_loop _ _ _ _) as [files w3]. cbn [snd] in *.
  split; congruence.
Qed.

(** C3, as the code has it.  For a record whose expiresAt lies in the past:
    ListFiles does not list it, the owner-scoped GetFileForAPIKey and
    GetFileContent answer ErrFileNotFound, and the two directories are left
    as they were; the plain GetFile, which only loads the sidecar, still
    returns the record. *)
Theorem expired_record_on_read_paths fileID apiKey m w :
  record w fileID = Some (Sidecar m) ->
  ExpiresAt m < nextNow w ->
  match fst (ListFiles w) with
  | Ok files => ~ In m files
  | Err _ => hd false (faults w) = true
  end /\
  filesDir (snd (ListFiles w)) = filesDir w /\
  metadataDir (snd (ListFiles w)) = metadataDir w /\
  (nextCallGoesThrough w ->
   fst (GetFileForAPIKey fileID apiKey w) = Err ErrFileNotFound /\
   fst (GetFileContent fileID w) = Err ErrFileNotFound /\
   (isValidFileID fileID = true -> fst (GetFile fileID w) = Ok m)).
Proof.
  intros Hrec Hexp.
  pose proof (ListFiles_unexpired w) as Hlist.
  pose proof (ListFiles_dirs w) as [Hf Hm].
  split; [|split; [done|split; [done|]]].
  - destruct (fst (ListFiles w)) as [files|e]; [|done].
    intros Hin. rewrite Forall_forall in Hlist.
    apply (Hlist m); [by apply list_elem_of_In|done].
  - intros Hgo. split; [|split].
    + eapply hidden_record_is_not_found_aux; eauto.
    + unfold GetFileContent.
      destruct (isValidFileID fileID) eqn:Hvalid; [|reflexivity]. cbn [negb].
      pose proof (loadMetadata_dirs fileID w) as (_ & _ & Hnow).
      rewrite loadMetadata_unfold in *. rewrite Hvalid in *. cbn [negb] in *.
      cbn zeta in *. rewrite Hgo, Hrec in *. cbn [snd] in Hnow.
      unfold nextNow in *. destruct (time_Now (snd (enter _ w))) as [now w2].
      cbn [fst] in Hnow. subst now.
      destruct (Z.ltb_spec (ExpiresAt m) (fst (time_Now w))); [reflexivity|lia].
    + intros Hvalid. unfold GetFile. rewrite loadMetadata_unfold, Hvalid.
      cbn [negb]. cbn zeta. rewrite Hgo, Hrec. reflexivity.
Qed.

End Expiry.

(** ** The scenario of the test suite: "hello" saved under "key-a" *)

Section HelloScenario.
Import filestore Spec Scenario.

Example savedHello_ok :
  savedHello = (Ok helloRecord, helloStore, helloWorld) /\
  FileID helloRecord = helloID /\
  record helloWorld helloID = Some (Sidecar helloRecord) /\
  filesDir helloWorld !! helloID = Some (Bytes.of_string "hello").
Proof. vm_compute. auto. Qed.

Lemma hello_hidden_from_key_b : Hidden helloID "key-b" helloWorld.
Proof.
  apply (hidden_other_hash _ _ _ helloRecord); [by vm_compute|].
  vm_compute. discriminate.
Qed.

Lemma hello_expired :
  record expiredWorld helloID = Some (Sidecar helloRecord) /\
  ExpiresAt helloRecord < nextNow expiredWorld.
Proof. split; [by vm_compute|]. vm_compute. reflexivity. Qed.

Lemma hidden_record_is_not_found_witness :
  Hidden helloID "key-b" helloWorld /\
  nextCallGoesThrough helloWorld /\
  fst (GetFileForAPIKey helloID "key-b" helloWorld) = Err ErrFileNotFound /\
  fst (fst (DeleteFileForAPIKey helloID "key-b" helloStore helloWorld))
    = Some ErrFileNotFound.
Proof.
  split; [exact hello_hidden_from_key_b|].
  split; [reflexivity|].
  exact (proj2 (proj2 (proj2 (proj2 (proj2
    (hidden_record_is_not_found helloID "key-b" helloStore helloWorld
       hello_hidden_from_key_b))))) eq_refl).
Defined.

(** The two keys of the scenario are not the same key and have the same
    owner hash.  A file saved under the first is returned to the second by
    GetFileForAPIKey, listed for it, and deleted by its
    DeleteFileForAPIKey. *)
Lemma same_hash_other_key_is_served :
  twinKey1 <> twinKey2 /\
  hashAPIKey twinKey1 = "4ac07fd1b7c97efc" /\
  hashAPIKey twinKey2 = "4ac07fd1b7c97efc" /\
  SaveFile (text "hello") "a.txt" "text/plain" "a.txt" twinKey1
    freshStore emptyWorld = (Ok twinRecord, twinStore, twinWorld) /\
  FileID twinRecord = helloID /\
  fst (GetFileForAPIKey helloID twinKey2 twinWorld) = Ok twinRecord /\
  fst (ListFilesForAPIKey twinKey2 twinWorld) = Ok [twinRecord] /\
  fst (fst (DeleteFileForAPIKey helloID twinKey2 twinStore twinWorld)) = None /\
  filesDir (snd (DeleteFileForAPIKey helloID twinKey2 twinStore twinWorld))
    !! helloID = None /\
  record (snd (DeleteFileForAPIKey helloID twinKey2 twinStore twinWorld))
    helloID = None.
Proof.
  split; [discriminate|]. vm_compute. repeat split; reflexivity.
Qed.

(** Foreign owner hash, unknown id and expired record: one and the same
    answer. *)
Example three_ways_not_found :
  fst (GetFileForAPIKey helloID "key-b" helloWorld) = Err ErrFileNotFound /\
  fst (GetFileForAPIKey "00000000000000000000000000000000" "key-a" helloWorld)
    = Err ErrFileNotFound /\
  fst (GetFileForAPIKey helloID "key-a" expiredWorld) = Err ErrFileNotFound /\
  fst (GetFileForAPIKey helloID "key-a" helloWorld) = Ok helloRecord.
Proof. vm_compute. auto. Qed.

(** The plain GetFile returns a record whose expiresAt is in the past. *)
Lemma GetFile_returns_expired_record :
  record expiredWorld helloID = Some (Sidecar helloRecord) /\
  ExpiresAt helloRecord < nextNow expiredWorld /\
  fst (GetFile helloID expiredWorld) = Ok helloRecord /\
  fst (GetFile helloID expiredWorld) <> Err ErrFileNotFound.
Proof.
  split; [by vm_compute|]. split; [by vm_compute|].
  assert (fst (GetFile helloID expiredWorld) = Ok helloRecord) as E
    by (vm_compute; reflexivity).
  split; [exact E|]. rewrite E. discriminate.
Qed.

Lemma expired_record_on_read_paths_witness :
  record expiredWorld helloID = Some (Sidecar helloRecord) /\
  ExpiresAt helloRecord < nextNow expiredWorld /\
  nextCallGoesThrough expiredWorld /\
  fst (GetFileForAPIKey helloID "key-a" expiredWorld) = Err ErrFileNotFound /\
  fst (GetFileContent helloID expiredWorld) = Err ErrFileNotFound.
Proof.
  split; [exact (proj1 hello_expired)|].
  split; [exact (proj2 hello_expired)|].
  split; [reflexivity|].
  pose proof (proj2 (proj2 (proj2
    (expired_record_on_read_paths helloID "key-a" helloRecord expiredWorld
       (proj1 hello_expired) (proj2 hello_expired)))) eq_refl) as H.
  exact (conj (proj1 H) (proj1 (proj2 H))).
Defined.

End HelloScenario.

(** ** Saving (C4, C8, C9) *)

Section Saving.
Import filestore Spec.

Local Opaque Sha256.Sum256 Hex.EncodeToString Fmt.decimal.

Ltac go :=
  cbn -[Z.mul Z.add Z.sub Z.pow Z.ltb Z.leb wrap64 hour quotaMessage].

(** One step of symbolic execution: decide the next branching point. *)
Ltac step :=
  match goal with
  | |- context [if hd false ?l then _ else _] =>
      let F := fresh "F" in destruct (hd false l) eqn:F; go
  | |- context [if r_fail ?c then _ else _] =>
      let F := fresh "R" in destruct (r_fail c) eqn:F; go
  | |- context [if (?a && ?b)%bool then _ else _] =>
      let F := fresh "Q" in destruct (a && b)%bool eqn:F; go
  | |- context [match ?m !! ?k with _ => _ end] =>
      let F := fresh "L" in destruct (m !! k) eqn:F; go
  end.

Ltac run_SaveFile :=
  unfold SaveFile, generateFileID, GenerateFileID, SaveFile_written,
    saveMetadata, os_Create, io_Copy, os_Rename, os_WriteFile, os_Remove,
    time_Now, enter, record;
  go; repeat step.

Lemma wrap64_id z : int64 z -> wrap64 z = z.
Proof.
  unfold int64, wrap64. intros H.
  rewrite Z.mod_small by lia. lia.
Qed.

(** What a successful SaveFile returns and leaves behind. *)
Lemma SaveFile_ok content name mimeType displayName apiKey s w m s1 w1 :
  SaveFile content name mimeType displayName apiKey s w = (Ok m, s1, w1) ->
  FileID m = fst (GenerateFileID w) /\
  SizeBytes m = Z.of_nat (length (r_data content)) /\
  SHA256Hash m = Hex.EncodeToString (Sha256.Sum256 (r_data content)) /\
  APIKey m = hashAPIKey apiKey /\
  record w1 (FileID m) = Some (Sidecar m).
Proof.
  run_SaveFile.
  all: intros H; try discriminate H.
  all: injection H as <- <- <-; go.
  all: repeat split; apply lookup_insert_eq.
Qed.

(** SaveFile does return a record when no system call fails, the content
    stream ends properly and the quota is not in the way. *)
Lemma SaveFile_succeeds content name mimeType displayName apiKey s w :
  faults w = [] -> r_fail content = false -> maxTotalSizeMB s <= 0 ->
  exists m s1 w1,
    SaveFile content name mimeType displayName apiKey s w = (Ok m, s1, w1).
Proof.
  intros Hf Hr Hq.
  assert ((0 <? maxTotalSizeMB s) = false) as Hq' by (apply Z.ltb_ge; lia).
  unfold SaveFile, generateFileID, GenerateFileID, SaveFile_written,
    saveMetadata, os_Create, io_Copy, os_Rename, os_WriteFile, os_Remove,
    time_Now, enter.
  rewrite Hf, Hr, Hq'. go. rewrite lookup_insert_eq. go.
  case_match; eauto.
Qed.

Lemma owner_owns m apiKey :
  APIKey m = hashAPIKey apiKey -> isOwnedByAPIKey (Some m) apiKey = true.
Proof.
  intros Hm. unfold isOwnedByAPIKey.
  destruct (decide (APIKey m = "")) as [E|E]; apply bool_decide_eq_true.
  - apply hashAPIKey_empty_iff. congruence.
  - done.
Qed.


(** C4, as the code has it.  Under a positive quota, a write that would
    take the running total over the ceiling makes SaveFile fail; the error
    is not ErrFileTooLarge, nor does it wrap it: it is the quota message, or
    the failure of an earlier system call.  The counter and the sidecars are
    untouched, and so is every content file but the temporary one. *)
Theorem SaveFile_over_quota content name mimeType displayName apiKey s w :
  0 < maxTotalSizeMB s ->
  int64 (currentTotalSize s + Z.of_nat (length (r_data content))) ->
  maxTotalSizeMB s * (1024 * 1024)
    < currentTotalSize s + Z.of_nat (length (r_data content)) ->
  exists e w',
    SaveFile content name mimeType displayName apiKey s w = (Err e, s, w') /\
    errors_Is e ErrFileTooLarge = false /\
    metadataDir w' = metadataDir w /\
    (forall n, n <> fst (GenerateFileID w) +:+ ".tmp" ->
               filesDir w' !! n = filesDir w !! n) /\
    (faults w = [] -> r_fail content = false ->
     e = ErrMsg (quotaMessage s)).
Proof.
  intros Hpos Hsum Hover.
  assert ((0 <? maxTotalSizeMB s)
          && (wrap64 (wrap64 (maxTotalSizeMB s * 1024) * 1024)
              <? wrap64 (currentTotalSize s
                         + Z.of_nat (length (r_data content)))) = true) as Hq.
  { unfold int64 in Hsum.
    rewrite (wrap64_id (maxTotalSizeMB s * 1024)) by (unfold int64; lia).
    rewrite (wrap64_id (maxTotalSizeMB s * 1024 * 1024)) by (unfold int64; lia).
    rewrite (wrap64_id _ Hsum).
    apply andb_true_iff. split; [apply Z.ltb_lt; lia|apply Z.ltb_lt; lia]. }
  unfold SaveFile, generateFileID, GenerateFileID, SaveFile_written,
    saveMetadata, os_Create, io_Copy, os_Rename, os_WriteFile, os_Remove,
    time_Now, enter.
  go. repeat first [rewrite Hq; go | step].
  all: eexists _, _; split; [reflexivity|].
  all: split; [reflexivity|]; split; [reflexivity|]; split.
  all: try (intros n Hn; go;
            repeat first [rewrite lookup_delete_ne by done
                         |rewrite lookup_insert_ne by done]; reflexivity).
  all: intros Hf Hr; rewrite ?Hf in *; try discriminate; try reflexivity.
  all: congruence.
Qed.

(** *** Bytes on disk: how [usage] follows insertions and deletions *)

Lemma usage_insert files k (data : list byte) :
  files !! k = None ->
  usage (<[k := data]> files) = usage files + Z.of_nat (length data).
Proof.
  intros Hk. unfold usage. rewrite map_fold_insert_L; [done| |done].
  intros. lia.
Qed.

Lemma usage_delete files k (data : list byte) :
  files !! k = Some data ->
  usage (delete k files) = usage files - Z.of_nat (length data).
Proof.
  intros Hk. unfold usage.
  rewrite (map_fold_delete_L _ _ k data files); [lia| |done].
  intros. lia.
Qed.

Lemma usage_nonneg files : 0 <= usage files.
Proof.
  induction files as [|k data files Hk _ IH] using map_first_key_ind.
  - unfold usage. by rewrite map_fold_empty.
  - rewrite usage_insert by done. lia.
Qed.

Lemma append_length a b :
  String.length (a +:+ b) = (String.length a + String.length b)%nat.
Proof. induction a as [|c a IH]; simpl; [done|]. by rewrite IH. Qed.

Lemma temp_name_differs fileID : fileID <> fileID +:+ ".tmp".
Proof.
  intros E. apply (f_equal String.length) in E.
  rewrite append_length in E. cbn in E. lia.
Qed.

End Saving.

(** ** Saving, on concrete inputs *)

Section SavingScenarios.
Import filestore Spec Scenario.


(** The quota failure is reported by a plain message, not by
    ErrFileTooLarge. *)
Lemma quota_error_is_not_ErrFileTooLarge :
  0 < maxTotalSizeMB nearlyFullStore /\
  maxTotalSizeMB nearlyFullStore * (1024 * 1024)
    < currentTotalSize nearlyFullStore
      + Z.of_nat (length (r_data (text "hello"))) /\
  fst (fst (SaveFile (text "hello") "a.txt" "text/plain" "a.txt" "key-a"
              nearlyFullStore emptyWorld))
    = Err (ErrMsg "storage quota exceeded: current 0 MB, limit 1 MB") /\
  fst (fst (SaveFile (text "hello") "a.txt" "text/plain" "a.txt" "key-a"
              nearlyFullStore emptyWorld))
    <> Err ErrFileTooLarge.
Proof.
  split; [by vm_compute|]. split; [by vm_compute|].
  assert (fst (fst (SaveFile (text "hello") "a.txt" "text/plain" "a.txt"
                      "key-a" nearlyFullStore emptyWorld))
          = Err (ErrMsg "storage quota exceeded: current 0 MB, limit 1 MB"))
    as E by (vm_compute; reflexivity).
  split; [exact E|]. rewrite E. discriminate.
Qed.

Lemma SaveFile_over_quota_witness :
  0 < maxTotalSizeMB nearlyFullStore /\
  int64 (currentTotalSize nearlyFullStore
         + Z.of_nat (length (r_data (text "hello")))) /\
  maxTotalSizeMB nearlyFullStore * (1024 * 1024)
    < currentTotalSize nearlyFullStore
      + Z.of_nat (length (r_data (text "hello"))) /\
  exists e w',
    SaveFile (text "hello") "a.txt" "text/plain" "a.txt" "key-a"
      nearlyFullStore emptyWorld = (Err e, nearlyFullStore, w') /\
    errors_Is e ErrFileTooLarge = false.
Proof.
  assert (0 < maxTotalSizeMB nearlyFullStore) as H1 by (by vm_compute).
  assert (int64 (currentTotalSize nearlyFullStore
                 + Z.of_nat (length (r_data (text "hello"))))) as H2
    by (vm_compute; split; [discriminate|reflexivity]).
  assert (maxTotalSizeMB nearlyFullStore * (1024 * 1024)
          < currentTotalSize nearlyFullStore
            + Z.of_nat (length (r_data (text "hello")))) as H3
    by (by vm_compute).
  split; [exact H1|]. split; [exact H2|]. split; [exact H3|].
  destruct (SaveFile_over_quota (text "hello") "a.txt" "text/plain" "a.txt"
              "key-a" nearlyFullStore emptyWorld H1 H2 H3)
    as (e & w' & Hsave & Hnot & _).
  exists e, w'. split; [exact Hsave|exact Hnot].
Defined.

(** The identifier is a function of the clock reading alone. *)
Lemma GenerateFileID_same_reading w w' :
  nextNow w = nextNow w' ->
  fst (GenerateFileID w) = fst (GenerateFileID w').
Proof.
  unfold nextNow, GenerateFileID, time_Now. cbn [fst]. by intros ->.
Qed.

(** C9, on the code.  Two uploads that read the same nanosecond off the
    clock are given the same identifier: each passes isValidFileID, but the
    second upload takes the place of the first, content and sidecar. *)
Theorem SaveFile_reuses_id_on_same_reading :
  exists m1 m2,
    SaveFile (text "hello") "a.txt" "text/plain" "a.txt" "key-a"
      freshStore emptyWorld = (Ok m1, helloStore, helloWorld) /\
    SaveFile (text "world!") "b.txt" "text/plain" "b.txt" "key-b"
      helloStore helloWorld = savedWorld /\
    fst (fst savedWorld) = Ok m2 /\
    isValidFileID (FileID m1) = true /\
    isValidFileID (FileID m2) = true /\
    FileID m1 = FileID m2 /\
    filesDir helloWorld !! FileID m1 = Some (Bytes.of_string "hello") /\
    filesDir (snd savedWorld) !! FileID m1 = Some (Bytes.of_string "world!") /\
    record (snd savedWorld) (FileID m1) = Some (Sidecar m2).
Proof.
  eexists _, _. vm_compute. repeat split; reflexivity.
Qed.

(** C5, on the code.  The counter equals the bytes on disk for the empty
    store and after a first upload.  It no longer does after a second
    upload that is given the same identifier (the counter adds the new
    size, the content file is replaced), nor after a deletion whose
    [os.Remove] fails once [os.Stat] has gone through (the counter is
    lowered, the file stays). *)
Theorem size_invariant_is_broken :
  sizeInvariant freshStore emptyWorld /\
  sizeInvariant helloStore helloWorld /\
  currentTotalSize (snd (fst savedWorld)) = 11 /\
  diskUsage (snd savedWorld) = 6 /\
  ~ sizeInvariant (snd (fst savedWorld)) (snd savedWorld) /\
  DeleteFile helloID helloStore (setFaults [false; true] helloWorld)
    = failedDelete /\
  fst (fst failedDelete)
    = Some (ErrWrap "failed to remove file" (ErrSyscall "remove")) /\
  currentTotalSize (snd (fst failedDelete)) = 0 /\
  diskUsage (snd failedDelete) = 5 /\
  ~ sizeInvariant (snd (fst failedDelete)) (snd failedDelete).
Proof.
  unfold sizeInvariant. vm_compute. repeat split; try reflexivity.
  all: discriminate.
Qed.

End SavingScenarios.

(** ** The local resumable finalize handler (C10) *)

Section LocalFinalize.
Import filestore gemini.

Lemma slice_to_spec s n :
  match slice_to s n with
  | Some _ => (n <= String.length s)%nat
  | None => (String.length s < n)%nat
  end.
Proof. unfold slice_to. destruct (Nat.leb_spec n (String.length s)); lia. Qed.

(** C10, on the code.  handleResumableFinalize writes a response exactly
    when upload_id is empty or has at least 8 characters; for an upload_id
    of 1 to 7 characters the slice [uploadID[:8]] is out of range and the
    handler panics, before the store is touched. *)
Theorem handleResumableFinalize_panics_on_short_upload_id c s w :
  match handleResumableFinalize c s w with
  | (Panicked _, s', w') =>
      (0 < String.length (Query c "upload_id") < 8)%nat /\ s' = s /\ w' = w
  | (Responded _, _, _) =>
      Query c "upload_id" = "" \/ (8 <= String.length (Query c "upload_id"))%nat
  end.
Proof.
  unfold handleResumableFinalize.
  destruct (decide (Query c "upload_id" = "")) as [E|E]; [by left|].
  pose proof (slice_to_spec (Query c "upload_id") 8) as Hs.
  destruct (slice_to (Query c "upload_id") 8) as [prefix|].
  - destruct (SaveFile _ _ _ _ _ s w) as [[[m|e] s'] w']; by right.
  - split; [|done]. split; [|done].
    destruct (Query c "upload_id"); [done|]. cbn [String.length]. lia.
Qed.

Example finalize_with_upload_id_abc :
  handleResumableFinalize Scenario.shortFinalize
    Scenario.freshStore Scenario.emptyWorld
  = (Panicked "slice bounds out of range",
     Scenario.freshStore, Scenario.emptyWorld).
Proof. reflexivity. Qed.

End LocalFinalize.

(** ** Resumable sessions of the upstream proxy *)

Section ProxySessions.
Import upstream SessionSpec.
Context `{Externals}.

Lemma sessionAuthID_no_live h tok now :
  NoLiveSession h (TrimSpace tok) now ->
  exists h', sessionAuthID tok now h = (("", false), h').
Proof.
  intros Hno. unfold sessionAuthID.
  destruct (decide (TrimSpace tok = "")) as [E|E]; [by eexists|].
  destruct (sessions h) as [m|] eqn:Hm; [|by eexists].
  destruct (m !! TrimSpace tok) as [s|] eqn:Hs; [|by eexists].
  destruct (decide (authID s = "")) as [Ha|Ha]; [by eexists|].
  destruct (Z.ltb_spec (expiresAt s) now); [by eexists|].
  exfalso.
  destruct Hno as [?|Hs'|s' Hs' ?|s' Hs' ?]; [done|..];
    unfold session in Hs'; rewrite Hm, Hs in Hs'; simplify_eq; lia.
Qed.

Lemma sessionAuthID_live h tok now cred :
  LiveSession h (TrimSpace tok) now cred ->
  sessionAuthID tok now h = ((cred, true), h).
Proof.
  intros (Htok & Hcred & s & Hs & Ha & Hlive). unfold sessionAuthID.
  destruct (decide (TrimSpace tok = "")) as [E|E]; [done|].
  unfold session in Hs. destruct (sessions h) as [m|]; [|done].
  rewrite Hs. subst cred.
  destruct (decide (authID s = "")); [done|].
  destruct (Z.ltb_spec (expiresAt s) now); [lia|done].
Qed.

(** Without a live session a follow-up is answered 400 and the manager is
    not called. *)
Lemma follow_up_without_session c cmd now h env :
  NoLiveSession h (token c) now ->
  exists h',
    handleResumableFollowUp c cmd now h env = (missingOrExpired, h', env).
Proof.
  intros Hno. unfold handleResumableFollowUp.
  destruct (sessionAuthID_no_live h (TrimSpace (Query c "upload_id")) now Hno)
    as (h' & ->).
  by exists h'.
Qed.

Lemma dropSession_forgets h tok :
  TrimSpace tok <> "" -> is_Some (session h (TrimSpace tok)) ->
  session (dropSession tok h) (TrimSpace tok) = None.
Proof.
  intros Htok [s Hs]. unfold dropSession, session in *.
  destruct (decide (TrimSpace tok = "")); [done|].
  destruct (sessions h) as [m|]; [|done]. cbn. apply lookup_delete_eq.
Qed.

(** What handleResumableFollowUp does with the session of a follow-up.
    A follow-up whose upload_id is absent, unknown or past its TTL is
    answered 400 "missing or expired upload_id" (INVALID_ARGUMENT) and
    makes no call to the manager.  A follow-up with a live session makes
    at most one call, which carries the client body pinned to the
    credential bound to the session, retries off; it makes exactly that
    call when the handler has a manager.  When the command is a finalize
    and the call reports no error, the session is gone afterwards: any
    later follow-up carrying the same token is answered 400 without a
    call. *)
Theorem follow_up_uses_bound_credential c cmd now h env :
  (NoLiveSession h (token c) now ->
   exists h',
     handleResumableFollowUp c cmd now h env = (missingOrExpired, h', env))
  /\
  (forall cred, LiveSession h (token c) now cred ->
   exists out h' env',
     handleResumableFollowUp c cmd now h env = (out, h', env') /\
     calls env' = calls env ++ (if base h then [pinnedCall c cred] else []) /\
     (base h = true ->
      Strings.Contains (ToLower cmd) "finalize" = true ->
      snd (fst (Manager_Execute (fst (pinnedCall c cred))
                  (snd (pinnedCall c cred)) (manager env))) = None ->
      session h' (token c) = None /\
      forall c' cmd' now' env'', token c' = token c ->
        exists h'',
          handleResumableFollowUp c' cmd' now' h' env''
          = (missingOrExpired, h'', env''))).
Proof.
  split; [apply follow_up_without_session|].
  intros cred Hlive.
  pose proof Hlive as (Htok & Hcred & s & Hs & _).
  unfold handleResumableFollowUp.
  rewrite (sessionAuthID_live h (TrimSpace (Query c "upload_id")) now cred Hlive).
  cbn [negb]. unfold execute, pinnedCall. cbn [fst snd].
  destruct (base h) eqn:Hbase; cbn [negb].
  - destruct (Manager_Execute _ _ (manager env)) as [[resp err] mgr] eqn:Hex.
    eexists _, _, _. split; [reflexivity|]. split; [reflexivity|].
    intros _ Hfin Herr. cbn [fst snd] in Herr. subst err.
    rewrite Hfin. cbn [andb]. rewrite bool_decide_eq_true_2 by done.
    assert (session (dropSession (TrimSpace (Query c "upload_id")) h) (token c)
            = None) as Hgone.
    { apply dropSession_forgets; [done|]. by exists s. }
    split; [exact Hgone|].
    intros c' cmd' now' env'' Htok'.
    apply follow_up_without_session. rewrite Htok'. by apply token_unknown.
  - eexists _, _, _. split; [reflexivity|].
    split; [by rewrite app_nil_r|]. done.
Qed.

End ProxySessions.

Section ProxyScenarioFacts.
Import upstream SessionSpec ProxyScenario.

(** The start bound the upstream token to the credential the manager
    reported, for two hours. *)
Example start_binds_c1 :
  handleResumableStart startRequest t0 proxy0 env0 = started /\
  session proxy1 "tok123"
    = Some {| authID := "c1"; expiresAt := t0 + twoHours |} /\
  token finalizeRequest = "tok123".
Proof. vm_compute. auto. Qed.

Lemma finalize_token_is_live :
  LiveSession proxy1 (token finalizeRequest) (t0 + 1) "c1".
Proof.
  split; [vm_compute; discriminate|]. split; [discriminate|].
  exists {| authID := "c1"; expiresAt := t0 + twoHours |}.
  split; [by vm_compute|]. split; [reflexivity|]. vm_compute. discriminate.
Qed.

Lemma follow_up_uses_bound_credential_witness :
  LiveSession proxy1 (token finalizeRequest) (t0 + 1) "c1" /\
  exists out h' env',
    handleResumableFollowUp finalizeRequest "upload, finalize" (t0 + 1)
      proxy1 env1 = (out, h', env') /\
    calls env' = calls env1 ++ [pinnedCall finalizeRequest "c1"] /\
    session h' (token finalizeRequest) = None /\
    exists h'',
      handleResumableFollowUp finalizeRequest "upload, finalize" (t0 + 2)
        h' env' = (missingOrExpired, h'', env').
Proof.
  split; [exact finalize_token_is_live|].
  destruct (proj2 (follow_up_uses_bound_credential finalizeRequest
                     "upload, finalize" (t0 + 1) proxy1 env1)
              "c1" finalize_token_is_live)
    as (out & h' & env' & Hrun & Hcalls & Hfin).
  destruct (Hfin eq_refl eq_refl eq_refl) as [Hgone Hreuse].
  exists out, h', env'. split; [exact Hrun|]. split; [exact Hcalls|].
  split; [exact Hgone|].
  exact (Hreuse finalizeRequest "upload, finalize" (t0 + 2) env' eq_refl).
Defined.

(** The same scenario, run: the finalize reaches the manager pinned to
    ["c1"]; the token is then of no use. *)
Example finalize_then_reuse :
  let '(out, h', env') :=
    handleResumableFollowUp finalizeRequest "upload, finalize" (t0 + 1)
      proxy1 env1 in
  opt_Metadata (snd (List.last (calls env') (pinnedCall finalizeRequest "")))
    = pinned "c1" /\
  length (calls env') = 2%nat /\
  fst (fst (handleResumableFollowUp finalizeRequest "upload, finalize"
              (t0 + 2) h' env')) = missingOrExpired /\
  calls (snd (handleResumableFollowUp finalizeRequest "upload, finalize"
                (t0 + 2) h' env')) = calls env'.
Proof. vm_compute. auto. Qed.

(** Three hours after the start the session has lapsed. *)
Example follow_up_after_ttl :
  fst (fst (handleResumableFollowUp finalizeRequest "upload, finalize"
              (t0 + 3 * filestore.hour) proxy1 env1)) = missingOrExpired /\
  calls (snd (handleResumableFollowUp finalizeRequest "upload, finalize"
                (t0 + 3 * filestore.hour) proxy1 env1)) = calls env1.
Proof. vm_compute. auto. Qed.

End ProxyScenarioFacts.

(** ** Base64 *)

Section Base64Facts.

Lemma of_to_Z b : Bytes.of_Z (Bytes.to_Z b) = b.
Proof.
  unfold Bytes.of_Z. pose proof (to_Z_range b) as Hb.
  rewrite Z.mod_small by lia. unfold Bytes.to_Z.
  rewrite N2Z.id, Byte.of_to_N. reflexivity.
Qed.

Lemma sextets_decode :
  forallb (fun i => bool_decide (Base64.dec (Base64.enc (Z.of_nat i))
                                 = Some (Z.of_nat i))
                    && negb (Ascii.eqb (Base64.enc (Z.of_nat i)) "="))
    (seq 0 64) = true.
Proof. vm_compute. reflexivity. Qed.

Lemma dec_enc n :
  0 <= n < 64 ->
  Base64.dec (Base64.enc n) = Some n /\ Ascii.eqb (Base64.enc n) "=" = false.
Proof.
  intros Hn. pose proof sextets_decode as Hall.
  rewrite forallb_forall in Hall. specialize (Hall (Z.to_nat n)).
  rewrite Z2Nat.id in Hall by lia.
  destruct (andb_prop _ _ (Hall ltac:(apply in_seq; lia))) as [Hd He].
  split; [by apply bool_decide_eq_true in Hd|by apply negb_true_iff in He].
Qed.

Lemma list_ind3 {A} (P : list A -> Prop) :
  P [] -> (forall a, P [a]) -> (forall a b, P [a; b]) ->
  (forall a b c l, P l -> P (a :: b :: c :: l)) ->
  forall l, P l.
Proof.
  intros H0 H1 H2 H3.
  refine (fix F l := match l with
                     | [] => H0
                     | [a] => H1 a
                     | [a; b] => H2 a b
                     | a :: b :: c :: l' => H3 a b c l' (F l')
                     end).
Qed.

(** Decoding what was encoded gives the bytes back. *)
Lemma base64_round_trip data :
  Base64.DecodeString (Base64.EncodeToString data) = Some data.
Proof.
  induction data as [|a|a b|a b c rest IH] using list_ind3.
  - reflexivity.
  - pose proof (to_Z_range a) as Ha.
    cbn [Base64.EncodeToString Base64.DecodeString].
    assert (0 <= Bytes.to_Z a / 4 < 64) as H1
      by (Z.div_mod_to_equations; lia).
    assert (0 <= Bytes.to_Z a mod 4 * 16 < 64) as H2
      by (Z.div_mod_to_equations; lia).
    rewrite (proj1 (dec_enc _ H1)), (proj1 (dec_enc _ H2)).
    cbn. replace (_ / 4 * 4 + _ / 16) with (Bytes.to_Z a)
      by (Z.div_mod_to_equations; lia).
    by rewrite of_to_Z.
  - pose proof (to_Z_range a) as Ha. pose proof (to_Z_range b) as Hb.
    cbn [Base64.EncodeToString Base64.DecodeString].
    assert (0 <= Bytes.to_Z a / 4 < 64) as H1
      by (Z.div_mod_to_equations; lia).
    assert (0 <= Bytes.to_Z a mod 4 * 16 + Bytes.to_Z b / 16 < 64) as H2
      by (Z.div_mod_to_equations; lia).
    assert (0 <= Bytes.to_Z b mod 16 * 4 < 64) as H3
      by (Z.div_mod_to_equations; lia).
    rewrite (proj1 (dec_enc _ H1)), (proj1 (dec_enc _ H2)),
      (proj1 (dec_enc _ H3)), (proj2 (dec_enc _ H3)).
    cbn.
    replace (_ / 4 * 4 + _ / 16) with (Bytes.to_Z a)
      by (Z.div_mod_to_equations; lia).
    replace (_ mod 16 * 16 + _ / 4) with (Bytes.to_Z b)
      by (Z.div_mod_to_equations; lia).
    by rewrite !of_to_Z.
  - pose proof (to_Z_range a) as Ha. pose proof (to_Z_range b) as Hb.
    pose proof (to_Z_range c) as Hc.
    cbn [Base64.EncodeToString Base64.DecodeString].
    assert (0 <= Bytes.to_Z a / 4 < 64) as H1
      by (Z.div_mod_to_equations; lia).
    assert (0 <= Bytes.to_Z a mod 4 * 16 + Bytes.to_Z b / 16 < 64) as H2
      by (Z.div_mod_to_equations; lia).
    assert (0 <= Bytes.to_Z b mod 16 * 4 + Bytes.to_Z c / 64 < 64) as H3
      by (Z.div_mod_to_equations; lia).
    assert (0 <= Bytes.to_Z c mod 64 < 64) as H4
      by (Z.div_mod_to_equations; lia).
    rewrite (proj1 (dec_enc _ H1)), (proj1 (dec_enc _ H2)),
      (proj1 (dec_enc _ H3)), (proj1 (dec_enc _ H4)), (proj2 (dec_enc _ H4)).
    cbn [andb]. rewrite IH.
    replace (_ / 4 * 4 + _ / 16) with (Bytes.to_Z a)
      by (Z.div_mod_to_equations; lia).
    replace (_ mod 16 * 16 + _ / 4) with (Bytes.to_Z b)
      by (Z.div_mod_to_equations; lia).
    replace (_ mod 4 * 64 + _) with (Bytes.to_Z c)
      by (Z.div_mod_to_equations; lia).
    by rewrite !of_to_Z.
Qed.

End Base64Facts.

(** ** Paths in a JSON document *)

Section JSONFacts.
Import JSON RewriteSpec.

Lemma member_replace_same k v ms :
  is_Some (member k ms) -> member k (replace_member k v ms) = Some v.
Proof.
  induction ms as [|[k' v'] ms IH]; cbn; intros [x Hx]; [done|].
  destruct (decide (k' = k)) as [->|Hne]; cbn.
  - by rewrite decide_True.
  - rewrite decide_False by done. apply IH. eauto.
Qed.

Lemma member_replace_other k k' v ms :
  k <> k' -> member k' (replace_member k v ms) = member k' ms.
Proof.
  intros Hne. induction ms as [|[k0 v0] ms IH]; cbn; [done|].
  destruct (decide (k0 = k)) as [->|Hk]; cbn.
  - by rewrite !decide_False.
  - destruct (decide (k0 = k')); [done|apply IH].
Qed.

Lemma replace_member_id k x ms :
  member k ms = Some x -> replace_member k x ms = ms.
Proof.
  induction ms as [|[k' v'] ms IH]; cbn; [done|].
  destruct (decide (k' = k)) as [->|Hne]; [by intros [= ->]|].
  intros Hx. by rewrite IH.
Qed.

Lemma replace_member_twice k a b ms :
  replace_member k b (replace_member k a ms) = replace_member k b ms.
Proof.
  induction ms as [|[k' v'] ms IH]; cbn; [done|].
  destruct (decide (k' = k)) as [->|Hne]; cbn.
  - by rewrite decide_True.
  - rewrite decide_False by done. by rewrite IH.
Qed.

Lemma member_app k ms ms' :
  member k (ms ++ ms') =
  match member k ms with
  | Some v => Some v
  | None => member k ms'
  end.
Proof.
  induction ms as [|[k' v'] ms IH]; cbn; [done|].
  destruct (decide (k' = k)); [done|apply IH].
Qed.

Lemma member_remove_other k k' ms :
  k <> k' -> member k' (remove_member k ms) = member k' ms.
Proof.
  intros Hne. induction ms as [|[k0 v0] ms IH]; cbn; [done|].
  destruct (decide (k0 = k)) as [->|Hk]; cbn.
  - by rewrite decide_False.
  - destruct (decide (k0 = k')); [done|apply IH].
Qed.

Lemma occurrences_cons k k' v ms :
  occurrences k ((k', v) :: ms) =
  ((if decide (k' = k) then 1 else 0) + occurrences k ms)%nat.
Proof.
  unfold occurrences. cbn. destruct (decide (k' = k)).
  - by rewrite bool_decide_eq_true_2.
  - by rewrite bool_decide_eq_false_2.
Qed.

Lemma member_None_occurrences k ms :
  occurrences k ms = 0%nat -> member k ms = None.
Proof.
  induction ms as [|[k' v'] ms IH]; [done|].
  rewrite occurrences_cons. cbn. destruct (decide (k' = k)); [lia|].
  intros. apply IH. lia.
Qed.

Lemma member_remove_same k ms :
  (occurrences k ms <= 1)%nat -> member k (remove_member k ms) = None.
Proof.
  induction ms as [|[k' v'] ms IH]; [done|].
  rewrite occurrences_cons. cbn. destruct (decide (k' = k)) as [->|Hne].
  - intros. apply member_None_occurrences. lia.
  - intros. cbn. rewrite decide_False by done. apply IH. lia.
Qed.

Lemma occurrences_replace k k' v ms :
  occurrences k' (replace_member k v ms) = occurrences k' ms.
Proof.
  induction ms as [|[k0 v0] ms IH]; [done|]. cbn [replace_member].
  destruct (decide (k0 = k)); rewrite !occurrences_cons; [done|].
  by rewrite IH.
Qed.

Lemma occurrences_app k ms ms' :
  occurrences k (ms ++ ms') = (occurrences k ms + occurrences k ms')%nat.
Proof. unfold occurrences. by rewrite List.filter_app, length_app. Qed.

Lemma occurrences_remove_other k k' ms :
  k <> k' -> occurrences k' (remove_member k ms) = occurrences k' ms.
Proof.
  intros Hne. induction ms as [|[k0 v0] ms IH]; [done|]. cbn [remove_member].
  destruct (decide (k0 = k)) as [->|Hk]; rewrite !occurrences_cons.
  - by rewrite decide_False.
  - by rewrite IH.
Qed.

(** *** Children *)

Lemma child_replace_same j st c :
  is_Some (child j st) -> child (replace_child j st c) st = Some c.
Proof.
  destruct j as [| | | |es|ms], st as [k|n]; cbn; intros Hs;
    try (by destruct Hs).
  - apply list_lookup_insert_eq. by apply lookup_lt_is_Some.
  - by apply member_replace_same.
  - by apply member_replace_same.
Qed.

Lemma replace_child_id j st c :
  child j st = Some c -> replace_child j st c = j.
Proof.
  destruct j as [| | | |es|ms], st as [k|n]; cbn; intros Hc; try done.
  - by rewrite list_insert_id.
  - by rewrite replace_member_id.
  - by rewrite replace_member_id.
Qed.

Lemma replace_child_twice j st a b :
  replace_child (replace_child j st a) st b = replace_child j st b.
Proof.
  destruct j as [| | | |es|ms], st as [k|n]; cbn; try done.
  - by rewrite list_insert_insert_eq.
  - by rewrite replace_member_twice.
  - by rewrite replace_member_twice.
Qed.

(** *** Replacing the node at a path *)

Lemma put_id path : forall j x, Get j path = Some x -> put path x j = j.
Proof.
  induction path as [|st rest IH]; cbn; intros j x Hx; [by injection Hx|].
  destruct (child j st) as [c|] eqn:Hc; [|done].
  rewrite (IH c x Hx). by apply replace_child_id.
Qed.

Lemma Get_put path : forall j x x',
  Get j path = Some x -> Get (put path x' j) path = Some x'.
Proof.
  induction path as [|st rest IH]; cbn; intros j x x' Hx; [done|].
  destruct (child j st) as [c|] eqn:Hc; [|done].
  rewrite child_replace_same by (by rewrite Hc). by apply (IH c x).
Qed.

Lemma put_put path : forall j x a b,
  Get j path = Some x -> put path b (put path a j) = put path b j.
Proof.
  induction path as [|st rest IH]; cbn; intros j x a b Hx; [done|].
  destruct (child j st) as [c|] eqn:Hc; [|done].
  rewrite child_replace_same by (by rewrite Hc).
  rewrite replace_child_twice. by rewrite (IH c x).
Qed.

(** Setting below an existing node is setting inside that node. *)
Lemma set_app path suffix v : forall j x,
  Get j path = Some x ->
  set (path ++ suffix) v j
  = (fun x' => put path x' j) <$> set suffix v x.
Proof.
  induction path as [|st rest IH]; intros j x Hx.
  - injection Hx as ->. cbn. by destruct (set suffix v x).
  - cbn in Hx. cbn [app set put]. destruct (child j st) as [c|] eqn:Hc; [|done].
    rewrite (IH c x Hx). by destruct (set suffix v x).
Qed.

Lemma del_app path suffix : forall j x,
  suffix <> [] ->
  Get j path = Some x ->
  del (path ++ suffix) j = (fun x' => put path x' j) <$> del suffix x.
Proof.
  induction path as [|st rest IH]; intros j x Hne Hx.
  - injection Hx as ->. cbn. by destruct (del suffix x).
  - cbn in Hx. cbn [app put]. destruct (child j st) as [c|] eqn:Hc; [|done].
    assert (del (st :: rest ++ suffix) j
            = match del (rest ++ suffix) c with
              | Some c' => Some (replace_child j st c')
              | None => None
              end) as ->.
    { cbn [del]. rewrite Hc. destruct (rest ++ suffix) eqn:E; [|done].
      by destruct rest, suffix. }
    rewrite (IH c x Hne Hx). by destruct (del suffix x).
Qed.

Lemma SetBytes_app path suffix v j x :
  Get j path = Some x ->
  SetBytes j (path ++ suffix) v = put path (SetBytes x suffix v) j.
Proof.
  intros Hx. unfold SetBytes. rewrite (set_app path suffix v j x Hx).
  destruct (set suffix v x); cbn; [done|]. by rewrite put_id.
Qed.

Lemma DeleteBytes_app path suffix j x :
  suffix <> [] ->
  Get j path = Some x ->
  DeleteBytes j (path ++ suffix) = put path (DeleteBytes x suffix) j.
Proof.
  intros Hne Hx. unfold DeleteBytes. rewrite (del_app path suffix j x Hne Hx).
  destruct (del suffix x); cbn; [done|]. by rewrite put_id.
Qed.

End JSONFacts.

(** ** What the rewriter does to one part *)

Section PartRewrite.
Import JSON rewriter RewriteSpec.

Lemma set_field_spec k v c :
  (forall es, c <> JArray es) ->
  exists os,
    set [Field k] v c = Some (JObject os) /\
    member k os = Some v /\
    forall k', k' <> k -> member k' os = child c (Field k').
Proof.
  intros Hc. destruct c as [| | | |es|os]; cbn.
  1-4: exists [(k, v)]; split; [done|]; cbn; rewrite decide_True by done;
       split; [done|]; intros k' Hk'; by rewrite decide_False.
  - by destruct (Hc es).
  - destruct (member k os) as [old|] eqn:Hold; cbn.
    + exists (replace_member k v os). split; [done|].
      split; [apply member_replace_same; by rewrite Hold|].
      intros k' Hk'. by apply member_replace_other.
    + exists (os ++ [(k, v)]). split; [done|]. rewrite member_app, Hold. cbn.
      rewrite decide_True by done. split; [done|].
      intros k' Hk'. rewrite member_app. cbn. rewrite decide_False by done.
      by destruct (member k' os).
Qed.

Lemma set_cons_found st rest v j c :
  child j st = Some c ->
  set (st :: rest) v j = replace_child j st <$> set rest v c.
Proof. intros Hc. cbn [set]. rewrite Hc. by destruct (set rest v c). Qed.

Lemma set_cons_new_member st rest v ms :
  member (step_name st) ms = None ->
  set (st :: rest) v (JObject ms)
  = Some (JObject (ms ++ [(step_name st, build rest v)])).
Proof. intros Hc. cbn [set child]. by rewrite Hc. Qed.

(** Setting [inline_data.k] in an object whose [inline_data], if any, is
    not an array. *)
Lemma set_inline_spec ms k v :
  (forall es, member "inline_data" ms <> Some (JArray es)) ->
  exists ms' os,
    SetBytes (JObject ms) [Field "inline_data"; Field k] v = JObject ms' /\
    member "inline_data" ms' = Some (JObject os) /\
    member k os = Some v /\
    (forall k', k' <> k ->
       member k' os = match member "inline_data" ms with
                      | Some c => child c (Field k')
                      | None => None
                      end) /\
    (forall n, n <> "inline_data" ->
       member n ms' = member n ms /\ occurrences n ms' = occurrences n ms).
Proof.
  intros Hno. unfold SetBytes.
  destruct (member "inline_data" ms) as [c|] eqn:Hc.
  - destruct (set_field_spec k v c) as (os & Hset & Hk & Hother).
    { intros es ->. by apply (Hno es). }
    rewrite (set_cons_found _ _ _ _ c) by done.
    rewrite Hset. cbn [fmap option_fmap option_map replace_child step_name].
    exists (replace_member "inline_data" (JObject os) ms), os.
    split; [done|]. split; [apply member_replace_same; by rewrite Hc|].
    split; [done|]. split; [done|].
    intros n Hn. split; [by apply member_replace_other|].
    apply occurrences_replace.
  - rewrite set_cons_new_member by done. cbn [step_name build].
    exists (ms ++ [("inline_data", JObject [(k, v)])]), [(k, v)].
    split; [done|]. rewrite member_app, Hc. cbn.
    split; [done|]. rewrite decide_True by done. split; [done|].
    split; [intros k' Hk'; by rewrite decide_False|].
    intros n Hn. rewrite member_app, occurrences_app, occurrences_cons.
    rewrite decide_False by done. split.
    + cbn [member]. rewrite decide_False by done. by destruct (member n ms).
    + change (occurrences n []) with 0%nat. lia.
Qed.

Lemma delete_field_spec ms k :
  (occurrences k ms <= 1)%nat ->
  exists ms',
    DeleteBytes (JObject ms) [Field k] = JObject ms' /\
    member k ms' = None /\
    (forall n, n <> k ->
       member n ms' = member n ms /\ occurrences n ms' = occurrences n ms).
Proof.
  intros Hocc. unfold DeleteBytes. cbn [del child step_name].
  destruct (member k ms) as [c|] eqn:Hc; cbn [remove_child step_name].
  - exists (remove_member k ms). split; [done|].
    split; [by apply member_remove_same|].
    intros n Hn. split; [by apply member_remove_other|].
    by apply occurrences_remove_other.
  - exists ms. done.
Qed.

(** The part after the four edits of applyInlineData. *)
Lemma rewritePart_spec mimeType data part :
  tidy part ->
  Inlined (Some (rewritePart mimeType data part)) mimeType data /\
  forall n, n <> "inline_data" -> n <> "file_data" -> n <> "fileData" ->
    child (rewritePart mimeType data part) (Field n) = child part (Field n).
Proof.
  destruct part as [| | | | |ms]; try done. intros (Hfd & HfD & Hinl).
  unfold rewritePart.
  destruct (set_inline_spec ms "mime_type" (JString mimeType) Hinl)
    as (ms1 & os1 & -> & Hi1 & Hm1 & _ & Hk1).
  destruct (set_inline_spec ms1 "data"
              (JString (Base64.EncodeToString data)))
    as (ms2 & os2 & -> & Hi2 & Hd2 & Ho2 & Hk2).
  { intros es. by rewrite Hi1. }
  destruct (delete_field_spec ms2 "file_data") as (ms3 & -> & Hgone3 & Hk3).
  { rewrite (proj2 (Hk2 "file_data" ltac:(done))),
      (proj2 (Hk1 "file_data" ltac:(done))). done. }
  destruct (delete_field_spec ms3 "fileData") as (ms4 & -> & Hgone4 & Hk4).
  { rewrite (proj2 (Hk3 "fileData" ltac:(done))),
      (proj2 (Hk2 "fileData" ltac:(done))),
      (proj2 (Hk1 "fileData" ltac:(done))). done. }
  split.
  - exists (JObject ms4), (JObject os2), (Base64.EncodeToString data).
    cbn [child step_name].
    split; [done|].
    split.
    { rewrite (proj1 (Hk4 "inline_data" ltac:(done))),
        (proj1 (Hk3 "inline_data" ltac:(done))). done. }
    split.
    { rewrite (Ho2 "mime_type" ltac:(done)), Hi1. cbn. done. }
    split; [done|]. split; [apply base64_round_trip|].
    split; [|done].
    rewrite (proj1 (Hk4 "file_data" ltac:(done))). done.
  - intros n H1 H2 H3. cbn [child step_name].
    rewrite (proj1 (Hk4 n ltac:(done))), (proj1 (Hk3 n ltac:(done))),
      (proj1 (Hk2 n ltac:(done))), (proj1 (Hk1 n ltac:(done))). done.
Qed.

End PartRewrite.

(** ** Parts of a payload and where the references are *)

Section Parts.
Import JSON rewriter RewriteSpec.

Lemma partAt_inv j ci pi part :
  partAt j ci pi = Some part ->
  exists cs c ps,
    child j (Field "contents") = Some (JArray cs) /\ cs !! ci = Some c /\
    child c (Field "parts") = Some (JArray ps) /\ ps !! pi = Some part.
Proof.
  unfold partAt. intros H.
  destruct (child j (Field "contents")) as [[| | | |cs|]|]; try done.
  destruct (cs !! ci) as [c|] eqn:Hc; [|done].
  destruct (child c (Field "parts")) as [[| | | |ps|]|] eqn:Hp; try done.
  by exists cs, c, ps.
Qed.

Lemma partAt_Get j ci pi part :
  partAt j ci pi = Some part ->
  Get j [Field "contents"; Item ci; Field "parts"; Item pi] = Some part.
Proof.
  intros (cs & c & ps & H1 & H2 & H3 & H4)%partAt_inv.
  cbn [Get]. rewrite H1. cbn [child]. rewrite H2, H3. cbn [child].
  by rewrite H4.
Qed.

(** Replacing one part leaves the others where they are. *)
Lemma partAt_put j ci pi part x ci' pi' :
  partAt j ci pi = Some part ->
  partAt (put [Field "contents"; Item ci; Field "parts"; Item pi] x j) ci' pi'
  = if decide ((ci', pi') = (ci, pi)) then Some x else partAt j ci' pi'.
Proof.
  intros (cs & c & ps & H1 & H2 & H3 & H4)%partAt_inv.
  unfold partAt. cbn [put]. rewrite H1. cbn [child put]. rewrite H2, H3.
  cbn [child put]. rewrite H4.
  rewrite child_replace_same by (by rewrite H1). cbn [replace_child].
  destruct (decide (ci' = ci)) as [->|Hci].
  - rewrite list_lookup_insert_eq by (by eapply lookup_lt_Some).
    rewrite child_replace_same by (by rewrite H3). rewrite H2, H3.
    destruct (decide (pi' = pi)) as [->|Hpi].
    + rewrite list_lookup_insert_eq by (by eapply lookup_lt_Some).
      by rewrite decide_True.
    + rewrite list_lookup_insert_ne by done.
      rewrite decide_False by congruence. done.
  - rewrite list_lookup_insert_ne by done.
    rewrite decide_False by congruence. done.
Qed.

(** applyInlineData edits the referenced part, in place. *)
Lemma applyInlineData_put j ref mimeType data part :
  partAt j (contentIndex ref) (partIndex ref) = Some part ->
  applyInlineData j ref mimeType data
  = put (partPath ref) (rewritePart mimeType data part) j.
Proof.
  intros Hpart%partAt_Get. fold (partPath ref) in Hpart.
  unfold applyInlineData, rewritePart.
  rewrite <- !app_assoc. cbn [app].
  set (x1 := SetBytes part [Field "inline_data"; Field "mime_type"]
               (JString mimeType)).
  set (x2 := SetBytes x1 [Field "inline_data"; Field "data"]
               (JString (Base64.EncodeToString data))).
  set (x3 := DeleteBytes x2 [Field "file_data"]).
  rewrite (SetBytes_app _ _ _ _ _ Hpart). fold x1.
  rewrite (SetBytes_app _ _ _ _ x1) by (by eapply Get_put).
  fold x2. rewrite (put_put _ _ part) by done.
  rewrite (DeleteBytes_app _ [Field "file_data"] _ x2)
    by (done || by eapply Get_put).
  fold x3. rewrite (put_put _ _ part) by done.
  rewrite (DeleteBytes_app _ [Field "fileData"] _ x3)
    by (done || by eapply Get_put).
  by rewrite (put_put _ _ part).
Qed.

Lemma parse_coord ci pi part r :
  parseLocalFilePart ci pi part = Some r ->
  contentIndex r = ci /\ partIndex r = pi.
Proof.
  unfold parseLocalFilePart.
  destruct (decide _); destruct (negb _); intros [= <-]; done.
Qed.

(** The references found among the parts of one content. *)
Lemma appendRefsFromParts_spec parts : forall out ci pi r,
  r ∈ appendRefsFromParts out ci pi parts <->
  r ∈ out \/
  exists k part, parts !! k = Some part /\
                 parseLocalFilePart ci (pi + k) part = Some r.
Proof.
  induction parts as [|p parts IH]; intros out ci pi r; cbn.
  - split; [auto|]. intros [?|(k & part & Hk & _)]; done.
  - destruct (parseLocalFilePart ci pi p) as [ref|] eqn:Hp; rewrite IH.
    + rewrite elem_of_app, list_elem_of_singleton. split.
      * intros [[? | ->]|(k & part & Hk & Hr)]; [by left|..].
        -- right. exists 0%nat, p. by rewrite Nat.add_0_r.
        -- right. exists (S k), part. split; [done|].
           by replace (pi + S k)%nat with (S pi + k)%nat by lia.
      * intros [?|(k & part & Hk & Hr)]; [by left; left|].
        destruct k as [|k]; cbn in Hk.
        -- injection Hk as <-. rewrite Nat.add_0_r in Hr.
           left. right. congruence.
        -- right. exists k, part. split; [done|].
           by replace (S pi + k)%nat with (pi + S k)%nat by lia.
    + split.
      * intros [?|(k & part & Hk & Hr)]; [by left|].
        right. exists (S k), part. split; [done|].
        by replace (pi + S k)%nat with (S pi + k)%nat by lia.
      * intros [?|(k & part & Hk & Hr)]; [by left|].
        destruct k as [|k]; cbn in Hk.
        -- injection Hk as <-. rewrite Nat.add_0_r in Hr. congruence.
        -- right. exists k, part. split; [done|].
           by replace (S pi + k)%nat with (pi + S k)%nat by lia.
Qed.

Lemma findRefsFrom_spec contents : forall out ci r,
  r ∈ findRefsFrom out ci contents <->
  r ∈ out \/
  exists k c ps k' part,
    contents !! k = Some c /\ child c (Field "parts") = Some (JArray ps) /\
    ps !! k' = Some part /\ parseLocalFilePart (ci + k) k' part = Some r.
Proof.
  induction contents as [|c contents IH]; intros out ci r; cbn.
  - split; [auto|]. intros [?|(k & ? & ? & ? & ? & Hk & _)]; done.
  - rewrite IH. unfold appendRefsFromContent. cbn [Get].
    split.
    + intros [Hin|(k & c' & ps & k' & part & Hk & Hc & Hp & Hr)].
      * destruct (child c (Field "parts")) as [[| | | |ps|]|] eqn:Hps;
          cbn [IsArray negb] in Hin; try (by left).
        cbn [Array] in Hin. apply appendRefsFromParts_spec in Hin.
        destruct Hin as [?|(k' & part & Hk' & Hr)]; [by left|].
        right. exists 0%nat, c, ps, k', part. by rewrite Nat.add_0_r.
      * right. exists (S k), c', ps, k', part. repeat split; try done.
        by replace (ci + S k)%nat with (S ci + k)%nat by lia.
    + intros [Hin|(k & c' & ps & k' & part & Hk & Hc & Hp & Hr)].
      * left. destruct (child c (Field "parts")) as [[| | | |ps|]|];
          cbn [IsArray negb Array]; try done.
        apply appendRefsFromParts_spec. by left.
      * destruct k as [|k]; cbn in Hk.
        -- injection Hk as <-. rewrite Nat.add_0_r in Hr. left.
           rewrite Hc. cbn [IsArray negb Array].
           apply appendRefsFromParts_spec. right. by exists k', part.
        -- right. exists k, c', ps, k', part. repeat split; try done.
           by replace (S ci + k)%nat with (ci + S k)%nat by lia.
Qed.

(** The references of a payload are its parts that parse as one. *)
Lemma findLocalFilePartRefs_spec payload r :
  r ∈ findLocalFilePartRefs payload <->
  exists part,
    partAt payload (contentIndex r) (partIndex r) = Some part /\
    parseLocalFilePart (contentIndex r) (partIndex r) part = Some r.
Proof.
  unfold findLocalFilePartRefs, findRefsInContents, partAt. cbn [Get].
  destruct (child payload (Field "contents")) as [[| | | |cs|]|];
    cbn [IsArray negb Array];
    try (split; [by intros ?%elem_of_nil|by intros (? & ? & _)]).
  rewrite findRefsFrom_spec. split.
  - intros [?%elem_of_nil|(k & c & ps & k' & part & Hk & Hc & Hp & Hr)];
      [done|].
    destruct (parse_coord _ _ _ _ Hr) as [-> ->]. cbn [Nat.add].
    exists part. by rewrite Hk, Hc.
  - intros (part & Hpart & Hr). right.
    destruct (cs !! contentIndex r) as [c|] eqn:Hc; [|done].
    destruct (child c (Field "parts")) as [[| | | |ps|]|] eqn:Hps; try done.
    by exists (contentIndex r), c, ps, (partIndex r), part.
Qed.

End Parts.

(** ** The bounded read in a quiet world *)

Section QuietReads.
Import filestore Spec JSON rewriter RewriteSpec.

Lemma limit_value : wrap64 (maxInlineFileBytes + 1) = maxInlineFileBytes + 1.
Proof. reflexivity. Qed.

Lemma firstn_within (data : list byte) :
  Z.of_nat (length data) <= maxInlineFileBytes ->
  firstn (Z.to_nat (maxInlineFileBytes + 1)) data = data.
Proof. intros H. apply firstn_all2. lia. Qed.

Lemma firstn_beyond (data : list byte) :
  maxInlineFileBytes < Z.of_nat (length data) ->
  maxInlineFileBytes
  < Z.of_nat (length (firstn (Z.to_nat (maxInlineFileBytes + 1)) data)).
Proof.
  intros H. rewrite length_firstn.
  assert (0 <= maxInlineFileBytes) by (by vm_compute). lia.
Qed.

Ltac quiet_simpl :=
  cbn -[isValidFileID isOwnedByAPIKey Z.ltb Z.leb wrap64 Z.mul Z.add firstn
        Z.to_nat length maxInlineFileBytes String.append].

Ltac quiet_step :=
  quiet_simpl;
  match goal with
  | |- context [negb (isValidFileID ?x)] =>
      destruct (isValidFileID x) eqn:?
  | |- context [match @lookup _ _ (gmap _ _) _ ?k ?m with _ => _ end] =>
      destruct (m !! k) as [?|] eqn:?
  | |- context [match ?s with Sidecar _ => _ | Garbled => _ end] =>
      is_var s; destruct s
  | |- context [negb (isOwnedByAPIKey ?a ?b)] =>
      destruct (isOwnedByAPIKey a b) eqn:?
  | |- context [if ?a <? ?b then _ else _] => destruct (Z.ltb_spec a b)
  | |- context [if ?a <=? ?b then _ else _] => destruct (Z.leb_spec a b)
  end;
  simplify_eq.

(** In a quiet world the bounded read is [readOutcome], and the world it
    leaves is quiet again, with the same disk. *)
Lemma read_quiet w apiKey fileID :
  quiet w ->
  exists w',
    ReadFileBytesForAPIKey fileID apiKey maxInlineFileBytes w
    = (readOutcome w apiKey fileID, w') /\
    quiet w' /\ sameDisk w w'.
Proof.
  destruct w as [fd md cl wl fa tr]. unfold quiet, sameDisk. cbn.
  intros [-> ->].
  assert (0 < maxInlineFileBytes) as Hmax by (by vm_compute).
  unfold ReadFileBytesForAPIKey, GetFileContentForAPIKey, GetFileContent,
    GetFileForAPIKey, GetFile, loadMetadata, os_ReadFile, os_Open,
    ensureFileSizeAllowed, readAllWithinLimit, io_ReadAll, time_Now, enter,
    readOutcome, record, isExpired.
  rewrite limit_value.
  repeat quiet_step.
  all: quiet_simpl.
  all: try lia.
  all: try (eexists; split; [reflexivity|done]).
  all: first
    [ rewrite firstn_within by lia; eexists; split; [reflexivity|done]
    | exfalso;
      match goal with
      | H : _ < Z.of_nat (length (firstn _ ?l)) |- _ =>
          rewrite length_firstn in H; lia
      | H : Z.of_nat (length (firstn _ ?l)) <= _ |- _ =>
          pose proof (firstn_beyond l ltac:(lia)); lia
      end ].
Qed.

End QuietReads.

(** ** The rewriter, reference after reference *)

Section Rewriting.
Import filestore Spec JSON rewriter RewriteSpec.

Lemma appendRefsFromParts_NoDup parts : forall out ci pi,
  NoDup (coord <$> out) ->
  (forall r, r ∈ out -> contentIndex r = ci -> (partIndex r < pi)%nat) ->
  NoDup (coord <$> appendRefsFromParts out ci pi parts).
Proof.
  induction parts as [|p parts IH]; intros out ci pi Hnd Hlt; cbn; [done|].
  destruct (parseLocalFilePart ci pi p) as [ref|] eqn:Hp.
  - destruct (parse_coord _ _ _ _ Hp) as [Hci Hpi].
    apply IH.
    + rewrite fmap_app. apply NoDup_app. split; [done|]. split.
      * intros c Hc Hc'. apply list_elem_of_singleton in Hc'. subst c.
        apply list_elem_of_fmap in Hc as (r & Hr & Hin).
        unfold coord in Hr. injection Hr as Hr1 Hr2.
        specialize (Hlt r Hin ltac:(congruence)). lia.
      * apply NoDup_singleton.
    + intros r [Hin| ->%list_elem_of_singleton]%elem_of_app Hr.
      * specialize (Hlt r Hin Hr). lia.
      * lia.
  - apply IH; [done|]. intros r Hin Hr. specialize (Hlt r Hin Hr). lia.
Qed.

Lemma findRefsFrom_NoDup contents : forall out ci,
  NoDup (coord <$> out) ->
  (forall r, r ∈ out -> (contentIndex r < ci)%nat) ->
  NoDup (coord <$> findRefsFrom out ci contents).
Proof.
  induction contents as [|c contents IH]; intros out ci Hnd Hlt; cbn; [done|].
  apply IH.
  - unfold appendRefsFromContent.
    destruct (negb (IsArray (Get c [Field "parts"]))); [done|].
    apply appendRefsFromParts_NoDup; [done|].
    intros r Hin Hr. specialize (Hlt r Hin). lia.
  - intros r Hin. unfold appendRefsFromContent in Hin.
    destruct (negb (IsArray (Get c [Field "parts"]))).
    + specialize (Hlt r Hin). lia.
    + apply appendRefsFromParts_spec in Hin as [Hin|(k & part & _ & Hp)].
      * specialize (Hlt r Hin). lia.
      * destruct (parse_coord _ _ _ _ Hp) as [-> _]. lia.
Qed.

(** No two references point at the same part. *)
Lemma findLocalFilePartRefs_NoDup payload :
  NoDup (coord <$> findLocalFilePartRefs payload).
Proof.
  unfold findLocalFilePartRefs, findRefsInContents.
  destruct (negb (IsArray (Get payload [Field "contents"])));
    [apply NoDup_nil_2|].
  apply findRefsFrom_NoDup; [apply NoDup_nil_2|].
  intros r []%elem_of_nil.
Qed.

Lemma readOutcome_sameDisk w w' apiKey fileID :
  sameDisk w w' -> readOutcome w' apiKey fileID = readOutcome w apiKey fileID.
Proof.
  intros (Hf & Hm & Hw). unfold readOutcome, record. by rewrite Hf, Hm, Hw.
Qed.

Lemma applyPure_sameDisk w w' apiKey refs : forall out,
  sameDisk w w' -> applyPure w' apiKey out refs = applyPure w apiKey out refs.
Proof.
  induction refs as [|r refs IH]; intros out Hsame; cbn; [done|].
  rewrite (readOutcome_sameDisk w w') by done.
  destruct (readOutcome w apiKey (fileIDOf r)) as [[data m]|e]; [|done].
  by apply IH.
Qed.

(** In a quiet world the loop is [applyPure]. *)
Lemma applyRefs_quiet apiKey refs : forall out w,
  quiet w ->
  exists w',
    applyRefs out apiKey refs w = (applyPure w apiKey out refs, w') /\
    quiet w' /\ sameDisk w w'.
Proof.
  induction refs as [|r refs IH]; intros out w Hq; cbn.
  - exists w. split; [done|]. split; [done|]. by unfold sameDisk.
  - unfold inlineLocalFilePart, loadInlineFile. fold (fileIDOf r).
    destruct (read_quiet w apiKey (fileIDOf r) Hq) as (w1 & -> & Hq1 & Hs1).
    destruct (readOutcome w apiKey (fileIDOf r)) as [[data m]|e].
    + destruct (IH (applyInlineData out r (resolveMimeType r (Some m)) data)
                  w1 Hq1) as (w2 & -> & Hq2 & Hs2).
      exists w2. rewrite (applyPure_sameDisk w w1) by done.
      split; [done|]. split; [done|].
      destruct Hs1 as (? & ? & ?), Hs2 as (? & ? & ?).
      repeat split; congruence.
    + by exists w1.
Qed.

(** When every reference can be read, the loop rewrites each referenced
    part and leaves the other parts alone. *)
Lemma applyPure_ok w apiKey refs : forall j,
  NoDup (coord <$> refs) ->
  (forall r, r ∈ refs ->
     is_Some (partAt j (contentIndex r) (partIndex r))) ->
  (forall r, r ∈ refs ->
     exists data m, readOutcome w apiKey (fileIDOf r) = Ok (data, m)) ->
  exists out,
    applyPure w apiKey j refs = Ok out /\
    (forall r data m part,
       r ∈ refs -> readOutcome w apiKey (fileIDOf r) = Ok (data, m) ->
       partAt j (contentIndex r) (partIndex r) = Some part ->
       partAt out (contentIndex r) (partIndex r)
       = Some (rewritePart (resolveMimeType r (Some m)) data part)) /\
    (forall ci pi, (ci, pi) ∉ coord <$> refs ->
       partAt out ci pi = partAt j ci pi).
Proof.
  induction refs as [|r refs IH]; intros j Hnd Hparts Hread; cbn.
  - exists j. split; [done|]. split; [|done].
    intros r data m part []%elem_of_nil.
  - apply NoDup_cons in Hnd as [Hfresh Hnd].
    destruct (Hread r ltac:(left)) as (data & m & Hr). rewrite Hr.
    destruct (Hparts r ltac:(left)) as [part Hpart].
    pose proof (applyInlineData_put j r (resolveMimeType r (Some m)) data
                  part Hpart) as Hput. unfold partPath in Hput.
    set (j1 := applyInlineData j r (resolveMimeType r (Some m)) data) in *.
    assert (forall ci pi,
              partAt j1 ci pi
              = if decide ((ci, pi) = coord r)
                then Some (rewritePart (resolveMimeType r (Some m)) data part)
                else partAt j ci pi) as Hj1.
    { intros ci pi. rewrite Hput. unfold coord.
      by apply (partAt_put j _ _ part). }
    destruct (IH j1 Hnd) as (out & Hout & Hdone & Hrest).
    { intros r' Hin. rewrite Hj1. case_decide as E; [done|].
      apply Hparts. by right. }
    { intros r' Hin. apply Hread. by right. }
    exists out. split; [done|]. split.
    + intros r' data' m' part' [-> |Hin]%elem_of_cons Hr' Hpart'.
      * assert (data' = data /\ m' = m /\ part' = part) as (-> & -> & ->)
          by (split; [|split]; congruence).
        rewrite Hrest by done. rewrite Hj1. by rewrite decide_True.
      * apply (Hdone r' data' m' part' Hin Hr').
        rewrite Hj1. rewrite decide_False; [done|].
        intros E. apply Hfresh. rewrite <- E.
        apply list_elem_of_fmap. by exists r'.
    + intros ci pi Hnot. rewrite Hrest.
      * rewrite Hj1. rewrite decide_False; [done|].
        intros E. apply Hnot. rewrite E. apply elem_of_cons. by left.
      * intros Hin. apply Hnot. apply elem_of_cons. by right.
Qed.

Lemma normalizeReadError_sentinels :
  normalizeReadError ErrFileNotFound = ErrFileNotFound /\
  normalizeReadError ErrFileTooLarge = ErrFileTooLarge.
Proof. split; reflexivity. Qed.

(** One reference that cannot be read makes the loop fail; the error is
    the one of the first such reference. *)
Lemma applyPure_err w apiKey refs : forall j,
  (exists r e, r ∈ refs /\ readOutcome w apiKey (fileIDOf r) = Err e) ->
  exists e',
    applyPure w apiKey j refs = Err e' /\
    ((forall r e, r ∈ refs -> readOutcome w apiKey (fileIDOf r) = Err e ->
        e = ErrFileNotFound \/ e = ErrFileTooLarge) ->
     e' = ErrFileNotFound \/ e' = ErrFileTooLarge).
Proof.
  induction refs as [|r refs IH]; intros j (r0 & e0 & Hin & He0).
  - by apply elem_of_nil in Hin.
  - cbn. destruct (readOutcome w apiKey (fileIDOf r)) as [[data m]|e] eqn:Hr.
    + apply elem_of_cons in Hin as [-> |Hin]; [congruence|].
      destruct (IH (applyInlineData j r (resolveMimeType r (Some m)) data))
        as (e' & -> & Hkind); [by exists r0, e0|].
      exists e'. split; [done|]. intros Hall. apply Hkind.
      intros r' e1 Hin' Hr'. apply (Hall r' e1); [by right|done].
    + exists (normalizeReadError e). split; [done|]. intros Hall.
      destruct (Hall r e ltac:(left) Hr) as [-> | ->]; [by left|by right].
Qed.

End Rewriting.

(** ** The payload rewriter *)

Section RewriterTheorem.
Import filestore Spec JSON rewriter RewriteSpec.

Lemma nextNow_quiet w : quiet w -> nextNow w = wall w.
Proof. intros [_ Hc]. unfold nextNow, time_Now. cbn. by rewrite Hc. Qed.

Lemma readOutcome_readable w apiKey fileID data m :
  Readable w apiKey fileID data m ->
  readOutcome w apiKey fileID = Ok (data, m).
Proof.
  intros [(Hvalid & Hrec & Hown & Hlive & Hfile) [Hsize Hlen]].
  unfold readOutcome. rewrite Hvalid, Hrec, Hfile. cbn [negb].
  destruct (isOwnedByAPIKey (Some m) apiKey) eqn:Ho;
    [|by apply isOwnedByAPIKey_spec in Ho].
  cbn [negb].
  destruct (Z.ltb_spec (ExpiresAt m) (wall w)); [lia|].
  destruct (Z.ltb_spec maxInlineFileBytes (SizeBytes m)); [lia|].
  destruct (Z.ltb_spec maxInlineFileBytes (Z.of_nat (length data))); [lia|].
  reflexivity.
Qed.

Lemma readOutcome_missing w apiKey fileID :
  quiet w -> Missing w apiKey fileID ->
  readOutcome w apiKey fileID = Err ErrFileNotFound.
Proof.
  intros Hq Hmiss. unfold readOutcome.
  destruct Hmiss as [Hbad|Hhid]; [by rewrite Hbad|].
  destruct (isValidFileID fileID); [|done]. cbn [negb].
  destruct Hhid as [Hnone|m Hrec Hother|m Hrec Hexp].
  - by rewrite Hnone.
  - rewrite Hrec. apply isOwnedByAPIKey_spec in Hother. by rewrite Hother.
  - rewrite Hrec. rewrite (nextNow_quiet w Hq) in Hexp.
    destruct (negb _); [done|].
    destruct (Z.ltb_spec (ExpiresAt m) (wall w)); [done|lia].
Qed.

Lemma readOutcome_too_big w apiKey fileID :
  TooBig w apiKey fileID ->
  readOutcome w apiKey fileID = Err ErrFileTooLarge.
Proof.
  intros (data & m & (Hvalid & Hrec & Hown & Hlive & Hfile) & Hfits).
  unfold readOutcome. rewrite Hvalid, Hrec, Hfile. cbn [negb].
  destruct (isOwnedByAPIKey (Some m) apiKey) eqn:Ho;
    [|by apply isOwnedByAPIKey_spec in Ho].
  cbn [negb].
  destruct (Z.ltb_spec (ExpiresAt m) (wall w)); [lia|].
  destruct (Z.ltb_spec maxInlineFileBytes (SizeBytes m)); [done|].
  destruct (Z.ltb_spec maxInlineFileBytes (Z.of_nat (length data))); [done|].
  exfalso. apply Hfits. by split.
Qed.

(** What the rewrite does when the handles are ids of the store.  In a
    world where no system call fails and the clock stands still, for a
    payload whose referencing parts are tidy:
    - when every reference names a record of the caller within the
      ceiling, the rewrite succeeds; each part whose reference (under
      either spelling) begins with "files/" then carries inline data that
      decodes to the stored bytes, under the declared mime type or else the
      stored one, and the reference is gone under both spellings; every
      other part is as it was;
    - when some reference is missing for the caller or exceeds the
      ceiling, the rewrite returns an error and no payload, and the error
      is ErrFileNotFound or ErrFileTooLarge when all references are of
      these kinds;
    - without a local store the payload is returned as it is. *)
Theorem rewrite_inlines_local_files payload apiKey w :
  quiet w ->
  (forall r part,
     r ∈ findLocalFilePartRefs payload ->
     partAt payload (contentIndex r) (partIndex r) = Some part ->
     tidy part) ->
  ((forall r, r ∈ findLocalFilePartRefs payload ->
      exists data m, Readable w apiKey (fileIDOf r) data m) ->
   exists out w',
     rewriteLocalFileParts payload true apiKey w = (Ok out, w') /\
     forall ci pi part,
       partAt payload ci pi = Some part ->
       match parseLocalFilePart ci pi part with
       | Some r =>
           Strings.HasPrefix (fileURI r) "files/" = true /\
           forall data m,
             Readable w apiKey (fileIDOf r) data m ->
             Inlined (partAt out ci pi) (resolveMimeType r (Some m)) data
       | None => partAt out ci pi = Some part
       end) /\
  ((exists r, r ∈ findLocalFilePartRefs payload /\
              (Missing w apiKey (fileIDOf r) \/ TooBig w apiKey (fileIDOf r))) ->
   exists e w',
     rewriteLocalFileParts payload true apiKey w = (Err e, w') /\
     ((forall r, r ∈ findLocalFilePartRefs payload ->
         (exists data m, Readable w apiKey (fileIDOf r) data m) \/
         Missing w apiKey (fileIDOf r) \/ TooBig w apiKey (fileIDOf r)) ->
      e = ErrFileNotFound \/ e = ErrFileTooLarge)) /\
  rewriteLocalFileParts payload false apiKey w = (Ok payload, w).
Proof.
  intros Hq Htidy.
  unfold rewriteLocalFileParts, applyLocalFilePartRefs. cbn [negb].
  destruct (applyRefs_quiet apiKey (findLocalFilePartRefs payload) payload w Hq)
    as (w' & Hrun & _ & _).
  rewrite Hrun. split; [|split; [|done]].
  - intros Hall.
    destruct (applyPure_ok w apiKey (findLocalFilePartRefs payload) payload)
      as (out & Hout & Hdone & Hrest).
    { apply findLocalFilePartRefs_NoDup. }
    { intros r (part & Hpart & _)%findLocalFilePartRefs_spec.
      by rewrite Hpart. }
    { intros r Hin. destruct (Hall r Hin) as (data & m & Hr).
      exists data, m. by apply readOutcome_readable. }
    exists out, w'. rewrite Hout. split; [done|].
    intros ci pi part Hpart.
    destruct (parseLocalFilePart ci pi part) as [r|] eqn:Hparse.
    + destruct (parse_coord _ _ _ _ Hparse) as [Hci Hpi].
      assert (r ∈ findLocalFilePartRefs payload) as Hin.
      { apply findLocalFilePartRefs_spec. exists part.
        by rewrite Hci, Hpi. }
      split.
      { revert Hparse. unfold parseLocalFilePart.
        destruct (decide _);
          destruct (Strings.HasPrefix _ "files/") eqn:Hpre; cbn [negb];
          intros [= <-]; done. }
      intros data m Hread.
      rewrite <- Hci, <- Hpi in Hpart |- *.
      rewrite (Hdone r data m part Hin
                 (readOutcome_readable _ _ _ _ _ Hread) Hpart).
      apply rewritePart_spec. by apply (Htidy r).
    + rewrite Hrest; [done|].
      intros (r & Hr & Hin)%list_elem_of_fmap.
      apply findLocalFilePartRefs_spec in Hin as (part' & Hpart' & Hparse').
      unfold coord in Hr. injection Hr as -> ->.
      congruence.
  - intros (r & Hin & Hbad).
    destruct (applyPure_err w apiKey (findLocalFilePartRefs payload) payload)
      as (e' & He' & Hkind).
    { destruct Hbad as [Hm|Hb].
      - exists r, ErrFileNotFound. split; [done|].
        by apply readOutcome_missing.
      - exists r, ErrFileTooLarge. split; [done|].
        by apply readOutcome_too_big. }
    exists e', w'. rewrite He'. split; [done|].
    intros Hall. apply Hkind. intros r' e Hin' He.
    destruct (Hall r' Hin') as [(data & m & Hr)|[Hm|Hb]].
    + apply readOutcome_readable in Hr. congruence.
    + rewrite (readOutcome_missing _ _ _ Hq Hm) in He. left. congruence.
    + rewrite (readOutcome_too_big _ _ _ Hb) in He. right. congruence.
Qed.

End RewriterTheorem.

Section RewriterScenario.
Import filestore Spec JSON rewriter RewriteSpec Scenario RewriteScenario.

Lemma helloPayload_refs : findLocalFilePartRefs helloPayload = [helloRef].
Proof. reflexivity. Qed.

Lemma helloWorld_quiet : quiet helloWorld.
Proof. split; reflexivity. Qed.

Lemma helloPayload_tidy r part :
  r ∈ findLocalFilePartRefs helloPayload ->
  partAt helloPayload (contentIndex r) (partIndex r) = Some part ->
  tidy part.
Proof.
  rewrite helloPayload_refs. intros ->%list_elem_of_singleton [= <-].
  split; [|split]; [vm_compute; lia..|]. intros es. discriminate.
Qed.

Lemma hello_readable :
  Readable helloWorld "key-a" helloID (Bytes.of_string "hello") helloRecord.
Proof.
  split; [split; [|split; [|split; [|split]]]|split].
  - reflexivity.
  - by vm_compute.
  - vm_compute. intros H. by apply H.
  - vm_compute. discriminate.
  - by vm_compute.
  - vm_compute. discriminate.
  - vm_compute. discriminate.
Qed.

Lemma helloPayload_all_readable r :
  r ∈ findLocalFilePartRefs helloPayload ->
  exists data m, Readable helloWorld "key-a" (fileIDOf r) data m.
Proof.
  rewrite helloPayload_refs. intros ->%list_elem_of_singleton.
  exists (Bytes.of_string "hello"), helloRecord. exact hello_readable.
Qed.

Lemma rewrite_inlines_local_files_witness :
  quiet helloWorld /\
  exists out w',
    rewriteLocalFileParts helloPayload true "key-a" helloWorld = (Ok out, w') /\
    Inlined (partAt out 0 0) "text/plain" (Bytes.of_string "hello") /\
    partAt out 0 1 = Some (JObject [("text", JString "describe the file")]).
Proof.
  split; [exact helloWorld_quiet|].
  destruct (proj1 (rewrite_inlines_local_files helloPayload "key-a" helloWorld
                     helloWorld_quiet helloPayload_tidy)
              helloPayload_all_readable) as (out & w' & Hrun & Hparts).
  exists out, w'. split; [exact Hrun|]. split.
  - exact (proj2 (Hparts 0%nat 0%nat helloPart eq_refl)
             (Bytes.of_string "hello") helloRecord hello_readable).
  - exact (Hparts 0%nat 1%nat
             (JObject [("text", JString "describe the file")]) eq_refl).
Defined.

(** The rewriter's own tests, run: the owner gets the bytes inline, another
    caller gets ErrFileNotFound, and so does a handle that is not an id of
    the store. *)
Example rewrite_for_owner :
  fst (rewriteLocalFileParts helloPayload true "key-a" helloWorld)
  = Ok (JObject
          [("contents",
            JArray
              [JObject
                 [("role", JString "user");
                  ("parts",
                   JArray
                     [JObject
                        [("inline_data",
                          JObject [("mime_type", JString "text/plain");
                                   ("data", JString "aGVsbG8=")])];
                      JObject [("text", JString "describe the file")]])]])]).
Proof. vm_compute. reflexivity. Qed.

Example rewrite_for_other_key :
  fst (rewriteLocalFileParts helloPayload true "key-b" helloWorld)
  = Err ErrFileNotFound.
Proof. vm_compute. reflexivity. Qed.

Example rewrite_of_short_handle :
  fst (rewriteLocalFileParts
         (JObject
            [("contents",
              JArray
                [JObject
                   [("parts",
                     JArray
                       [JObject
                          [("file_data",
                            JObject [("file_uri", JString "files/abc123");
                                     ("mime_type", JString "audio/mpeg")])]])]])])
         true "key-a" helloWorld)
  = Err ErrFileNotFound.
Proof. vm_compute. reflexivity. Qed.

End RewriterScenario.

(** ** Handles that are not ids of the store (C6) *)

Section UpstreamHandles.
Import filestore Spec JSON rewriter RewriteSpec Scenario RewriteScenario.

Lemma ReadFileBytesForAPIKey_invalid fileID apiKey maxBytes w :
  isValidFileID fileID = false ->
  ReadFileBytesForAPIKey fileID apiKey maxBytes w = (Err ErrFileNotFound, w).
Proof.
  intros Hbad.
  unfold ReadFileBytesForAPIKey, GetFileContentForAPIKey, GetFileForAPIKey,
    GetFile, loadMetadata.
  by rewrite Hbad.
Qed.

Lemma applyRefs_invalid apiKey r refs : forall j w,
  r ∈ refs -> isValidFileID (fileIDOf r) = false ->
  forall out, fst (applyRefs j apiKey refs w) <> Ok out.
Proof.
  induction refs as [|r0 refs IH]; intros j w Hin Hbad out.
  { by apply elem_of_nil in Hin. }
  cbn [applyRefs]. unfold inlineLocalFilePart, loadInlineFile.
  apply elem_of_cons in Hin as [<-|Hin].
  - unfold fileIDOf in Hbad.
    by rewrite (ReadFileBytesForAPIKey_invalid _ apiKey _ w Hbad).
  - destruct (ReadFileBytesForAPIKey _ _ _ w) as [[[data m]|e] w1];
      cbn [fst]; [|done].
    by apply IH.
Qed.

(** C6, on the code.  A reference that begins with "files/" is taken for a
    handle of the local store whatever follows the prefix.  When what
    follows is not an id of the store (not 32 hexadecimal characters), as
    in files/abc123, the part is not left as it is: the rewrite returns no
    payload, in any world and for any caller; and when that reference is
    the first of the payload, the rewrite fails with ErrFileNotFound
    before any system call. *)
Theorem rewrite_aborts_on_upstream_handle payload apiKey w r :
  r ∈ findLocalFilePartRefs payload ->
  malformedFileID (fileIDOf r) ->
  (forall out,
     fst (rewriteLocalFileParts payload true apiKey w) <> Ok out) /\
  (forall rest,
     findLocalFilePartRefs payload = r :: rest ->
     rewriteLocalFileParts payload true apiKey w = (Err ErrFileNotFound, w)).
Proof.
  intros Hin Hbad%malformed_rejected.
  unfold rewriteLocalFileParts, applyLocalFilePartRefs. cbn [negb]. split.
  - by apply (applyRefs_invalid apiKey r).
  - intros rest ->. cbn [applyRefs].
    unfold inlineLocalFilePart, loadInlineFile. unfold fileIDOf in Hbad.
    by rewrite (ReadFileBytesForAPIKey_invalid _ apiKey _ w Hbad).
Qed.

Lemma upstreamHandle_refs :
  findLocalFilePartRefs upstreamHandlePayload = [upstreamHandleRef].
Proof. reflexivity. Qed.

Lemma abc123_malformed : malformedFileID (fileIDOf upstreamHandleRef).
Proof. left. discriminate. Qed.

(** The test of the repository, TestRewriteLocalFileParts_IgnoresNonLocalFileID,
    run on a fresh store: it expects the payload back with the reference
    retained; the rewrite returns ErrFileNotFound. *)
Lemma rewrite_aborts_on_upstream_handle_witness :
  findLocalFilePartRefs upstreamHandlePayload = [upstreamHandleRef] /\
  malformedFileID (fileIDOf upstreamHandleRef) /\
  rewriteLocalFileParts upstreamHandlePayload true "key-a" emptyWorld
  = (Err ErrFileNotFound, emptyWorld).
Proof.
  split; [exact upstreamHandle_refs|]. split; [exact abc123_malformed|].
  apply (proj2 (rewrite_aborts_on_upstream_handle upstreamHandlePayload
                  "key-a" emptyWorld upstreamHandleRef
                  ltac:(rewrite upstreamHandle_refs; apply list_elem_of_here)
                  abc123_malformed) []).
  exact upstreamHandle_refs.
Defined.

(** A part that carries a reference under both spellings is read by the
    first: when that one names no local file, the local handle under the
    second spelling is not looked at and the part stays as it is. *)
Example second_spelling_is_not_looked_at :
  findLocalFilePartRefs twoSpellingsPayload = [] /\
  rewriteLocalFileParts twoSpellingsPayload true "key-a" helloWorld
  = (Ok twoSpellingsPayload, helloWorld).
Proof. split; reflexivity. Qed.

End UpstreamHandles.

(** * Further properties of the file store

    What the remaining operations of [internal/filestore] do to the two
    directories and to the size counter. *)

Section StoreExtras.
Import filestore Spec Scenario.

Local Opaque Sha256.Sum256 Hex.EncodeToString Fmt.decimal.

Ltac go :=
  cbn -[Z.mul Z.add Z.sub Z.pow Z.ltb Z.leb wrap64 hour quotaMessage].

Ltac step :=
  match goal with
  | |- context [if hd false ?l then _ else _] =>
      let F := fresh "F" in destruct (hd false l) eqn:F; go
  | |- context [if r_fail ?c then _ else _] =>
      let F := fresh "R" in destruct (r_fail c) eqn:F; go
  | |- context [if (?a && ?b)%bool then _ else _] =>
      let F := fresh "Q" in destruct (a && b)%bool eqn:F; go
  | |- context [match ?m !! ?k with _ => _ end] =>
      let F := fresh "L" in destruct (m !! k) eqn:F; go
  end.

(** X1.  Where the size invariant does hold.  With a fresh identifier and
    a fresh temporary name, when no system call fails, or only the write
    of the sidecar does, SaveFile leaves the counter equal to the bytes on
    disk if it was so before: whether the save succeeds, is turned down by
    the quota, loses its content stream, or is rolled back after the
    sidecar could not be written. *)
Theorem SaveFile_keeps_sizeInvariant
    content name mimeType displayName apiKey s w :
  sizeInvariant s w ->
  faults w = [] \/ faults w = [false; false; false; true] ->
  filesDir w !! fst (GenerateFileID w) = None ->
  filesDir w !! (fst (GenerateFileID w) +:+ ".tmp") = None ->
  int64 (currentTotalSize s + Z.of_nat (length (r_data content))) ->
  sizeInvariant
    (snd (fst (SaveFile content name mimeType displayName apiKey s w)))
    (snd (SaveFile content name mimeType displayName apiKey s w)).
Proof.
  unfold sizeInvariant, diskUsage. intros Hinv Hfaults Hid Htmp Hsum.
  pose proof (usage_nonneg (filesDir w)) as Hpos.
  pose proof (temp_name_differs (fst (GenerateFileID w))) as Hne.
  assert (int64 (currentTotalSize s)) as Hcur by (unfold int64 in *; lia).
  revert Hid Htmp Hne.
  unfold SaveFile, generateFileID, GenerateFileID, SaveFile_written,
    saveMetadata, os_Create, io_Copy, os_Rename, os_WriteFile, os_Remove,
    time_Now, enter.
  go. intros Hid Htmp Hne.
  destruct Hfaults as [-> | ->]; go; repeat step.
  all: repeat match goal with
    | H : <[?k:=_]> _ !! ?k = _ |- _ => rewrite lookup_insert_eq in H
    | H : delete ?k _ !! ?k = _ |- _ => rewrite lookup_delete_eq in H
    | H : <[?k:=_]> _ !! ?k' = _ |- _ =>
        rewrite (lookup_insert_ne _ k k') in H by exact Hne
    | H : delete ?k _ !! ?k' = _ |- _ =>
        rewrite (lookup_delete_ne _ k k') in H by exact Hne
    | H : Some _ = Some _ |- _ => injection H as <-
    | H : Some _ = None |- _ => discriminate H
    | H : None = Some _ |- _ => discriminate H
    end.
  all: rewrite ?delete_insert_eq, ?(delete_id _ _ Htmp).
  all: rewrite ?delete_insert_eq, ?(delete_id _ _ Htmp), ?(delete_id _ _ Hid).
  all: rewrite ?(usage_insert _ _ _ Hid).
  all: rewrite ?(wrap64_id _ Hsum).
  all: try replace (currentTotalSize s + Z.of_nat (length (r_data content))
                    - Z.of_nat (length (r_data content)))
         with (currentTotalSize s) by lia;
       rewrite ?(wrap64_id _ Hcur).
  all: lia.
Qed.

Lemma SaveFile_keeps_sizeInvariant_witness :
  sizeInvariant freshStore emptyWorld /\
  sizeInvariant helloStore helloWorld.
Proof.
  assert (sizeInvariant freshStore emptyWorld) as H0 by reflexivity.
  split; [exact H0|].
  apply (SaveFile_keeps_sizeInvariant (text "hello") "a.txt" "text/plain"
           "a.txt" "key-a" freshStore emptyWorld H0).
  - left. reflexivity.
  - vm_compute. reflexivity.
  - vm_compute. reflexivity.
  - vm_compute. split; [discriminate|reflexivity].
Defined.

Lemma deleteFileUnsafe_keeps_sizeInvariant fileID s w :
  sizeInvariant s w -> faults w = [] -> int64 (currentTotalSize s) ->
  sizeInvariant (snd (fst (deleteFileUnsafe fileID s w)))
                (snd (deleteFileUnsafe fileID s w)).
Proof.
  unfold sizeInvariant, diskUsage. intros Hinv Hfaults Hcur.
  pose proof (usage_nonneg (filesDir w)) as Hpos.
  unfold deleteFileUnsafe, os_Stat, os_Remove, enter.
  destruct (isValidFileID fileID); [|done]. cbn [negb].
  rewrite Hfaults. go.
  destruct (filesDir w !! fileID) as [data|] eqn:Hfile; go;
    repeat first [rewrite Hfile; go | step].
  1,2: pose proof (usage_delete _ _ _ Hfile) as Hdel;
       pose proof (usage_nonneg (delete fileID (filesDir w)));
       rewrite wrap64_id by (unfold int64 in *; lia).
  all: repeat (case_decide; [|done]; go).
  all: lia.
Qed.

(** X2.  When no system call fails, DeleteFile leaves the counter equal to
    the bytes on disk if it was so before, whether or not the file
    exists. *)
Theorem DeleteFile_keeps_sizeInvariant fileID s w :
  sizeInvariant s w -> faults w = [] -> int64 (currentTotalSize s) ->
  sizeInvariant (snd (fst (DeleteFile fileID s w)))
                (snd (DeleteFile fileID s w)).
Proof. apply deleteFileUnsafe_keeps_sizeInvariant. Qed.

Lemma DeleteFile_keeps_sizeInvariant_witness :
  sizeInvariant helloStore helloWorld /\
  sizeInvariant (snd (fst (DeleteFile helloID helloStore helloWorld)))
                (snd (DeleteFile helloID helloStore helloWorld)).
Proof.
  assert (sizeInvariant helloStore helloWorld) as H0 by (vm_compute; reflexivity).
  split; [exact H0|].
  apply (DeleteFile_keeps_sizeInvariant helloID helloStore helloWorld H0).
  - reflexivity.
  - vm_compute. split; [discriminate|reflexivity].
Defined.


(** X3.  A successful save, as found on disk.  Whenever SaveFile returns a
    record, in any world: the content stream ended properly; the record's
    id passes isValidFileID, its uri is "files/" followed by the id and its
    state is ACTIVE; the content file holds the bytes of the stream, the
    sidecar holds the record and no temporary file is left; the counter
    has grown by the number of bytes (in int64 arithmetic); and every other
    content file and sidecar is as it was. *)
Theorem saved_file_is_on_disk
    content name mimeType displayName apiKey s w m s1 w1 :
  SaveFile content name mimeType displayName apiKey s w = (Ok m, s1, w1) ->
  r_fail content = false /\
  isValidFileID (FileID m) = true /\
  URI m = "files/" +:+ FileID m /\
  State m = "ACTIVE" /\
  filesDir w1 !! FileID m = Some (r_data content) /\
  filesDir w1 !! (FileID m +:+ ".tmp") = None /\
  record w1 (FileID m) = Some (Sidecar m) /\
  currentTotalSize s1
    = wrap64 (currentTotalSize s + Z.of_nat (length (r_data content))) /\
  (forall n, n <> FileID m -> n <> FileID m +:+ ".tmp" ->
             filesDir w1 !! n = filesDir w !! n) /\
  (forall n, n <> FileID m +:+ MetadataFileExtension ->
             metadataDir w1 !! n = metadataDir w !! n).
Proof.
  pose proof (GenerateFileID_valid w) as Hvalid.
  pose proof (temp_name_differs (fst (GenerateFileID w))) as Hne.
  revert Hvalid Hne.
  unfold SaveFile, generateFileID, GenerateFileID, SaveFile_written,
    saveMetadata, os_Create, io_Copy, os_Rename, os_WriteFile, os_Remove,
    time_Now, enter, record.
  go. intros Hvalid Hne. repeat step.
  all: intros H; try discriminate H.
  all: injection H as <- <- <-; go.
  all: repeat match goal with
    | H : <[?k:=_]> _ !! ?k = _ |- _ => rewrite lookup_insert_eq in H
    | H : delete ?k _ !! ?k = _ |- _ => rewrite lookup_delete_eq in H
    | H : <[?k:=_]> _ !! ?k' = _ |- _ =>
        rewrite (lookup_insert_ne _ k k') in H by exact Hne
    | H : delete ?k _ !! ?k' = _ |- _ =>
        rewrite (lookup_delete_ne _ k k') in H by exact Hne
    | H : Some _ = Some _ |- _ => injection H as <-
    | H : Some _ = None |- _ => discriminate H
    | H : None = Some _ |- _ => discriminate H
    end.
  all: repeat split; try done.
  all: try (intros n Hn1 Hn2).
  all: try (intros n Hn1).
  all: rewrite ?lookup_insert_eq; try done.
  all: repeat first
    [ rewrite lookup_insert_ne by done
    | rewrite lookup_delete_ne by done
    | rewrite lookup_delete_eq
    | rewrite lookup_insert_eq ]; try done.
Qed.


Ltac read_step :=
  cbn -[isValidFileID isOwnedByAPIKey Z.ltb Z.leb wrap64 Z.mul Z.add firstn
        Z.to_nat length String.append];
  match goal with
  | |- context [negb (isValidFileID ?x)] =>
      destruct (isValidFileID x) eqn:?
  | |- context [if hd false ?l then _ else _] =>
      destruct (hd false l) eqn:?
  | |- context [match @lookup _ _ (gmap _ _) _ ?k ?m with _ => _ end] =>
      destruct (m !! k) as [?|] eqn:?
  | |- context [match ?s with Sidecar _ => _ | Garbled => _ end] =>
      is_var s; destruct s
  | |- context [negb (isOwnedByAPIKey ?a ?b)] =>
      destruct (isOwnedByAPIKey a b) eqn:?
  | |- context [if ?a <? ?b then _ else _] => destruct (Z.ltb_spec a b)
  | |- context [if ?a <=? ?b then _ else _] => destruct (Z.leb_spec a b)
  | |- context [decide (?a = ?b)] =>
      destruct (decide (a = b)); [try discriminate|try done]
  end.

Lemma ReadFileBytesForAPIKey_Ok fileID apiKey maxBytes w data m :
  fst (ReadFileBytesForAPIKey fileID apiKey maxBytes w) = Ok (data, m) ->
  record w fileID = Some (Sidecar m) /\
  isOwnedByAPIKey (Some m) apiKey = true /\
  (0 < maxBytes ->
   Z.of_nat (length data) <= maxBytes /\ SizeBytes m <= maxBytes) /\
  (maxBytes + 1 < 2 ^ 63 -> filesDir w !! fileID = Some data).
Proof.
  unfold ReadFileBytesForAPIKey, GetFileContentForAPIKey, GetFileContent,
    GetFileForAPIKey, GetFile, loadMetadata, os_ReadFile, os_Open,
    ensureFileSizeAllowed, readAllWithinLimit, io_ReadAll, time_Now, enter,
    record, isExpired.
  repeat read_step.
  all: cbn -[isValidFileID isOwnedByAPIKey Z.ltb Z.leb wrap64 Z.mul Z.add
             firstn Z.to_nat length String.append].
  all: try (intros E; discriminate E).
  all: intros [= <- <-].
  all: split; [done|]; split; [done|]; split; [intros; lia|]; try done.
  intros Hfit. f_equal.
  assert (wrap64 (maxBytes + 1) = maxBytes + 1) as Hw
    by (apply wrap64_id; unfold int64; lia).
  rewrite Hw in *. rewrite length_firstn in *.
  symmetry. apply firstn_all2. lia.
Qed.

(** X6.  The bounded read, in any world.  When ReadFileBytesForAPIKey
    returns bytes and a record, the record is the sidecar of that id and
    belongs to the caller; under a positive bound neither the bytes
    returned nor the recorded size exceed it; and the bytes are the
    content file, provided the bound plus one fits an int64 (the limit
    handed to io.LimitReader is maxBytes+1). *)
Theorem bounded_read_is_bounded fileID apiKey maxBytes w data m :
  fst (ReadFileBytesForAPIKey fileID apiKey maxBytes w) = Ok (data, m) ->
  record w fileID = Some (Sidecar m) /\
  isOwnedByAPIKey (Some m) apiKey = true /\
  (0 < maxBytes ->
   Z.of_nat (length data) <= maxBytes /\ SizeBytes m <= maxBytes) /\
  (maxBytes + 1 < 2 ^ 63 -> filesDir w !! fileID = Some data).
Proof. apply ReadFileBytesForAPIKey_Ok. Qed.

(** The bounded read changes neither directory. *)
Lemma ReadFileBytesForAPIKey_dirs fileID apiKey maxBytes w :
  filesDir (snd (ReadFileBytesForAPIKey fileID apiKey maxBytes w)) = filesDir w /\
  metadataDir (snd (ReadFileBytesForAPIKey fileID apiKey maxBytes w))
  = metadataDir w.
Proof.
  unfold ReadFileBytesForAPIKey, GetFileContentForAPIKey, GetFileContent,
    GetFileForAPIKey, GetFile, loadMetadata, os_ReadFile, os_Open,
    ensureFileSizeAllowed, readAllWithinLimit, io_ReadAll, time_Now, enter,
    record, isExpired.
  repeat read_step.
  all: cbn -[isValidFileID isOwnedByAPIKey Z.ltb Z.leb wrap64 Z.mul Z.add
             firstn Z.to_nat length String.append].
  all: done.
Qed.



(** *** Strings and directory listings *)

Lemma HasPrefix_append p s : Strings.HasPrefix (p +:+ s) p = true.
Proof.
  induction p as [|c p IH]; [by destruct s|].
  change (String c p +:+ s) with (String c (p +:+ s)).
  cbn [Strings.HasPrefix]. by rewrite Ascii.eqb_refl.
Qed.

Lemma list_ascii_append a b :
  list_ascii_of_string (a +:+ b)
  = list_ascii_of_string a ++ list_ascii_of_string b.
Proof. induction a as [|c a IH]; simpl; [done|]. by rewrite IH. Qed.

Lemma string_of_list_ascii_app l1 l2 :
  string_of_list_ascii (l1 ++ l2)
  = string_of_list_ascii l1 +:+ string_of_list_ascii l2.
Proof. induction l1 as [|c l1 IH]; simpl; [done|]. by rewrite IH. Qed.

Lemma rev_append a b :
  Strings.rev (a +:+ b) = Strings.rev b +:+ Strings.rev a.
Proof.
  unfold Strings.rev.
  by rewrite list_ascii_append, rev_app_distr, string_of_list_ascii_app.
Qed.

Lemma HasSuffix_append a b : Strings.HasSuffix (a +:+ b) b = true.
Proof. unfold Strings.HasSuffix. rewrite rev_append. apply HasPrefix_append. Qed.

Lemma substring_append a b : String.substring 0 (String.length a) (a +:+ b) = a.
Proof.
  induction a as [|c a IH]; simpl; [by destruct b|]. by rewrite IH.
Qed.

Lemma TrimSuffix_append a b : Strings.TrimSuffix (a +:+ b) b = a.
Proof.
  unfold Strings.TrimSuffix. rewrite HasSuffix_append, append_length.
  replace (String.length a + String.length b - String.length b)%nat
    with (String.length a) by lia.
  apply substring_append.
Qed.

Lemma append_inj_l a : forall b c, a +:+ c = b +:+ c -> a = b.
Proof.
  induction a as [|x a IH]; intros [|y b] c E.
  - done.
  - apply (f_equal String.length) in E.
    rewrite !append_length in E. simpl in E. lia.
  - apply (f_equal String.length) in E.
    rewrite !append_length in E. simpl in E. lia.
  - change (String x (a +:+ c) = String y (b +:+ c)) in E.
    injection E as -> E. f_equal. by eapply IH.
Qed.

Lemma elem_of_sorted_names {A} (m : gmap string A) k :
  k ∈ sorted_names m <-> is_Some (m !! k).
Proof.
  unfold sorted_names. rewrite merge_sort_Permutation.
  change (map fst (map_to_list m)) with (fst <$> map_to_list m).
  rewrite list_elem_of_fmap. split.
  - intros ([k' x] & -> & Hin). apply elem_of_map_to_list in Hin. by exists x.
  - intros [x Hx]. exists (k, x). split; [done|]. by apply elem_of_map_to_list.
Qed.

(** loadMetadata when the read goes through. *)
Lemma loadMetadata_goes_through fileID w :
  hd false (faults w) = false ->
  fst (loadMetadata fileID w)
  = (if negb (isValidFileID fileID) then Err ErrFileNotFound
     else match record w fileID with
          | None => Err ErrFileNotFound
          | Some Garbled =>
              Err (ErrWrap "failed to unmarshal metadata" ErrUnmarshal)
          | Some (Sidecar m) => Ok m
          end).
Proof.
  intros Hf. rewrite loadMetadata_unfold, Hf.
  destruct (negb _); [done|]. cbn zeta.
  by destruct (record w fileID) as [[?|]|].
Qed.

Lemma loadMetadata_faults fileID w :
  faults w = [] -> faults (snd (loadMetadata fileID w)) = [].
Proof.
  intros Hf. rewrite loadMetadata_unfold, Hf.
  destruct (negb _); [done|]. cbn zeta. cbn [hd].
  destruct (record w fileID) as [[?|]|]; cbn; by rewrite Hf.
Qed.

(** What loadMetadata returns is a sidecar of the directory. *)
Lemma loadMetadata_Ok fileID w m :
  fst (loadMetadata fileID w) = Ok m ->
  isValidFileID fileID = true /\ record w fileID = Some (Sidecar m).
Proof.
  rewrite loadMetadata_unfold.
  destruct (isValidFileID fileID); [|discriminate]. cbn [negb]. cbn zeta.
  destruct (hd false (faults w)); [discriminate|].
  destruct (record w fileID) as [[?|]|]; cbn; intros [=]; by subst.
Qed.

Lemma owned_iff_hash m apiKey :
  isOwnedByAPIKey (Some m) apiKey = true <-> APIKey m = hashAPIKey apiKey.
Proof.
  split; [|apply owner_owns].
  unfold isOwnedByAPIKey.
  destruct (decide (APIKey m = "")) as [E|E]; intros H;
    apply bool_decide_eq_true in H; [|done].
  subst apiKey. by rewrite E.
Qed.

Lemma ListFiles_loop_onDisk md now entries : forall files w,
  metadataDir w = md ->
  Forall (fun m => exists fileID, isValidFileID fileID = true /\
                     md !! (fileID +:+ MetadataFileExtension)
                     = Some (Sidecar m)) files ->
  Forall (fun m => exists fileID, isValidFileID fileID = true /\
                     md !! (fileID +:+ MetadataFileExtension)
                     = Some (Sidecar m))
         (fst (ListFiles_loop now entries files w)).
Proof.
  induction entries as [|name rest IH]; intros files w Hmd Hfiles; [done|].
  cbn [ListFiles_loop].
  destruct (negb (Strings.HasSuffix name MetadataFileExtension)); [by apply IH|].
  pose proof (loadMetadata_dirs (Strings.TrimSuffix name MetadataFileExtension) w)
    as (_ & Hm & _).
  pose proof (loadMetadata_Ok (Strings.TrimSuffix name MetadataFileExtension) w)
    as Hok.
  destruct (loadMetadata _ w) as [[m|e] w1]; cbn [fst snd] in *;
    [|apply IH; [congruence|done]].
  destruct (isExpired (Some m) now); [apply IH; [congruence|done]|].
  apply IH; [congruence|]. apply Forall_app. split; [done|].
  constructor; [|constructor].
  destruct (Hok m eq_refl) as [Hv Hr]. unfold record in Hr. subst md. eauto.
Qed.

(** X7.  What ListFilesForAPIKey lists, in any world: every record it
    returns passes isOwnedByAPIKey for the caller (the filter of the
    listing and the ownership test of the reads agree), has not expired at
    the time the listing reads the clock, and is the sidecar of a valid
    id; the two directories are left as they were. *)
Theorem listed_records_belong_to_the_caller apiKey w files :
  fst (ListFilesForAPIKey apiKey w) = Ok files ->
  Forall (fun m =>
            isOwnedByAPIKey (Some m) apiKey = true /\
            ~ ExpiresAt m < nextNow w /\
            exists fileID, isValidFileID fileID = true /\
                           record w fileID = Some (Sidecar m)) files /\
  filesDir (snd (ListFilesForAPIKey apiKey w)) = filesDir w /\
  metadataDir (snd (ListFilesForAPIKey apiKey w)) = metadataDir w.
Proof.
  unfold ListFilesForAPIKey.
  pose proof (ListFiles_unexpired w) as Hlive.
  pose proof (ListFiles_dirs w) as Hdirs.
  assert (match fst (ListFiles w) with
          | Ok all =>
              Forall (fun m => exists fileID, isValidFileID fileID = true /\
                        record w fileID = Some (Sidecar m)) all
          | Err _ => True
          end) as Hdisk.
  { unfold ListFiles, os_ReadDir.
    pose proof (enter_dirs (SysReadDir MetadataDir) w) as (_ & Hm & _).
    destruct (enter _ w) as [bad w1]; cbn [snd] in *.
    destruct bad; [done|].
    pose proof (time_Now_dirs w1) as [_ Hm'].
    destruct (time_Now w1) as [now w2]; cbn [snd] in *.
    pose proof (ListFiles_loop_onDisk (metadataDir w) now
                  (sorted_names (metadataDir w1)) [] w2
                  ltac:(congruence) ltac:(constructor)) as Hall.
    destruct (ListFiles_loop _ _ _ _) as [all w3]. exact Hall. }
  destruct (ListFiles w) as [[all|e] w1]; cbn [fst snd] in *; [|discriminate].
  intros [= <-]. split; [|done].
  apply Forall_forall. intros m Hin.
  apply list_elem_of_filter in Hin as [Hkey Hin].
  rewrite Forall_forall in Hlive, Hdisk.
  split; [by apply owner_owns|]. split; [by apply Hlive|by apply Hdisk].
Qed.


Lemma ListFiles_loop_mono now entries m : forall files w,
  m ∈ files -> m ∈ fst (ListFiles_loop now entries files w).
Proof.
  induction entries as [|name rest IH]; intros files w Hin; [done|].
  cbn [ListFiles_loop].
  destruct (negb (Strings.HasSuffix name MetadataFileExtension)); [by apply IH|].
  destruct (loadMetadata _ w) as [[m'|e] w1]; [|by apply IH].
  destruct (isExpired (Some m') now); [by apply IH|].
  apply IH. apply elem_of_app. by left.
Qed.

Lemma ListFiles_loop_complete now fileID m entries : forall files w,
  faults w = [] ->
  isValidFileID fileID = true ->
  record w fileID = Some (Sidecar m) ->
  isExpired (Some m) now = false ->
  (fileID +:+ MetadataFileExtension) ∈ entries ->
  m ∈ fst (ListFiles_loop now entries files w).
Proof.
  induction entries as [|name rest IH]; intros files w Hq Hv Hr Hlive Hin.
  { by apply elem_of_nil in Hin. }
  cbn [ListFiles_loop].
  pose proof (loadMetadata_dirs (Strings.TrimSuffix name MetadataFileExtension) w)
    as (_ & Hm & _).
  pose proof (loadMetadata_faults (Strings.TrimSuffix name MetadataFileExtension)
                w Hq) as Hq'.
  destruct (decide (name = fileID +:+ MetadataFileExtension)) as [->|Hne].
  - rewrite HasSuffix_append, TrimSuffix_append in *. cbn [negb].
    pose proof (loadMetadata_goes_through fileID w) as Hload.
    rewrite Hq, Hv, Hr in Hload. cbn in Hload. specialize (Hload eq_refl).
    destruct (loadMetadata fileID w) as [r w1]; cbn [fst snd] in *. subst r.
    rewrite Hlive. apply ListFiles_loop_mono, elem_of_app. right.
    by apply list_elem_of_singleton.
  - apply elem_of_cons in Hin as [Hin|Hin]; [congruence|].
    destruct (negb (Strings.HasSuffix name MetadataFileExtension));
      [by apply IH|].
    destruct (loadMetadata _ w) as [[m'|e] w1]; cbn [snd] in *.
    + destruct (isExpired (Some m') now);
        apply IH; try done; unfold record in *; congruence.
    + apply IH; try done. unfold record in *. congruence.
Qed.

Lemma GetFileForAPIKey_Ok fileID apiKey w m :
  fst (GetFileForAPIKey fileID apiKey w) = Ok m ->
  isValidFileID fileID = true /\
  record w fileID = Some (Sidecar m) /\
  isOwnedByAPIKey (Some m) apiKey = true /\
  ~ ExpiresAt m < nextNow w.
Proof.
  unfold GetFileForAPIKey, GetFile.
  pose proof (loadMetadata_Ok fileID w) as Hok.
  pose proof (loadMetadata_dirs fileID w) as (_ & _ & Hnow).
  destruct (loadMetadata fileID w) as [[m'|e] w1]; cbn [fst snd] in *.
  - destruct (Hok m' eq_refl) as [Hv Hr].
    destruct (isOwnedByAPIKey (Some m') apiKey) eqn:Hown; cbn [negb];
      [|discriminate].
    unfold nextNow in Hnow.
    destruct (time_Now w1) as [now w2]; cbn [fst] in *. subst now.
    cbn [isExpired].
    destruct (Z.ltb_spec (ExpiresAt m') (fst (time_Now w))); [discriminate|].
    intros [= <-]. unfold nextNow. repeat split; try done. lia.
  - destruct (errors_Is e ErrFileNotFound); discriminate.
Qed.

(** X8.  The listing is complete.  When no system call fails, a record
    that GetFileForAPIKey returns to a caller is among those
    ListFilesForAPIKey lists for the same caller. *)
Theorem readable_records_are_listed fileID apiKey w m :
  faults w = [] ->
  fst (GetFileForAPIKey fileID apiKey w) = Ok m ->
  exists files,
    fst (ListFilesForAPIKey apiKey w) = Ok files /\ m ∈ files.
Proof.
  intros Hq Hget.
  apply GetFileForAPIKey_Ok in Hget as (Hv & Hr & Hown & Hlive).
  unfold ListFilesForAPIKey, ListFiles, os_ReadDir.
  pose proof (enter_fst (SysReadDir MetadataDir) w) as Hbad.
  pose proof (enter_dirs (SysReadDir MetadataDir) w)
    as (_ & Hm & Hc & Hw & Hf & _).
  destruct (enter _ w) as [bad w1]; cbn [fst snd] in *. subst bad.
  rewrite Hq. cbn [hd].
  pose proof (ListFiles_loop_complete (fst (time_Now w1)) fileID m
                (sorted_names (metadataDir w1)) [] (snd (time_Now w1))) as Hall.
  destruct (time_Now w1) as [now w2] eqn:Hnow; cbn [fst snd] in *.
  assert (now = nextNow w) as ->.
  { unfold time_Now in Hnow. injection Hnow as <- _. unfold nextNow.
    cbn. by rewrite Hc, Hw. }
  assert (faults w2 = []) as Hq2.
  { unfold time_Now in Hnow. injection Hnow as _ <-. cbn. by rewrite Hf, Hq. }
  assert (metadataDir w2 = metadataDir w) as Hm2.
  { unfold time_Now in Hnow. injection Hnow as _ <-. by cbn. }
  destruct (ListFiles_loop _ _ _ _) as [files w3]; cbn [fst] in *.
  eexists. split; [reflexivity|].
  apply list_elem_of_filter. split; [by apply owned_iff_hash|].
  apply Hall; try done.
  - unfold record in *. congruence.
  - cbn [isExpired]. apply Z.ltb_ge. lia.
  - apply elem_of_sorted_names. rewrite Hm. unfold record in Hr. by rewrite Hr.
Qed.


(** *** Deletion *)

Ltac run_delete :=
  unfold DeleteFile, deleteFileUnsafe, os_Stat, os_Remove, enter;
  go; repeat step;
  repeat (case_decide; [try discriminate|try done]; go).

(** What deleteFileUnsafe may do to the two directories. *)
Lemma deleteFileUnsafe_dirs fileID s w :
  (filesDir (snd (deleteFileUnsafe fileID s w)) = filesDir w \/
   filesDir (snd (deleteFileUnsafe fileID s w)) = delete fileID (filesDir w)) /\
  (metadataDir (snd (deleteFileUnsafe fileID s w)) = metadataDir w \/
   metadataDir (snd (deleteFileUnsafe fileID s w))
   = delete (fileID +:+ MetadataFileExtension) (metadataDir w)).
Proof.
  unfold deleteFileUnsafe, os_Stat, os_Remove, enter.
  destruct (isValidFileID fileID); [|by auto]. go. repeat step.
  all: repeat (case_decide; [try discriminate|try done]; go).
  all: auto.
Qed.

Lemma deleteFileUnsafe_quiet fileID s w :
  faults w = [] -> isValidFileID fileID = true ->
  fst (fst (deleteFileUnsafe fileID s w)) = None /\
  faults (snd (deleteFileUnsafe fileID s w)) = [].
Proof.
  intros Hq Hv.
  unfold deleteFileUnsafe, os_Stat, os_Remove, enter.
  rewrite Hv, Hq. go. repeat step.
  all: repeat (case_decide; [try discriminate|try done]; go).
  all: auto.
Qed.

Lemma deleteFileUnsafe_nil fileID s w :
  fst (fst (deleteFileUnsafe fileID s w)) = None ->
  isValidFileID fileID = true /\
  filesDir (snd (deleteFileUnsafe fileID s w)) = delete fileID (filesDir w) /\
  metadataDir (snd (deleteFileUnsafe fileID s w))
  = delete (fileID +:+ MetadataFileExtension) (metadataDir w).
Proof.
  unfold deleteFileUnsafe, os_Stat, os_Remove, enter.
  destruct (isValidFileID fileID); [|discriminate]. go. repeat step.
  all: repeat (case_decide; [try discriminate|try done]; go).
  all: try discriminate.
  all: intros _; repeat split; try done.
  all: symmetry; by apply delete_id.
Qed.

(** X9.  A deletion that reports no error has removed both files, in any
    world: the id is valid, the content directory and the metadata
    directory are what they were less the content file and the sidecar of
    that id (a file that was absent counts as removed), and from then on
    GetFileForAPIKey answers ErrFileNotFound for that id, whoever asks,
    once its read of the metadata directory goes through. *)
Theorem deleted_means_gone fileID s w :
  fst (fst (DeleteFile fileID s w)) = None ->
  isValidFileID fileID = true /\
  filesDir (snd (DeleteFile fileID s w)) = delete fileID (filesDir w) /\
  metadataDir (snd (DeleteFile fileID s w))
  = delete (fileID +:+ MetadataFileExtension) (metadataDir w) /\
  (forall apiKey w2,
     metadataDir w2 = metadataDir (snd (DeleteFile fileID s w)) ->
     nextCallGoesThrough w2 ->
     fst (GetFileForAPIKey fileID apiKey w2) = Err ErrFileNotFound).
Proof.
  intros Hnil. unfold DeleteFile in *.
  destruct (deleteFileUnsafe_nil fileID s w Hnil) as (Hv & Hf & Hm).
  repeat split; try done.
  intros apiKey w2 Hm2 Hgo.
  destruct (GetFileForAPIKey_hidden fileID apiKey w2) as [H|[Hbad _]].
  - apply hidden_missing. unfold record. rewrite Hm2, Hm.
    apply lookup_delete_eq.
  - exact H.
  - unfold nextCallGoesThrough in Hgo. congruence.
Qed.

(** X10.  Deleting twice.  When no system call fails, DeleteFile of a
    valid id reports no error, and a second DeleteFile of the same id
    reports none either and changes neither the counter nor the two
    directories: the size of a file is taken off the counter once. *)
Theorem delete_twice fileID s w :
  faults w = [] -> isValidFileID fileID = true ->
  fst (fst (DeleteFile fileID s w)) = None /\
  DeleteFile fileID (snd (fst (DeleteFile fileID s w)))
    (snd (DeleteFile fileID s w))
  = (None, snd (fst (DeleteFile fileID s w)),
     snd (DeleteFile fileID (snd (fst (DeleteFile fileID s w)))
            (snd (DeleteFile fileID s w)))) /\
  filesDir (snd (DeleteFile fileID (snd (fst (DeleteFile fileID s w)))
                   (snd (DeleteFile fileID s w))))
  = filesDir (snd (DeleteFile fileID s w)) /\
  metadataDir (snd (DeleteFile fileID (snd (fst (DeleteFile fileID s w)))
                      (snd (DeleteFile fileID s w))))
  = metadataDir (snd (DeleteFile fileID s w)).
Proof.
  intros Hq Hv. unfold DeleteFile.
  pose proof (deleteFileUnsafe_quiet fileID s w Hq Hv) as [Hnil Hq1].
  pose proof (deleteFileUnsafe_nil fileID s w Hnil) as (_ & Hf & Hm).
  destruct (deleteFileUnsafe fileID s w) as [[e s1] w1]; cbn [fst snd] in *.
  split; [done|].
  clear Hnil.
  unfold deleteFileUnsafe, os_Stat, os_Remove, enter.
  rewrite Hv, Hq1, Hf, Hm. go. repeat (rewrite lookup_delete_eq; go).
  repeat (case_decide; [try discriminate|try done]; go).
  done.
Qed.

(** *** The hourly cleanup *)

Lemma cleanup_loop_keeps now fileID sc entries : forall s w,
  record w fileID = Some sc ->
  (forall m, sc = Sidecar m -> ~ ExpiresAt m < now) ->
  record (snd (cleanupExpiredFiles_loop now entries s w)) fileID = Some sc /\
  filesDir (snd (cleanupExpiredFiles_loop now entries s w)) !! fileID
  = filesDir w !! fileID.
Proof.
  induction entries as [|name rest IH]; intros s w Hr Hlive; [done|].
  cbn [cleanupExpiredFiles_loop].
  destruct (negb (Strings.HasSuffix name MetadataFileExtension)); [by apply IH|].
  set (f := Strings.TrimSuffix name MetadataFileExtension).
  pose proof (loadMetadata_dirs f w) as (Hf & Hm & _).
  pose proof (loadMetadata_Ok f w) as Hok.
  destruct (loadMetadata f w) as [[m'|e] w1]; cbn [fst snd] in *.
  - destruct (Hok m' eq_refl) as [Hv Hr'].
    destruct (Z.ltb_spec (ExpiresAt m') now) as [Hexp|Hexp].
    + assert (f <> fileID) as Hne.
      { intros ->. rewrite Hr in Hr'. injection Hr' as ->.
        by apply (Hlive m'). }
      pose proof (deleteFileUnsafe_dirs f s w1) as [Hf2 Hm2].
      destruct (deleteFileUnsafe f s w1) as [[e s2] w2]; cbn [snd] in *.
      destruct (IH s2 w2) as [IH1 IH2]; try done.
      * unfold record in *.
        destruct Hm2 as [->| ->]; rewrite ?Hm; [done|].
        rewrite lookup_delete_ne; [done|].
        intros E. by apply append_inj_l in E.
      * split; [done|]. rewrite IH2, <- Hf.
        destruct Hf2 as [->| ->]; [done|]. by rewrite lookup_delete_ne.
    + destruct (IH s w1) as [IH1 IH2]; try done.
      * unfold record in *. congruence.
      * split; [done|]. congruence.
  - destruct (IH s w1) as [IH1 IH2]; try done.
    + unfold record in *. congruence.
    + split; [done|]. congruence.
Qed.

(** X11.  The cleanup never touches a record that has not expired.  In
    any world, a sidecar that is unreadable, or whose record has not
    expired when cleanupExpiredFiles reads the clock, is still there
    afterwards, and so is whatever content file goes with it. *)
Theorem cleanup_keeps_live_records fileID sc s w :
  record w fileID = Some sc ->
  (forall m, sc = Sidecar m -> ~ ExpiresAt m < nextNow w) ->
  record (snd (cleanupExpiredFiles s w)) fileID = Some sc /\
  filesDir (snd (cleanupExpiredFiles s w)) !! fileID = filesDir w !! fileID.
Proof.
  intros Hr Hlive. unfold cleanupExpiredFiles, os_ReadDir.
  pose proof (enter_dirs (SysReadDir MetadataDir) w)
    as (Hf & Hm & Hc & Hw & _).
  destruct (enter _ w) as [bad w1]; cbn [fst snd] in *.
  destruct bad; cbn [snd]; [unfold record in *; split; congruence|].
  pose proof (cleanup_loop_keeps (fst (time_Now w1)) fileID sc
                (sorted_names (metadataDir w1)) s (snd (time_Now w1))) as Hloop.
  destruct (time_Now w1) as [now w2] eqn:Hnow; cbn [fst snd] in *.
  unfold time_Now in Hnow. injection Hnow as <- <-.
  destruct Hloop as [H1 H2].
  - unfold record in *. cbn. congruence.
  - unfold nextNow in Hlive. cbn in Hlive. by rewrite Hc, Hw.
  - split; [done|]. rewrite H2. cbn. by rewrite Hf.
Qed.


Lemma cleanup_loop_removes now fileID entries : forall s w,
  faults w = [] -> isValidFileID fileID = true ->
  (record w fileID = None /\ filesDir w !! fileID = None) \/
  (exists m, record w fileID = Some (Sidecar m) /\ ExpiresAt m < now /\
             (fileID +:+ MetadataFileExtension) ∈ entries) ->
  record (snd (cleanupExpiredFiles_loop now entries s w)) fileID = None /\
  filesDir (snd (cleanupExpiredFiles_loop now entries s w)) !! fileID = None.
Proof.
  induction entries as [|name rest IH]; intros s w Hq Hv Hst.
  { destruct Hst as [?|(m & _ & _ & Hin)]; [done|].
    by apply elem_of_nil in Hin. }
  cbn [cleanupExpiredFiles_loop].
  destruct (Strings.HasSuffix name MetadataFileExtension) eqn:Hsuf; cbn [negb].
  2:{ apply IH; try done. destruct Hst as [?|(m & Hr & Hexp & Hin)]; [by left|].
      right. exists m. repeat split; try done.
      apply elem_of_cons in Hin as [<-|Hin]; [|done].
      by rewrite HasSuffix_append in Hsuf. }
  set (f := Strings.TrimSuffix name MetadataFileExtension).
  assert (name = fileID +:+ MetadataFileExtension -> f = fileID) as Hname.
  { intros ->. apply TrimSuffix_append. }
  pose proof (loadMetadata_dirs f w) as (Hf & Hm & _).
  pose proof (loadMetadata_faults f w Hq) as Hq1.
  pose proof (loadMetadata_Ok f w) as Hok.
  pose proof (loadMetadata_goes_through f w) as Hload.
  rewrite Hq in Hload. specialize (Hload eq_refl).
  destruct (loadMetadata f w) as [[m'|e] w1]; cbn [fst snd] in *.
  - destruct (Hok m' eq_refl) as [Hv' Hr'].
    destruct (Z.ltb_spec (ExpiresAt m') now) as [Hexp'|Hlive'].
    + pose proof (deleteFileUnsafe_quiet f s w1 Hq1 Hv') as [Hnil Hq2].
      pose proof (deleteFileUnsafe_nil f s w1 Hnil) as (_ & Hf2 & Hm2).
      destruct (deleteFileUnsafe f s w1) as [[e s2] w2]; cbn [fst snd] in *.
      apply IH; try done. unfold record in *. rewrite Hf2, Hm2, Hf, Hm.
      destruct (decide (f = fileID)) as [->|Hne].
      { left. by rewrite !lookup_delete_eq. }
      rewrite !lookup_delete_ne; try done.
      2:{ intros E. by apply append_inj_l in E. }
      destruct Hst as [?|(m & Hr & Hexp & Hin)]; [by left|].
      right. exists m. repeat split; try done.
      apply elem_of_cons in Hin as [E|Hin]; [|done].
      symmetry in E. by apply Hname in E.
    + apply IH; try done. unfold record in *. rewrite Hf, Hm.
      destruct Hst as [?|(m & Hr & Hexp & Hin)]; [by left|].
      right. exists m. repeat split; try done.
      apply elem_of_cons in Hin as [E|Hin]; [|done].
      symmetry in E. apply Hname in E. subst f. rewrite E in Hr'.
      rewrite Hr in Hr'. injection Hr' as ->. lia.
  - apply IH; try done. unfold record in *. rewrite Hf, Hm.
    destruct Hst as [?|(m & Hr & Hexp & Hin)]; [by left|].
    right. exists m. repeat split; try done.
    apply elem_of_cons in Hin as [E|Hin]; [|done].
    symmetry in E. apply Hname in E. subst f. rewrite E in Hload.
    rewrite Hv in Hload. cbn [negb] in Hload. unfold record in Hload.
    rewrite Hr in Hload. discriminate.
Qed.

(** X12.  When no system call fails, cleanupExpiredFiles removes every
    record of a valid id that has expired when it reads the clock:
    afterwards neither its sidecar nor its content file exists. *)
Theorem cleanup_removes_expired_records fileID m s w :
  faults w = [] -> isValidFileID fileID = true ->
  record w fileID = Some (Sidecar m) -> ExpiresAt m < nextNow w ->
  record (snd (cleanupExpiredFiles s w)) fileID = None /\
  filesDir (snd (cleanupExpiredFiles s w)) !! fileID = None.
Proof.
  intros Hq Hv Hr Hexp. unfold cleanupExpiredFiles, os_ReadDir.
  pose proof (enter_fst (SysReadDir MetadataDir) w) as Hbad.
  pose proof (enter_dirs (SysReadDir MetadataDir) w)
    as (Hf & Hm & Hc & Hw & Hfa & _).
  destruct (enter _ w) as [bad w1]; cbn [fst snd] in *. subst bad.
  rewrite Hq. cbn [hd].
  pose proof (cleanup_loop_removes (fst (time_Now w1)) fileID
                (sorted_names (metadataDir w1)) s (snd (time_Now w1))) as Hloop.
  destruct (time_Now w1) as [now w2] eqn:Hnow; cbn [fst snd] in *.
  unfold time_Now in Hnow. injection Hnow as <- <-.
  apply Hloop; try done.
  - cbn. by rewrite Hfa, Hq.
  - right. exists m. unfold record, nextNow in *. cbn in *.
    rewrite Hm, Hc, Hw. repeat split; try done.
    apply elem_of_sorted_names. by rewrite Hr.
Qed.


(** *** Measuring the content directory *)

Lemma usage_sum (m : gmap string (list byte)) :
  usage m
  = Z.of_nat (sum_list_with (fun kv : string * list byte => length kv.2)
                (map_to_list m)).
Proof.
  unfold usage. rewrite map_fold_foldr.
  induction (map_to_list m) as [|[k v] l IH]; [done|].
  cbn [foldr sum_list_with uncurry snd]. rewrite IH. lia.
Qed.

Lemma sum_keys (m : gmap string (list byte)) (l : list (string * list byte)) :
  (forall k v, (k, v) ∈ l -> m !! k = Some v) ->
  sum_list_with (fun k => length (default [] (m !! k))) (l.*1)
  = sum_list_with (fun kv : string * list byte => length kv.2) l.
Proof.
  induction l as [|[k v] l IH]; intros Hl; [done|].
  cbn [fmap list_fmap sum_list_with fst snd].
  rewrite (Hl k v) by apply list_elem_of_here. cbn [default].
  rewrite IH; [done|]. intros k' v' Hin. apply Hl. by apply list_elem_of_further.
Qed.

Lemma usage_sorted_names (m : gmap string (list byte)) :
  usage m
  = Z.of_nat (sum_list_with (fun k => length (default [] (m !! k)))
                (sorted_names m)).
Proof.
  unfold sorted_names. rewrite merge_sort_Permutation.
  change (map fst (map_to_list m)) with ((map_to_list m).*1).
  rewrite sum_keys, usage_sum; [done|].
  intros k v. apply elem_of_map_to_list.
Qed.

Lemma calculateTotalSize_loop_quiet entries : forall total w,
  faults w = [] ->
  (forall k, k ∈ entries -> is_Some (filesDir w !! k)) ->
  0 <= total ->
  total + Z.of_nat (sum_list_with
                      (fun k => length (default [] (filesDir w !! k))) entries)
  < 2 ^ 63 ->
  fst (calculateTotalSize_loop entries total w)
  = total + Z.of_nat (sum_list_with
                        (fun k => length (default [] (filesDir w !! k)))
                        entries) /\
  filesDir (snd (calculateTotalSize_loop entries total w)) = filesDir w /\
  metadataDir (snd (calculateTotalSize_loop entries total w)) = metadataDir w.
Proof.
  induction entries as [|name rest IH]; intros total w Hq Hin Hpos Hfit.
  { cbn. split; [lia|done]. }
  cbn [calculateTotalSize_loop sum_list_with] in *.
  destruct (Hin name) as [data Hdata]; [apply list_elem_of_here|].
  rewrite Hdata in *. cbn [default] in *.
  unfold os_Stat, enter. rewrite Hq. go. rewrite Hdata. go.
  change (id data) with data in *.
  rewrite wrap64_id by (unfold int64; lia).
  match goal with
  | |- context [calculateTotalSize_loop rest ?t ?w1] =>
      destruct (IH t w1) as (H1 & H2 & H3)
  end; cbn [filesDir faults]; try done; try lia.
  - intros k Hk. apply Hin. by apply list_elem_of_further.
  - rewrite H1, H2, H3. cbn. split; [lia|done].
Qed.

Lemma calculateTotalSize_quiet s w :
  faults w = [] -> diskUsage w < 2 ^ 63 ->
  fst (fst (calculateTotalSize s w)) = None /\
  sizeInvariant (snd (fst (calculateTotalSize s w)))
                (snd (calculateTotalSize s w)) /\
  expirationHours (snd (fst (calculateTotalSize s w))) = expirationHours s /\
  maxTotalSizeMB (snd (fst (calculateTotalSize s w))) = maxTotalSizeMB s /\
  filesDir (snd (calculateTotalSize s w)) = filesDir w /\
  metadataDir (snd (calculateTotalSize s w)) = metadataDir w.
Proof.
  intros Hq Hfit. unfold calculateTotalSize, os_ReadDir, enter.
  rewrite Hq. go.
  match goal with
  | |- context [calculateTotalSize_loop ?l 0 ?w1] =>
      destruct (calculateTotalSize_loop_quiet l 0 w1) as (H1 & H2 & H3)
  end; cbn [filesDir faults]; try done.
  - intros k. apply elem_of_sorted_names.
  - rewrite <- usage_sorted_names. exact Hfit.
  - destruct (calculateTotalSize_loop _ _ _) as [total w2]; cbn [fst snd] in *.
    repeat split; try done.
    unfold sizeInvariant, diskUsage. cbn. rewrite H1, H2.
    by rewrite <- usage_sorted_names.
Qed.

(** X14.  calculateTotalSize sets the counter to the bytes on disk.  When
    no system call fails and the total fits an int64, it reports no error,
    the counter then equals the bytes held by the content directory, and
    nothing else changes (retention, quota, both directories).  When the
    directory cannot be read it reports the wrapped error and leaves the
    store as it was. *)
Theorem calculateTotalSize_measures_disk s w :
  (faults w = [] -> diskUsage w < 2 ^ 63 ->
   fst (fst (calculateTotalSize s w)) = None /\
   sizeInvariant (snd (fst (calculateTotalSize s w)))
                 (snd (calculateTotalSize s w)) /\
   expirationHours (snd (fst (calculateTotalSize s w))) = expirationHours s /\
   maxTotalSizeMB (snd (fst (calculateTotalSize s w))) = maxTotalSizeMB s /\
   filesDir (snd (calculateTotalSize s w)) = filesDir w /\
   metadataDir (snd (calculateTotalSize s w)) = metadataDir w) /\
  (hd false (faults w) = true ->
   fst (calculateTotalSize s w)
   = (Some (ErrWrap "failed to read files directory" (ErrSyscall "readdir")),
      s) /\
   filesDir (snd (calculateTotalSize s w)) = filesDir w).
Proof.
  split; [apply calculateTotalSize_quiet|].
  intros Hbad. unfold calculateTotalSize, os_ReadDir, enter.
  rewrite Hbad. done.
Qed.

(** X15.  The store NewGeminiFileStore builds, once its directories
    exist: its retention is positive (the number of hours asked for, or
    DefaultFileExpirationHours when that is zero or negative), its quota
    is the one asked for, and when no system call fails its counter equals
    the bytes already on disk. *)
Theorem new_store_settings hours quota w :
  0 < expirationHours (fst (NewGeminiFileStore hours quota w)) /\
  (0 < hours -> expirationHours (fst (NewGeminiFileStore hours quota w)) = hours) /\
  (hours <= 0 ->
   expirationHours (fst (NewGeminiFileStore hours quota w))
   = DefaultFileExpirationHours) /\
  maxTotalSizeMB (fst (NewGeminiFileStore hours quota w)) = quota /\
  (faults w = [] -> diskUsage w < 2 ^ 63 ->
   sizeInvariant (fst (NewGeminiFileStore hours quota w))
                 (snd (NewGeminiFileStore hours quota w))).
Proof.
  unfold NewGeminiFileStore.
  set (st := {| expirationHours := _; maxTotalSizeMB := quota;
                currentTotalSize := 0 |}).
  assert (0 < expirationHours st /\
          (0 < hours -> expirationHours st = hours) /\
          (hours <= 0 -> expirationHours st = DefaultFileExpirationHours))
    as (E1 & E2 & E3).
  { subst st. cbn. destruct (Z.leb_spec hours 0); repeat split; try lia; done. }
  pose proof (calculateTotalSize_quiet st w) as Hcalc.
  assert (expirationHours (snd (fst (calculateTotalSize st w)))
          = expirationHours st /\
          maxTotalSizeMB (snd (fst (calculateTotalSize st w))) = quota)
    as [K1 K2].
  { unfold calculateTotalSize.
    destruct (os_ReadDir FilesDir w) as [[l|e] w1]; [|done].
    by destruct (calculateTotalSize_loop l 0 w1). }
  destruct (calculateTotalSize st w) as [[e st'] w']; cbn [fst snd] in *.
  rewrite K1. repeat split; try done.
  intros Hq Hfit. by destruct (Hcalc Hq Hfit) as (_ & ? & _).
Qed.


(** *** Failed and successful saves *)

Lemma SaveFile_Err_quiet content name mimeType displayName apiKey s w e :
  faults w = [] ->
  filesDir w !! (fst (GenerateFileID w) +:+ ".tmp") = None ->
  fst (fst (SaveFile content name mimeType displayName apiKey s w)) = Err e ->
  snd (fst (SaveFile content name mimeType displayName apiKey s w)) = s /\
  filesDir (snd (SaveFile content name mimeType displayName apiKey s w))
  = filesDir w /\
  metadataDir (snd (SaveFile content name mimeType displayName apiKey s w))
  = metadataDir w /\
  (e = ErrWrap "failed to write file content" ErrReader \/
   e = ErrMsg (quotaMessage s)).
Proof.
  intros Hq Htmp.
  pose proof (temp_name_differs (fst (GenerateFileID w))) as Hne.
  revert Htmp Hne.
  unfold SaveFile, generateFileID, GenerateFileID, SaveFile_written,
    saveMetadata, os_Create, io_Copy, os_Rename, os_WriteFile, os_Remove,
    time_Now, enter.
  rewrite Hq. go. intros Htmp Hne. repeat step.
  all: repeat match goal with
    | H : <[?k:=_]> _ !! ?k = _ |- _ => rewrite lookup_insert_eq in H
    | H : delete ?k _ !! ?k = _ |- _ => rewrite lookup_delete_eq in H
    | H : <[?k:=_]> _ !! ?k' = _ |- _ =>
        rewrite (lookup_insert_ne _ k k') in H by exact Hne
    | H : delete ?k _ !! ?k' = _ |- _ =>
        rewrite (lookup_delete_ne _ k k') in H by exact Hne
    | H : Some _ = Some _ |- _ => injection H as <-
    | H : Some _ = None |- _ => discriminate H
    | H : None = Some _ |- _ => discriminate H
    end.
  all: intros E; try discriminate E; injection E as <-.
  all: rewrite ?delete_insert_eq, ?(delete_id _ _ Htmp).
  all: rewrite ?delete_insert_eq, ?(delete_id _ _ Htmp).
  all: auto.
Qed.

(** X4.  A failed save leaves nothing behind.  When no system call fails
    and the temporary name is free, a SaveFile that returns an error has
    changed neither the counter nor the two directories; the error is the
    wrapped failure of the content stream or the quota message. *)
Theorem failed_save_leaves_no_trace
    content name mimeType displayName apiKey s w e :
  faults w = [] ->
  filesDir w !! (fst (GenerateFileID w) +:+ ".tmp") = None ->
  fst (fst (SaveFile content name mimeType displayName apiKey s w)) = Err e ->
  snd (fst (SaveFile content name mimeType displayName apiKey s w)) = s /\
  filesDir (snd (SaveFile content name mimeType displayName apiKey s w))
  = filesDir w /\
  metadataDir (snd (SaveFile content name mimeType displayName apiKey s w))
  = metadataDir w /\
  (e = ErrWrap "failed to write file content" ErrReader \/
   e = ErrMsg (quotaMessage s)).
Proof. apply SaveFile_Err_quiet. Qed.


Lemma SaveFile_content content name mimeType displayName apiKey s w m s1 w1 :
  SaveFile content name mimeType displayName apiKey s w = (Ok m, s1, w1) ->
  filesDir w1 !! FileID m = Some (r_data content).
Proof.
  pose proof (temp_name_differs (fst (GenerateFileID w))) as Hne.
  revert Hne.
  unfold SaveFile, generateFileID, GenerateFileID, SaveFile_written,
    saveMetadata, os_Create, io_Copy, os_Rename, os_WriteFile, os_Remove,
    time_Now, enter.
  go. intros Hne. repeat step.
  all: intros H; try discriminate H.
  all: injection H as <- <- <-; go.
  all: repeat match goal with
    | H : <[?k:=_]> _ !! ?k = _ |- _ => rewrite lookup_insert_eq in H
    | H : delete ?k _ !! ?k = _ |- _ => rewrite lookup_delete_eq in H
    | H : <[?k:=_]> _ !! ?k' = _ |- _ =>
        rewrite (lookup_insert_ne _ k k') in H by exact Hne
    | H : delete ?k _ !! ?k' = _ |- _ =>
        rewrite (lookup_delete_ne _ k k') in H by exact Hne
    | H : Some _ = Some _ |- _ => injection H as <-
    | H : Some _ = None |- _ => discriminate H
    | H : None = Some _ |- _ => discriminate H
    end.
  all: repeat first
    [ rewrite lookup_insert_eq
    | rewrite lookup_delete_ne by done ]; done.
Qed.



Lemma usage_delete_le (files : gmap string (list byte)) k :
  usage (delete k files) <= usage files.
Proof.
  destruct (files !! k) as [data|] eqn:Hk.
  - rewrite (usage_delete _ _ _ Hk). lia.
  - by rewrite delete_id.
Qed.

Lemma cleanup_loop_sizeInvariant now entries : forall s w,
  faults w = [] -> sizeInvariant s w -> currentTotalSize s < 2 ^ 63 ->
  sizeInvariant (fst (cleanupExpiredFiles_loop now entries s w))
                (snd (cleanupExpiredFiles_loop now entries s w)).
Proof.
  induction entries as [|name rest IH]; intros s w Hq Hinv Hfit; [done|].
  cbn [cleanupExpiredFiles_loop].
  destruct (negb (Strings.HasSuffix name MetadataFileExtension)); [by apply IH|].
  set (f := Strings.TrimSuffix name MetadataFileExtension).
  pose proof (loadMetadata_dirs f w) as (Hf & Hm & _).
  pose proof (loadMetadata_faults f w Hq) as Hq1.
  pose proof (loadMetadata_Ok f w) as Hok.
  assert (forall w', filesDir w' = filesDir w -> sizeInvariant s w') as Hinv'.
  { intros w' E. unfold sizeInvariant, diskUsage in *. by rewrite E. }
  destruct (loadMetadata f w) as [[m'|e] w1]; cbn [fst snd] in *;
    [|by apply IH; auto].
  destruct (ExpiresAt m' <? now); [|by apply IH; auto].
  destruct (Hok m' eq_refl) as [Hv _].
  pose proof (usage_nonneg (filesDir w1)) as Hpos.
  assert (int64 (currentTotalSize s)) as Hcur.
  { specialize (Hinv' w1 Hf). unfold sizeInvariant, diskUsage, int64 in *. lia. }
  pose proof (deleteFileUnsafe_keeps_sizeInvariant f s w1 (Hinv' w1 Hf) Hq1
                Hcur) as Hdel.
  pose proof (deleteFileUnsafe_quiet f s w1 Hq1 Hv) as [Hnil Hq2].
  pose proof (deleteFileUnsafe_nil f s w1 Hnil) as (_ & Hf2 & _).
  destruct (deleteFileUnsafe f s w1) as [[e s2] w2]; cbn [fst snd] in *.
  apply IH; try done.
  unfold sizeInvariant, diskUsage in *. rewrite Hdel, Hf2, Hf.
  pose proof (usage_delete_le (filesDir w) f). lia.
Qed.

(** X13.  When no system call fails, cleanupExpiredFiles leaves the
    counter equal to the bytes on disk if it was so before. *)
Theorem cleanup_keeps_sizeInvariant s w :
  faults w = [] -> sizeInvariant s w -> currentTotalSize s < 2 ^ 63 ->
  sizeInvariant (fst (cleanupExpiredFiles s w))
                (snd (cleanupExpiredFiles s w)).
Proof.
  intros Hq Hinv Hfit. unfold cleanupExpiredFiles, os_ReadDir, enter.
  rewrite Hq. go.
  apply cleanup_loop_sizeInvariant; try done.
Qed.


(** *** The theorems above, on the saved "hello" *)

Lemma helloSaved :
  SaveFile (text "hello") "a.txt" "text/plain" "a.txt" "key-a"
    freshStore emptyWorld = (Ok helloRecord, helloStore, helloWorld).
Proof. vm_compute. reflexivity. Qed.

Lemma saved_file_is_on_disk_witness :
  filesDir helloWorld !! FileID helloRecord = Some (Bytes.of_string "hello") /\
  filesDir helloWorld !! (FileID helloRecord +:+ ".tmp") = None /\
  record helloWorld (FileID helloRecord) = Some (Sidecar helloRecord).
Proof.
  destruct (saved_file_is_on_disk _ _ _ _ _ _ _ _ _ _ helloSaved)
    as (_ & _ & _ & _ & H1 & H2 & H3 & _).
  exact (conj H1 (conj H2 H3)).
Defined.

Lemma helloRead :
  fst (ReadFileBytesForAPIKey helloID "key-a" 5 helloWorld)
  = Ok (Bytes.of_string "hello", helloRecord).
Proof. vm_compute. reflexivity. Qed.

Lemma bounded_read_is_bounded_witness :
  fst (ReadFileBytesForAPIKey helloID "key-a" 5 helloWorld)
  = Ok (Bytes.of_string "hello", helloRecord) /\
  Z.of_nat (length (Bytes.of_string "hello")) <= 5 /\
  filesDir helloWorld !! helloID = Some (Bytes.of_string "hello").
Proof.
  split; [exact helloRead|].
  destruct (bounded_read_is_bounded _ _ _ _ _ _ helloRead)
    as (_ & _ & Hfit & Hdata).
  split; [apply Hfit; reflexivity|apply Hdata; reflexivity].
Defined.

Lemma helloListed :
  fst (ListFilesForAPIKey "key-a" helloWorld) = Ok [helloRecord].
Proof. vm_compute. reflexivity. Qed.

Lemma listed_records_belong_to_the_caller_witness :
  fst (ListFilesForAPIKey "key-a" helloWorld) = Ok [helloRecord] /\
  isOwnedByAPIKey (Some helloRecord) "key-a" = true.
Proof.
  split; [exact helloListed|].
  destruct (listed_records_belong_to_the_caller _ _ _ helloListed) as [H _].
  apply Forall_cons in H as [(Hown & _) _]. exact Hown.
Defined.

Lemma helloGot :
  fst (GetFileForAPIKey helloID "key-a" helloWorld) = Ok helloRecord.
Proof. vm_compute. reflexivity. Qed.

Lemma readable_records_are_listed_witness :
  faults helloWorld = [] /\
  fst (GetFileForAPIKey helloID "key-a" helloWorld) = Ok helloRecord /\
  exists files,
    fst (ListFilesForAPIKey "key-a" helloWorld) = Ok files /\
    helloRecord ∈ files.
Proof.
  split; [reflexivity|]. split; [exact helloGot|].
  exact (readable_records_are_listed helloID "key-a" helloWorld helloRecord
           eq_refl helloGot).
Defined.

Lemma helloDeleted :
  fst (fst (DeleteFile helloID helloStore helloWorld)) = None.
Proof. vm_compute. reflexivity. Qed.

Lemma deleted_means_gone_witness :
  fst (fst (DeleteFile helloID helloStore helloWorld)) = None /\
  filesDir (snd (DeleteFile helloID helloStore helloWorld))
  = delete helloID (filesDir helloWorld) /\
  fst (GetFileForAPIKey helloID "key-a"
         (snd (DeleteFile helloID helloStore helloWorld)))
  = Err ErrFileNotFound.
Proof.
  split; [exact helloDeleted|].
  destruct (deleted_means_gone _ _ _ helloDeleted) as (_ & Hf & _ & Hget).
  split; [exact Hf|]. apply Hget; reflexivity.
Defined.

Lemma delete_twice_witness :
  faults helloWorld = [] /\ isValidFileID helloID = true /\
  fst (fst (DeleteFile helloID helloStore helloWorld)) = None /\
  fst (fst (DeleteFile helloID
              (snd (fst (DeleteFile helloID helloStore helloWorld)))
              (snd (DeleteFile helloID helloStore helloWorld)))) = None.
Proof.
  split; [reflexivity|]. split; [reflexivity|].
  destruct (delete_twice helloID helloStore helloWorld eq_refl eq_refl)
    as (H1 & H2 & _).
  split; [exact H1|]. rewrite H2. reflexivity.
Defined.

Lemma cleanup_keeps_live_records_witness :
  record helloWorld helloID = Some (Sidecar helloRecord) /\
  ~ ExpiresAt helloRecord < nextNow helloWorld /\
  record (snd (cleanupExpiredFiles helloStore helloWorld)) helloID
  = Some (Sidecar helloRecord) /\
  filesDir (snd (cleanupExpiredFiles helloStore helloWorld)) !! helloID
  = filesDir helloWorld !! helloID.
Proof.
  assert (record helloWorld helloID = Some (Sidecar helloRecord)) as Hr
    by (vm_compute; reflexivity).
  assert (~ ExpiresAt helloRecord < nextNow helloWorld) as Hlive
    by (vm_compute; discriminate).
  split; [exact Hr|]. split; [exact Hlive|].
  apply (cleanup_keeps_live_records helloID (Sidecar helloRecord)
           helloStore helloWorld Hr).
  intros m [= <-]. exact Hlive.
Defined.

Lemma cleanup_removes_expired_records_witness :
  faults expiredWorld = [] /\ isValidFileID helloID = true /\
  record expiredWorld helloID = Some (Sidecar helloRecord) /\
  ExpiresAt helloRecord < nextNow expiredWorld /\
  record (snd (cleanupExpiredFiles helloStore expiredWorld)) helloID = None /\
  filesDir (snd (cleanupExpiredFiles helloStore expiredWorld)) !! helloID = None.
Proof.
  assert (record expiredWorld helloID = Some (Sidecar helloRecord)) as Hr
    by (vm_compute; reflexivity).
  assert (ExpiresAt helloRecord < nextNow expiredWorld) as Hexp
    by (vm_compute; reflexivity).
  split; [reflexivity|]. split; [reflexivity|].
  split; [exact Hr|]. split; [exact Hexp|].
  exact (cleanup_removes_expired_records helloID helloRecord helloStore
           expiredWorld eq_refl eq_refl Hr Hexp).
Defined.

Lemma calculateTotalSize_measures_disk_witness :
  faults helloWorld = [] /\ diskUsage helloWorld < 2 ^ 63 /\
  currentTotalSize (snd (fst (calculateTotalSize freshStore helloWorld))) = 5.
Proof.
  assert (diskUsage helloWorld < 2 ^ 63) as Hfit by (vm_compute; reflexivity).
  split; [reflexivity|]. split; [exact Hfit|].
  destruct (proj1 (calculateTotalSize_measures_disk freshStore helloWorld)
              eq_refl Hfit) as (_ & Hinv & _ & _ & Hf & _).
  unfold sizeInvariant, diskUsage in Hinv. rewrite Hinv, Hf.
  vm_compute. reflexivity.
Defined.

Lemma failed_save_leaves_no_trace_witness :
  faults emptyWorld = [] /\
  fst (fst (SaveFile (text "hello") "a.txt" "text/plain" "a.txt" "key-a"
              nearlyFullStore emptyWorld))
  = Err (ErrMsg "storage quota exceeded: current 0 MB, limit 1 MB") /\
  filesDir (snd (SaveFile (text "hello") "a.txt" "text/plain" "a.txt" "key-a"
                   nearlyFullStore emptyWorld)) = filesDir emptyWorld.
Proof.
  assert (fst (fst (SaveFile (text "hello") "a.txt" "text/plain" "a.txt"
                      "key-a" nearlyFullStore emptyWorld))
          = Err (ErrMsg "storage quota exceeded: current 0 MB, limit 1 MB"))
    as Herr by (vm_compute; reflexivity).
  split; [reflexivity|]. split; [exact Herr|].
  destruct (failed_save_leaves_no_trace (text "hello") "a.txt" "text/plain"
              "a.txt" "key-a" nearlyFullStore emptyWorld _ eq_refl eq_refl Herr)
    as (_ & Hf & _).
  exact Hf.
Defined.


Lemma cleanup_keeps_sizeInvariant_witness :
  faults expiredWorld = [] /\ sizeInvariant helloStore expiredWorld /\
  currentTotalSize helloStore < 2 ^ 63 /\
  sizeInvariant (fst (cleanupExpiredFiles helloStore expiredWorld))
                (snd (cleanupExpiredFiles helloStore expiredWorld)) /\
  currentTotalSize (fst (cleanupExpiredFiles helloStore expiredWorld)) = 0.
Proof.
  assert (sizeInvariant helloStore expiredWorld) as Hinv
    by (vm_compute; reflexivity).
  assert (currentTotalSize helloStore < 2 ^ 63) as Hfit
    by (vm_compute; reflexivity).
  split; [reflexivity|]. split; [exact Hinv|]. split; [exact Hfit|].
  split; [exact (cleanup_keeps_sizeInvariant helloStore expiredWorld
                   eq_refl Hinv Hfit)|].
  vm_compute. reflexivity.
Defined.

End StoreExtras.

(** * Further properties of the payload rewriter *)

Section RewriterExtras.
Import filestore Spec JSON rewriter RewriteSpec Served.

Lemma loadInlineFile_dirs apiKey ref w :
  filesDir (snd (loadInlineFile apiKey ref w)) = filesDir w /\
  metadataDir (snd (loadInlineFile apiKey ref w)) = metadataDir w.
Proof.
  unfold loadInlineFile.
  pose proof (ReadFileBytesForAPIKey_dirs
                (Strings.TrimPrefix (fileURI ref) "files/") apiKey
                maxInlineFileBytes w) as Hd.
  destruct (ReadFileBytesForAPIKey _ _ _ w) as [[[data m]|e] w1]; exact Hd.
Qed.

Lemma applyRefs_dirs apiKey refs : forall out w,
  filesDir (snd (applyRefs out apiKey refs w)) = filesDir w /\
  metadataDir (snd (applyRefs out apiKey refs w)) = metadataDir w.
Proof.
  induction refs as [|r refs IH]; intros out w; [done|].
  cbn [applyRefs]. unfold inlineLocalFilePart.
  pose proof (loadInlineFile_dirs apiKey r w) as [Hf Hm].
  destruct (loadInlineFile apiKey r w) as [[[data mt]|e] w1]; cbn [snd] in *;
    [|done].
  destruct (IH (applyInlineData out r mt data) w1) as [Hf' Hm'].
  split; congruence.
Qed.

Lemma applyRefs_Ok apiKey refs : forall j w out,
  fst (applyRefs j apiKey refs w) = Ok out ->
  forall r, r ∈ refs -> servedTo w apiKey r.
Proof.
  induction refs as [|r refs IH]; intros j w out Hrun r0 Hin.
  { by apply elem_of_nil in Hin. }
  cbn [applyRefs] in Hrun. unfold inlineLocalFilePart, loadInlineFile in Hrun.
  pose proof (ReadFileBytesForAPIKey_dirs (fileIDOf r) apiKey
                maxInlineFileBytes w) as [Hf Hm].
  pose proof (ReadFileBytesForAPIKey_Ok (fileIDOf r) apiKey
                maxInlineFileBytes w) as Hok.
  unfold fileIDOf in *.
  destruct (ReadFileBytesForAPIKey _ _ _ w) as [[[data m]|e] w1];
    cbn [fst snd] in *; [|discriminate].
  apply elem_of_cons in Hin as [-> |Hin].
  - destruct (Hok data m eq_refl) as (Hr & Hown & Hfit & Hdata).
    exists data, m. unfold fileIDOf.
    destruct Hfit as [? ?]; [reflexivity|].
    repeat split; try done. apply Hdata. reflexivity.
  - destruct (IH _ _ _ Hrun r0 Hin) as (data' & m' & Hr & Hown & Hd & Hfit).
    exists data', m'. unfold record, fileIDOf in *.
    rewrite Hf, Hm in *. done.
Qed.

Lemma applyRefs_Err apiKey refs : forall j w e,
  fst (applyRefs j apiKey refs w) = Err e ->
  e = ErrFileNotFound \/ e = ErrFileTooLarge \/
  exists cause,
    e = ErrWrap "read local file" cause /\
    errors_Is cause ErrFileNotFound = false /\
    errors_Is cause ErrFileTooLarge = false.
Proof.
  induction refs as [|r refs IH]; intros j w e Hrun; [discriminate|].
  cbn [applyRefs] in Hrun. unfold inlineLocalFilePart, loadInlineFile in Hrun.
  destruct (ReadFileBytesForAPIKey _ _ _ w) as [[[data m]|e0] w1];
    cbn [fst snd] in *.
  - by eapply IH.
  - injection Hrun as <-. unfold normalizeReadError.
    destruct (errors_Is e0 ErrFileNotFound) eqn:E1; [by left|].
    destruct (errors_Is e0 ErrFileTooLarge) eqn:E2; [by right; left|].
    right. right. by exists e0.
Qed.

(** X16.  The rewriter only reads.  In any world, with or without a local
    store, rewriteLocalFileParts leaves the content directory and the
    metadata directory as they were; and a payload in which no part refers
    to a local file is returned as it is, without a single system call. *)
Theorem rewrite_leaves_the_store_alone payload store apiKey w :
  filesDir (snd (rewriteLocalFileParts payload store apiKey w)) = filesDir w /\
  metadataDir (snd (rewriteLocalFileParts payload store apiKey w))
  = metadataDir w /\
  (findLocalFilePartRefs payload = [] ->
   rewriteLocalFileParts payload store apiKey w = (Ok payload, w)).
Proof.
  unfold rewriteLocalFileParts, applyLocalFilePartRefs.
  destruct store; cbn [negb]; [|done].
  pose proof (applyRefs_dirs apiKey (findLocalFilePartRefs payload) payload w)
    as [Hf Hm].
  repeat split; try done. by intros ->.
Qed.

(** X17.  What the outcome of a rewrite says, in any world.  If
    rewriteLocalFileParts returns a payload, then every reference of the
    request names a record of the caller whose content file exists and is
    within the ceiling of 20 MB: no request is answered with bytes of a
    file the store does not count as the caller's.  If it returns an
    error, the error
    is ErrFileNotFound, ErrFileTooLarge, or "read local file" wrapped
    around a cause that is neither. *)
Theorem rewrite_outcome payload apiKey w :
  (forall out,
     fst (rewriteLocalFileParts payload true apiKey w) = Ok out ->
     forall r, r ∈ findLocalFilePartRefs payload -> servedTo w apiKey r) /\
  (forall e,
     fst (rewriteLocalFileParts payload true apiKey w) = Err e ->
     e = ErrFileNotFound \/ e = ErrFileTooLarge \/
     exists cause,
       e = ErrWrap "read local file" cause /\
       errors_Is cause ErrFileNotFound = false /\
       errors_Is cause ErrFileTooLarge = false).
Proof.
  unfold rewriteLocalFileParts, applyLocalFilePartRefs. cbn [negb]. split.
  - intros out. apply applyRefs_Ok.
  - intros e. apply applyRefs_Err.
Qed.

Lemma rewrite_outcome_witness :
  (exists out,
     fst (rewriteLocalFileParts RewriteScenario.helloPayload true "key-a"
            Scenario.helloWorld) = Ok out) /\
  servedTo Scenario.helloWorld "key-a" RewriteScenario.helloRef /\
  fst (rewriteLocalFileParts RewriteScenario.helloPayload true "key-b"
         Scenario.helloWorld) = Err ErrFileNotFound.
Proof.
  destruct (fst (rewriteLocalFileParts RewriteScenario.helloPayload true
                   "key-a" Scenario.helloWorld)) as [out|e] eqn:Hrun;
    [|vm_compute in Hrun; discriminate Hrun].
  split; [by exists out|]. split.
  - apply (proj1 (rewrite_outcome RewriteScenario.helloPayload "key-a"
                    Scenario.helloWorld) out Hrun).
    rewrite helloPayload_refs. by apply list_elem_of_singleton.
  - vm_compute. reflexivity.
Defined.

End RewriterExtras.

(** * Further properties of the upstream proxy *)

Section ProxyExtras.
Import filestore upstream proxy SessionSpec ProxySpec.
Context `{Library}.

Lemma bindSession_session u a now h tok :
  TrimSpace u <> "" -> TrimSpace a <> "" ->
  session (bindSession u a now h) tok
  = if decide (u = tok)
    then Some {| authID := a; expiresAt := now + twoHours |}
    else session h tok.
Proof.
  intros Hu Ha. unfold bindSession, session.
  destruct (decide (TrimSpace u = "")); [done|].
  destruct (decide (TrimSpace a = "")); [done|]. cbn.
  rewrite lookup_insert. destruct (decide (u = tok)); [done|].
  by destruct (sessions h).
Qed.

Lemma bindSession_base u a now h : base (bindSession u a now h) = base h.
Proof.
  unfold bindSession.
  destruct (decide (TrimSpace u = "")); [done|].
  by destruct (decide (TrimSpace a = "")).
Qed.

(** *** What is forwarded of a request *)

Lemma keepHeader_no_credential k : keepHeader k = true -> ~ credentialHeader k.
Proof.
  unfold keepHeader, credentialHeader. intros Hk [E|E]; rewrite E in Hk;
    [done|]. by rewrite orb_true_r in Hk.
Qed.

Lemma keepQuery_no_credential k : keepQuery k = true -> ~ credentialQuery k.
Proof.
  unfold keepQuery, credentialQuery. intros Hk [E|E]; rewrite E in Hk;
    [done|]. by rewrite orb_true_r in Hk.
Qed.

Lemma fileOptions_forward c :
  forwardsNoCredential c (fileOptionsFromRequest c).
Proof.
  split; intros k v Hin; cbn in Hin;
    unfold cloneHeadersForGeminiFiles, cloneQueryWithoutClientAuth in Hin;
    apply map_lookup_filter_Some in Hin as [Hin Hkeep]; cbn in Hkeep.
  - split; [done|]. by apply keepHeader_no_credential.
  - split; [done|]. by apply keepQuery_no_credential.
Qed.

Lemma pinned_pinnedTo cred opts :
  ForceAuthIDMetadataKey <> NoRetryMetadataKey ->
  pinnedTo cred (with_SourceFormat "gemini" (with_Metadata (pinned cred) opts)).
Proof.
  intros Hne. unfold pinnedTo, pinned. cbn [opt_Metadata with_SourceFormat
    with_Metadata]. split.
  - rewrite lookup_insert_ne by done. apply lookup_insert_eq.
  - apply lookup_insert_eq.
Qed.

Lemma uploadRequest_uploadsBodyOf c : uploadsBodyOf c (uploadRequest c).
Proof. repeat split. Qed.

(** X18.  A start binds the upload to the credential that served it.
    When the manager answers a resumable start without error and the
    answer carries an upload URL with an upload id [u], where the manager
    reports the credential [a]:
    - the client is sent the same answer, its upload URL replaced by the
      proxy's own URL for [u];
    - for the next two hours a follow-up that UploadFile recognises (it
      carries the resumable protocol header and a command other than
      start) and that presents [u] is forwarded in one call of Execute
      and none of PickAuth: the request is the upload of the body of the
      follow-up, and the options name [a] under the key that forces the
      credential and switch retries off;
    - after two hours such a follow-up is answered 400 and nothing is
      asked of the manager.
    The two metadata keys of the [auth] package are taken to be
    different. *)
Theorem start_binds_session c now h env resp mgr :
  base h = true ->
  ForceAuthIDMetadataKey <> NoRetryMetadataKey ->
  Manager_Execute (fst (startCall c)) (snd (startCall c)) (manager env)
  = ((resp, None), mgr) ->
  upstreamUploadID resp <> "" ->
  TrimSpace (upstreamUploadID resp) = upstreamUploadID resp ->
  authIDFromMetadata (resp_Metadata resp) <> "" ->
  TrimSpace (authIDFromMetadata (resp_Metadata resp)) <> "" ->
  exists h1,
    handleResumableStart c now h env
    = (WroteProxyResponseWithHeaders
         (fst (unpackProxyMetadata (resp_Metadata resp)))
         (Some (Header_Set (answerHeaders resp) "X-Goog-Upload-URL"
                  (buildProxyUploadURL c (upstreamUploadID resp))))
         (resp_Payload resp),
       h1,
       {| manager := mgr; calls := calls env ++ [startCall c];
          picks := picks env |}) /\
    (forall c2 now2 env2,
       recognisedFollowUp c2 ->
       token c2 = upstreamUploadID resp -> now2 <= now + twoHours ->
       exists out h2 env3 req opts,
         UploadFile c2 now2 h1 env2 = (out, h2, env3) /\
         calls env3 = calls env2 ++ [(req, opts)] /\
         picks env3 = picks env2 /\
         uploadsBodyOf c2 req /\
         pinnedTo (authIDFromMetadata (resp_Metadata resp)) opts /\
         forwardsNoCredential c2 opts) /\
    (forall c2 now2 env2,
       recognisedFollowUp c2 ->
       token c2 = upstreamUploadID resp -> now + twoHours < now2 ->
       exists h2,
         UploadFile c2 now2 h1 env2 = (missingOrExpired, h2, env2)).
Proof.
  intros Hbase Hkeys Hexec Hu Hidem Ha Hta.
  set (u := upstreamUploadID resp) in *.
  set (a := authIDFromMetadata (resp_Metadata resp)) in *.
  exists (bindSession u a now h).
  assert (session (bindSession u a now h) u
          = Some {| authID := a; expiresAt := now + twoHours |}) as Hs.
  { rewrite bindSession_session; [|by rewrite Hidem|done].
    by rewrite decide_True. }
  split; [|split].
  - unfold handleResumableStart, execute, startCall in *. cbn [fst snd] in *.
    rewrite Hbase. cbn [negb]. rewrite Hexec.
    unfold writeResumableStartResponse.
    fold a. unfold upstreamUploadID, answerHeaders in u.
    destruct (unpackProxyMetadata (resp_Metadata resp)) as [status hdr] eqn:Hun.
    cbn [fst snd] in *. fold u.
    destruct (decide (u = "")); [done|].
    unfold answerHeaders. rewrite Hun. reflexivity.
  - intros c2 now2 env2 [Hproto Hcmd] Htok Hnow.
    assert (LiveSession (bindSession u a now h) (token c2) now2 a) as Hlive.
    { rewrite Htok. split; [done|]. split; [done|].
      eexists. split; [exact Hs|]. split; [done|]. cbn. lia. }
    unfold saysResumable in Hproto.
    unfold UploadFile, handleResumableUpload. rewrite Hproto, Hcmd.
    unfold handleResumableFollowUp.
    rewrite (sessionAuthID_live _ (TrimSpace (Query c2 "upload_id")) now2 a
               Hlive).
    cbn [negb]. unfold execute. rewrite bindSession_base, Hbase. cbn [negb].
    destruct (Manager_Execute _ _ (manager env2)) as [[resp2 err2] mgr2].
    eexists _, _, _, _, _. split; [reflexivity|].
    split; [reflexivity|]. split; [reflexivity|].
    split; [apply uploadRequest_uploadsBodyOf|].
    split; [by apply pinned_pinnedTo|].
    apply fileOptions_forward.
  - intros c2 now2 env2 [Hproto Hcmd] Htok Hnow.
    unfold saysResumable in Hproto.
    unfold UploadFile, handleResumableUpload. rewrite Hproto, Hcmd.
    apply follow_up_without_session. rewrite Htok.
    eapply token_expired; [exact Hs|]. cbn. lia.
Qed.


Lemma sessionAuthID_frame tok now h tok' :
  tok' <> TrimSpace tok ->
  session (snd (sessionAuthID tok now h)) tok' = session h tok'.
Proof.
  intros Hne. unfold sessionAuthID, session.
  destruct (decide (TrimSpace tok = "")); [done|].
  destruct (sessions h) as [m|] eqn:Hm; [|cbn; by rewrite Hm].
  destruct (m !! TrimSpace tok) as [s|]; cbn.
  - destruct (decide (authID s = "")); cbn;
      [by rewrite lookup_delete_ne|].
    destruct (expiresAt s <? now); cbn;
      [by rewrite lookup_delete_ne|by rewrite Hm].
  - by rewrite lookup_delete_ne.
Qed.

Lemma sessionAuthID_base tok now h :
  base (snd (sessionAuthID tok now h)) = base h.
Proof.
  unfold sessionAuthID.
  destruct (decide (TrimSpace tok = "")); [done|].
  destruct (sessions h) as [m|]; [|done].
  destruct (m !! TrimSpace tok) as [s|]; [|done].
  destruct (decide (authID s = "")); [done|].
  by destruct (expiresAt s <? now).
Qed.

(** A token that is refused, when it is not empty, has no entry
    afterwards. *)
Lemma sessionAuthID_refused tok now h :
  TrimSpace tok <> "" ->
  snd (fst (sessionAuthID tok now h)) = false ->
  session (snd (sessionAuthID tok now h)) (TrimSpace tok) = None.
Proof.
  intros E. unfold sessionAuthID, session.
  destruct (decide (TrimSpace tok = "")); [done|].
  destruct (sessions h) as [m|] eqn:Hm; [|cbn; by rewrite Hm].
  destruct (m !! TrimSpace tok) as [s|] eqn:Hs; cbn.
  - destruct (decide (authID s = "")); cbn; [by rewrite lookup_delete_eq|].
    destruct (expiresAt s <? now); cbn; [by rewrite lookup_delete_eq|done].
  - by rewrite lookup_delete_eq.
Qed.

Lemma dropSession_frame tok h tok' :
  tok' <> TrimSpace tok -> session (dropSession tok h) tok' = session h tok'.
Proof.
  intros Hne. unfold dropSession, session.
  destruct (decide (TrimSpace tok = "")); [done|].
  destruct (sessions h) as [m|] eqn:Hm; [|by rewrite Hm].
  cbn. by rewrite lookup_delete_ne.
Qed.

Lemma dropSession_base tok h : base (dropSession tok h) = base h.
Proof.
  unfold dropSession.
  destruct (decide (TrimSpace tok = "")); [done|].
  by destruct (sessions h).
Qed.


(** X19.  A follow-up concerns its own upload only.  Whatever the
    follow-up does (refuse the token, forward the call, finalize), the
    session of every other token is as it was, and the handler keeps its
    manager.  A token that names no live session (unknown, bound to no
    credential, or past its two hours) has no entry in the session table
    afterwards: an expired session is forgotten the first time it is
    presented. *)
Theorem follow_up_concerns_its_own_upload c cmd now h env :
  (forall tok,
     tok <> token c ->
     session (snd (fst (handleResumableFollowUp c cmd now h env))) tok
     = session h tok) /\
  base (snd (fst (handleResumableFollowUp c cmd now h env))) = base h /\
  (token c <> "" -> NoLiveSession h (token c) now ->
   session (snd (fst (handleResumableFollowUp c cmd now h env))) (token c)
   = None).
Proof.
  unfold handleResumableFollowUp, token.
  set (q := TrimSpace (Query c "upload_id")).
  pose proof (sessionAuthID_frame q now h) as Hframe.
  pose proof (sessionAuthID_base q now h) as Hbase.
  pose proof (sessionAuthID_refused q now h) as Hrefused.
  pose proof (sessionAuthID_no_live h q now) as Hno.
  destruct (sessionAuthID q now h) as [[a ok] h1]; cbn [fst snd] in *.
  destruct ok; cbn [negb].
  - destruct (execute h1 (uploadRequest c) _ env) as [[resp err] env1].
    destruct (_ && _); cbn [fst snd].
    + split; [|split].
      * intros tok Hne. rewrite dropSession_frame; [by apply Hframe|done].
      * by rewrite dropSession_base.
      * intros _ Hdead. destruct (Hno Hdead) as [h' [=]].
    + split; [|split]; [done|done|].
      intros _ Hdead. destruct (Hno Hdead) as [h' [=]].
  - cbn [fst snd]. split; [|split]; [done|done|].
    intros Htok _. by apply Hrefused.
Qed.


Lemma execute_env h req opts env :
  calls (snd (execute h req opts env))
  = calls env
    ++ (if base h then [(req, with_SourceFormat "gemini" opts)] else []) /\
  picks (snd (execute h req opts env)) = picks env.
Proof.
  unfold execute. destruct (base h); cbn [negb]; [|by rewrite app_nil_r].
  by destruct (Manager_Execute _ _ (manager env)) as [[resp err] mgr].
Qed.

Lemma forwardsSafely_none c env : forwardsSafely c env env.
Proof.
  exists [], []. rewrite !app_nil_r.
  repeat split; try done; try (cbn; lia); constructor.
Qed.

Lemma forwardsSafely_execute c h req opts env :
  forwardsNoCredential c opts ->
  forwardsSafely c env (snd (execute h req opts env)).
Proof.
  intros Hopts. destruct (execute_env h req opts env) as [Hc Hp].
  exists [], (if base h then [(req, with_SourceFormat "gemini" opts)] else []).
  rewrite app_nil_r.
  split; [exact Hp|]. split; [exact Hc|]. split; [cbn; lia|].
  split; [destruct (base h); cbn; lia|]. split; [constructor|].
  destruct (base h); [|constructor].
  constructor; [exact Hopts|constructor].
Qed.

(** X20.  The client's own credential is never handed to the manager.
    Each of the entry points of the proxy (UploadFile with its one-shot
    and resumable forms, GetFile, ListFiles, DeleteFile) asks the manager
    at most once to pick a credential and at most once to execute a call;
    the headers and query parameters in the options of either are headers
    and parameters of the request, with their values, and none of them is
    Authorization, X-Goog-Api-Key, key or auth_token under any
    capitalisation. *)
Theorem client_credential_is_not_forwarded c fileId now h env :
  forwardsSafely c env (snd (UploadFile c now h env)) /\
  forwardsSafely c env (snd (GetFile c fileId h env)) /\
  forwardsSafely c env (snd (ListFiles c fileId h env)) /\
  forwardsSafely c env (snd (DeleteFile c fileId h env)).
Proof.
  pose proof (fileOptions_forward c) as Hopts.
  assert (forall method,
            forwardsSafely c env
              (snd (proxyFileMetadata c fileId method h env))) as Hmeta.
  { intros method. unfold proxyFileMetadata.
    match goal with
    | |- context [execute h ?req ?opts env] =>
        pose proof (forwardsSafely_execute c h req opts env Hopts) as Hex;
        destruct (execute h req opts env) as [[resp err] env1]
    end. exact Hex. }
  split; [|by repeat split; apply Hmeta].
  unfold UploadFile.
  destruct (EqualFold (GetHeader c "X-Goog-Upload-Protocol") "resumable").
  - unfold handleResumableUpload.
    destruct (EqualFold _ "start").
    + unfold handleResumableStart.
      match goal with
      | |- context [execute h ?req ?opts env] =>
          pose proof (forwardsSafely_execute c h req opts env Hopts) as Hex;
          destruct (execute h req opts env) as [[resp err] env1]
      end.
      by destruct (writeResumableStartResponse c resp err now h).
    + unfold handleResumableFollowUp.
      destruct (sessionAuthID _ now h) as [[a ok] h1].
      destruct ok; cbn [negb]; [|apply forwardsSafely_none].
      match goal with
      | |- context [execute h1 ?req ?opts env] =>
          pose proof (forwardsSafely_execute c h1 req opts env Hopts) as Hex;
          destruct (execute h1 req opts env) as [[resp err] env1]
      end. exact Hex.
  - unfold handleMultipartUpload, pickAuth.
    destruct (base h) eqn:Hbase; cbn [negb]; [|apply forwardsSafely_none].
    destruct (Manager_PickAuth _ (manager env)) as [[a|e] mgr]; cbn [snd].
    + match goal with
      | |- context [execute h ?req ?opts ?env0] =>
          destruct (execute_env h req opts env0) as [Hc Hp];
          destruct (execute h req opts env0) as [[resp err] env1]
      end.
      cbn [snd calls picks] in *. rewrite Hbase in Hc.
      eexists [_], [_]. split; [exact Hp|]. split; [exact Hc|].
      split; [cbn; lia|]. split; [cbn; lia|].
      split; (constructor; [exact Hopts|constructor]).
    + exists [fileOptionsFromRequest c], []. rewrite app_nil_r. cbn [picks calls].
      split; [done|]. split; [done|]. split; [cbn; lia|]. split; [cbn; lia|].
      split; [|constructor]. constructor; [exact Hopts|constructor].
Qed.

(** C7, on the code.  UploadFile hands a request to the resumable handlers
    only when it carries the header X-Goog-Upload-Protocol: resumable.  A
    follow-up of a resumable upload that comes without that header (the
    chunk or the finalize sent to the upload URL, with its command header
    and its upload_id) is taken for a one-shot upload: the session table
    is neither read nor changed, the manager is asked to pick a
    credential, and the body is uploaded in a call whose options name the
    credential just picked.  This is so whether the upload id names a live
    session bound to another credential, or no session at all, in which
    case the follow-up is not answered 400. *)
Theorem follow_up_without_protocol_header c now h env a mgr :
  EqualFold (GetHeader c "X-Goog-Upload-Protocol") "resumable" = false ->
  base h = true ->
  ForceAuthIDMetadataKey <> NoRetryMetadataKey ->
  Manager_PickAuth (fileOptionsFromRequest c) (manager env) = (inl a, mgr) ->
  exists out env' req opts,
    UploadFile c now h env = (out, h, env') /\
    picks env' = picks env ++ [fileOptionsFromRequest c] /\
    calls env' = calls env ++ [(req, opts)] /\
    uploadsBodyOf c req /\
    pinnedTo a opts /\
    (forall cred, cred <> a -> ~ pinnedTo cred opts).
Proof.
  intros Hproto Hbase Hkeys Hpick.
  unfold UploadFile, handleMultipartUpload, pickAuth.
  rewrite Hproto, Hbase. cbn [negb]. rewrite Hpick.
  unfold execute. cbn [manager calls picks]. rewrite Hbase. cbn [negb].
  destruct (Manager_Execute _ _ mgr) as [[resp err] mgr2].
  eexists _, _, _, _. split; [reflexivity|]. cbn [calls picks].
  split; [reflexivity|]. split; [reflexivity|].
  split; [apply uploadRequest_uploadsBodyOf|].
  pose proof (pinned_pinnedTo a (fileOptionsFromRequest c) Hkeys) as Hpin.
  split; [exact Hpin|].
  intros cred Hne [Hforce _]. destruct Hpin as [Hforce' _].
  rewrite Hforce' in Hforce. by injection Hforce as ->.
Qed.

(** X21.  A proxy without a manager.  When the handler has no auth
    manager, no entry point calls anything: a one-shot upload, a resumable
    start and the three metadata calls write the error "gemini files: auth
    manager is not configured", and leave the handler and the manager as
    they were.  writeProxyError answers that error with status 503; when
    the text is not a JSON document, the body is the error envelope with
    code 503 and status UNAVAILABLE. *)
Theorem proxy_without_manager c fileId method now h env :
  base h = false ->
  (EqualFold (GetHeader c "X-Goog-Upload-Protocol") "resumable" = false ->
   UploadFile c now h env = (WroteProxyError notConfigured, h, env)) /\
  handleResumableStart c now h env = (WroteProxyError notConfigured, h, env) /\
  proxyFileMetadata c fileId method h env
  = (WroteProxyError notConfigured, env) /\
  snd (UploadFile c now h env) = env /\
  match writeProxyError notConfigured with
  | RenderedData status contentType _ _ =>
      status = 503 /\ contentType = "application/json"
  | RenderedEnvelope status code _ googleStatus _ =>
      status = 503 /\ code = 503 /\ googleStatus = "UNAVAILABLE"
  end.
Proof.
  intros Hbase.
  assert (handleResumableStart c now h env
          = (WroteProxyError notConfigured, h, env)) as Hstart.
  { unfold handleResumableStart, execute. rewrite Hbase. reflexivity. }
  assert (forall req opts, execute h req opts env
          = (({| resp_Metadata := ∅; resp_Payload := [] |},
              Some notConfigured), env)) as Hex.
  { intros. unfold execute. by rewrite Hbase. }
  split; [|split; [exact Hstart|split; [|split]]].
  - intros Hproto. unfold UploadFile, handleMultipartUpload, pickAuth.
    by rewrite Hproto, Hbase.
  - unfold proxyFileMetadata. by rewrite Hex.
  - unfold UploadFile.
    destruct (EqualFold (GetHeader c "X-Goog-Upload-Protocol") "resumable").
    + unfold handleResumableUpload.
      destruct (EqualFold _ "start"); [by rewrite Hstart|].
      unfold handleResumableFollowUp.
      pose proof (sessionAuthID_base
                    (TrimSpace (Query c "upload_id")) now h) as Hb.
      destruct (sessionAuthID _ now h) as [[a ok] h1]. cbn [snd] in Hb.
      destruct ok; cbn [negb]; [|done].
      unfold execute. rewrite Hb, Hbase. reflexivity.
    + unfold handleMultipartUpload, pickAuth. by rewrite Hbase.
  - unfold writeProxyError. cbn.
    by destruct (validJSON _).
Qed.

End ProxyExtras.

Section ProxyExtrasScenario.
Import filestore upstream proxy SessionSpec ProxySpec ProxyScenario
  ProxyLibraryScenario.

Lemma keys_differ : ForceAuthIDMetadataKey <> NoRetryMetadataKey.
Proof. discriminate. Qed.

Lemma finalizeRequest_recognised : recognisedFollowUp finalizeRequest.
Proof. split; vm_compute; reflexivity. Qed.

Lemma start_binds_session_witness :
  upstreamUploadID upstreamAnswer = "tok123" /\
  authIDFromMetadata (resp_Metadata upstreamAnswer) = "c1" /\
  exists h1,
    snd (fst (handleResumableStart startRequest t0 proxy0 env0)) = h1 /\
    (exists out h2 env3 req opts,
       UploadFile finalizeRequest (t0 + 1) h1 env1 = (out, h2, env3) /\
       calls env3 = calls env1 ++ [(req, opts)] /\
       opt_Metadata opts !! "force_auth_id" = Some (AnyString "c1") /\
       opt_Metadata opts !! "no_retry" = Some (AnyBool true)) /\
    (exists h2,
       UploadFile finalizeRequest (t0 + twoHours + 1) h1 env1
       = (missingOrExpired, h2, env1)).
Proof.
  assert (upstreamUploadID upstreamAnswer = "tok123") as Hu
    by (vm_compute; reflexivity).
  assert (authIDFromMetadata (resp_Metadata upstreamAnswer) = "c1") as Ha
    by (vm_compute; reflexivity).
  split; [exact Hu|]. split; [exact Ha|].
  destruct (start_binds_session startRequest t0 proxy0 env0 upstreamAnswer
              1%nat eq_refl keys_differ eq_refl)
    as (h1 & Hrun & Hlive & Hdead).
  - rewrite Hu. discriminate.
  - rewrite Hu. vm_compute. reflexivity.
  - rewrite Ha. discriminate.
  - rewrite Ha. vm_compute. discriminate.
  - exists h1. split; [by rewrite Hrun|]. split.
    + destruct (Hlive finalizeRequest (t0 + 1) env1 finalizeRequest_recognised)
        as (out & h2 & env3 & req & opts & Hup & Hcalls & _ & _ & Hpin & _).
      * rewrite Hu. vm_compute. reflexivity.
      * unfold twoHours, hour. lia.
      * exists out, h2, env3, req, opts. rewrite Ha in Hpin.
        destruct Hpin as [Hforce Hretry].
        split; [exact Hup|]. split; [exact Hcalls|].
        split; [exact Hforce|exact Hretry].
    + apply (Hdead finalizeRequest (t0 + twoHours + 1) env1
               finalizeRequest_recognised).
      * rewrite Hu. vm_compute. reflexivity.
      * lia.
Defined.

(** The finalize without the protocol header, in the scenario: the upload
    id names the live session bound to ["c1"], the pool picks ["c2"], and
    the body goes out with ["c2"]; the session is still there. *)
Lemma follow_up_without_protocol_header_witness :
  LiveSession proxy1 (token bareFinalize) (t0 + 1) "c1" /\
  exists out env' req opts,
    @UploadFile asciiExternals pickingC2 bareFinalize (t0 + 1) proxy1 env1
    = (out, proxy1, env') /\
    calls env' = calls env1 ++ [(req, opts)] /\
    opt_Metadata opts !! "force_auth_id" = Some (AnyString "c2") /\
    ~ pinnedTo "c1" opts /\
    session proxy1 "tok123"
    = Some {| authID := "c1"; expiresAt := t0 + twoHours |}.
Proof.
  split.
  { split; [vm_compute; discriminate|]. split; [discriminate|].
    exists {| authID := "c1"; expiresAt := t0 + twoHours |}.
    split; [by vm_compute|]. split; [reflexivity|]. vm_compute. discriminate. }
  destruct (@follow_up_without_protocol_header asciiExternals pickingC2
              bareFinalize (t0 + 1) proxy1 env1 "c2" (manager env1)
              ltac:(vm_compute; reflexivity) eq_refl keys_differ eq_refl)
    as (out & env' & req & opts & Hup & _ & Hcalls & _ & Hpin & Honly).
  exists out, env', req, opts.
  split; [exact Hup|]. split; [exact Hcalls|].
  split; [exact (proj1 Hpin)|].
  split; [apply Honly; discriminate|]. by vm_compute.
Defined.

Lemma proxy_without_manager_witness :
  base unconfigured = false /\
  UploadFile startRequest t0 unconfigured env0
  = (WroteProxyError notConfigured, unconfigured, env0) /\
  GetFile startRequest "abc" unconfigured env0
  = (WroteProxyError notConfigured, env0) /\
  writeProxyError notConfigured
  = RenderedEnvelope 503 503 "gemini files: auth manager is not configured"
      "UNAVAILABLE" ∅.
Proof.
  split; [reflexivity|].
  destruct (proxy_without_manager startRequest "abc" MethodGet t0 unconfigured
              env0 eq_refl) as (_ & Hstart & Hmeta & _ & _).
  split; [|split; [exact Hmeta|]].
  - vm_compute. reflexivity.
  - vm_compute. reflexivity.
Defined.

End ProxyExtrasScenario.

(** * Further properties of the local handlers *)

Section LocalHandlerExtras.
Import filestore gemini localapi Spec.
Context `{Binding}.

Local Opaque Sha256.Sum256 Hex.EncodeToString Fmt.decimal.

Ltac go :=
  cbn -[Z.mul Z.add Z.sub Z.pow Z.ltb Z.leb wrap64 hour quotaMessage].

Ltac step :=
  match goal with
  | |- context [if hd false ?l then _ else _] =>
      let F := fresh "F" in destruct (hd false l) eqn:F; go
  | |- context [if r_fail ?c then _ else _] =>
      let F := fresh "R" in destruct (r_fail c) eqn:F; go
  | |- context [if (?a && ?b)%bool then _ else _] =>
      let F := fresh "Q" in destruct (a && b)%bool eqn:F; go
  | |- context [match ?m !! ?k with _ => _ end] =>
      let F := fresh "L" in destruct (m !! k) eqn:F; go
  end.

Lemma TrimPrefix_append p s : Strings.TrimPrefix (p +:+ s) p = s.
Proof.
  unfold Strings.TrimPrefix. rewrite HasPrefix_append.
  rewrite append_length.
  replace (String.length p + String.length s - String.length p)%nat
    with (String.length s) by lia.
  induction p as [|ch p IH].
  - change ("" +:+ s) with s. cbn [String.length].
    induction s as [|c s IHs]; [done|]. cbn. by rewrite IHs.
  - change (String ch p +:+ s) with (String ch (p +:+ s)). exact IH.
Qed.

Lemma valid_id_keeps_its_name fileID :
  isValidFileID fileID = true -> Strings.TrimPrefix fileID "files/" = fileID.
Proof.
  unfold isValidFileID, Strings.TrimPrefix.
  destruct (negb _); [discriminate|].
  destruct fileID as [|c1 [|c2 rest]]; [done| |].
  - cbn [Strings.HasPrefix]. by destruct (Ascii.eqb "f" c1).
  - cbn [Strings.HasPrefix].
    destruct (Ascii.eqb_spec "f" c1) as [<-|]; [|done].
    destruct (Ascii.eqb_spec "i" c2) as [<-|]; [|done].
    cbn. discriminate.
Qed.

Lemma GetFileForAPIKey_quiet fileID apiKey w m :
  isValidFileID fileID = true ->
  record w fileID = Some (Sidecar m) ->
  APIKey m = hashAPIKey apiKey ->
  nextCallGoesThrough w ->
  ~ ExpiresAt m < nextNow w ->
  fst (GetFileForAPIKey fileID apiKey w) = Ok m.
Proof.
  intros Hv Hrec Hkey Hgo Hlive.
  unfold GetFileForAPIKey, GetFile. rewrite loadMetadata_unfold.
  rewrite Hv. cbn [negb]. cbn zeta.
  unfold nextCallGoesThrough in Hgo. rewrite Hgo.
  unfold record in *. rewrite Hrec.
  rewrite (owner_owns m apiKey Hkey). cbn [negb].
  unfold nextNow in Hlive. cbn [time_Now enter fst snd isExpired clock wall] in *.
  destruct (Z.ltb_spec (ExpiresAt m) (hd (wall w) (clock w))); [lia|done].
Qed.

(** X22.  A file the store hides from the caller is answered like a file
    that does not exist.  For a record that is hidden from the caller of
    the request (missing, stored with an owner hash that is not the hash
    of the caller's key, or expired), once the read of the sidecar goes
    through, the handlers GetFile and DeleteFile both answer 404 NOT_FOUND
    with the message "file not found: " and the id, and DeleteFile leaves
    the counter and the two directories as they were.  The owner is told
    by the hash of the key alone. *)
Theorem hidden_file_is_answered_404 c fileId s w :
  fileId <> "" ->
  Hidden (Strings.TrimPrefix fileId "files/") (extractAPIKey c) w ->
  nextCallGoesThrough w ->
  fst (GetFile c fileId w)
  = AnswerError 404
      ("file not found: " +:+ Strings.TrimPrefix fileId "files/") "NOT_FOUND" /\
  fst (fst (DeleteFile c fileId s w))
  = AnswerError 404
      ("file not found: " +:+ Strings.TrimPrefix fileId "files/") "NOT_FOUND" /\
  snd (fst (DeleteFile c fileId s w)) = s /\
  filesDir (snd (DeleteFile c fileId s w)) = filesDir w /\
  metadataDir (snd (DeleteFile c fileId s w)) = metadataDir w.
Proof.
  intros Hne Hhid Hgo.
  pose proof (GetFileForAPIKey_hidden _ _ _ Hhid) as Hget.
  pose proof (GetFileForAPIKey_dirs (Strings.TrimPrefix fileId "files/")
                (extractAPIKey c) w) as [Hf Hm].
  unfold nextCallGoesThrough in Hgo.
  destruct Hget as [Hget|[Hbad _]]; [|congruence].
  unfold GetFile, DeleteFile, DeleteFileForAPIKey.
  destruct (decide (fileId = "")); [done|].
  destruct (GetFileForAPIKey _ _ w) as [r w1]; cbn [fst snd] in *.
  subst r. cbn. done.
Qed.

Lemma filterByAPIKey_owned files apiKey m :
  m ∈ filterByAPIKey files apiKey -> APIKey m = hashAPIKey apiKey.
Proof.
  unfold filterByAPIKey. intros Hin.
  by apply list_elem_of_filter in Hin as [Hkey _].
Qed.

(** X23.  What the handlers show is the caller's.  In any world, a file
    resource sent by GetFile comes with 200 and is the sidecar of the
    requested id, owned by the caller of the request and not expired; the
    resources sent by ListFiles come with 200 and each carries the hash of
    the caller's key as its owner and has not expired.  Neither handler
    changes the two directories. *)
Theorem answers_show_only_the_callers_files c fileId w :
  (forall code m,
     fst (GetFile c fileId w) = AnswerFile code m ->
     code = 200 /\
     record w (Strings.TrimPrefix fileId "files/") = Some (Sidecar m) /\
     isOwnedByAPIKey (Some m) (extractAPIKey c) = true /\
     ~ ExpiresAt m < nextNow w) /\
  (forall code files,
     fst (ListFiles c w) = AnswerFiles code files ->
     code = 200 /\
     Forall (fun m => APIKey m = hashAPIKey (extractAPIKey c) /\
                      ~ ExpiresAt m < nextNow w) files) /\
  filesDir (snd (GetFile c fileId w)) = filesDir w /\
  metadataDir (snd (GetFile c fileId w)) = metadataDir w /\
  filesDir (snd (ListFiles c w)) = filesDir w /\
  metadataDir (snd (ListFiles c w)) = metadataDir w.
Proof.
  split; [|split].
  - intros code m. unfold GetFile.
    destruct (decide (fileId = "")); [discriminate|].
    pose proof (GetFileForAPIKey_Ok (Strings.TrimPrefix fileId "files/")
                  (extractAPIKey c) w) as Hok.
    destruct (GetFileForAPIKey _ _ w) as [[m'|e] w1]; cbn [fst] in *.
    + intros [= <- <-]. by destruct (Hok m' eq_refl) as (_ & ? & ? & ?).
    + by destruct (negb _).
  - intros code files. unfold ListFiles, ListFilesForAPIKey.
    pose proof (ListFiles_unexpired w) as Hlive.
    destruct (filestore.ListFiles w) as [[all|e] w1]; cbn [fst] in *;
      [|discriminate].
    intros [= <- <-]. split; [done|].
    apply Forall_forall. intros m Hin. split.
    + by apply (filterByAPIKey_owned all).
    + rewrite Forall_forall in Hlive. apply Hlive.
      unfold filterByAPIKey in Hin.
      by apply list_elem_of_filter in Hin as [_ ?].
  - unfold GetFile, ListFiles, ListFilesForAPIKey.
    pose proof (GetFileForAPIKey_dirs (Strings.TrimPrefix fileId "files/")
                  (extractAPIKey c) w) as [Hf Hm].
    pose proof (ListFiles_dirs w) as [Hf' Hm'].
    destruct (decide (fileId = "")).
    + destruct (filestore.ListFiles w) as [[all|e'] w1]; cbn [snd] in *; done.
    + destruct (GetFileForAPIKey _ _ w) as [[m'|e] w1]; cbn [fst snd] in *;
        [|destruct (negb _)];
        destruct (filestore.ListFiles w) as [[all|e'] w2]; cbn [snd] in *; done.
Qed.

(** X24.  A deletion answered with 204.  In any world, when the handler
    DeleteFile answers with a bare status, the status is 204, the record
    was the caller's and had not expired, both its files are gone from
    the two directories, and from then on the handler GetFile answers 404
    NOT_FOUND for that id to every caller, once its read of the metadata
    directory goes through. *)
Theorem deletion_answered_204 c fileId s w code headers :
  fst (fst (DeleteFile c fileId s w)) = AnswerStatus code headers ->
  code = 204 /\ headers = [] /\ fileId <> "" /\
  (exists m,
     record w (Strings.TrimPrefix fileId "files/") = Some (Sidecar m) /\
     isOwnedByAPIKey (Some m) (extractAPIKey c) = true /\
     ~ ExpiresAt m < nextNow w) /\
  filesDir (snd (DeleteFile c fileId s w))
  = delete (Strings.TrimPrefix fileId "files/") (filesDir w) /\
  metadataDir (snd (DeleteFile c fileId s w))
  = delete (Strings.TrimPrefix fileId "files/" +:+ MetadataFileExtension)
      (metadataDir w) /\
  (forall c' w2,
     metadataDir w2 = metadataDir (snd (DeleteFile c fileId s w)) ->
     nextCallGoesThrough w2 ->
     fst (GetFile c' fileId w2)
     = AnswerError 404
         ("file not found: " +:+ Strings.TrimPrefix fileId "files/")
         "NOT_FOUND").
Proof.
  unfold DeleteFile, GetFile, DeleteFileForAPIKey, filestore.DeleteFile.
  destruct (decide (fileId = "")) as [|Hne]; [discriminate|].
  set (fileID := Strings.TrimPrefix fileId "files/").
  pose proof (GetFileForAPIKey_Ok fileID (extractAPIKey c) w) as Hok.
  pose proof (GetFileForAPIKey_dirs fileID (extractAPIKey c) w) as [Hf Hm].
  destruct (GetFileForAPIKey fileID _ w) as [[m|e] w1]; cbn [fst snd] in *.
  2:{ by destruct (errors_Is e ErrFileNotFound). }
  destruct (Hok m eq_refl) as (Hv & Hrec & Hown & Hlive).
  pose proof (time_Now_dirs w1) as [Hf' Hm'].
  destruct (time_Now w1) as [now w2]; cbn [snd] in *.
  destruct (isExpired (Some m) now); [discriminate|].
  pose proof (deleteFileUnsafe_nil fileID s w2) as Hnil.
  destruct (deleteFileUnsafe fileID s w2) as [[err s1] w3]; cbn [fst snd] in *.
  destruct err as [e|]; [by destruct (errors_Is e ErrFileNotFound)|].
  intros [= <- <-]. destruct (Hnil eq_refl) as (_ & Hf3 & Hm3).
  split; [done|]. split; [done|]. split; [done|]. split; [by exists m|].
  split; [cbn; by rewrite Hf3, Hf', Hf|].
  split; [cbn; by rewrite Hm3, Hm', Hm|].
  intros c' w4 Hm4 Hgo. cbn [fst snd] in Hm4.
  destruct (GetFileForAPIKey_hidden fileID (extractAPIKey c') w4)
    as [Hget|[Hbad _]].
  - apply hidden_missing. unfold record. rewrite Hm4, Hm3.
    apply lookup_delete_eq.
  - destruct (GetFileForAPIKey fileID _ w4) as [r w5]; cbn [fst] in *.
    by subst r.
  - unfold nextCallGoesThrough in Hgo. congruence.
Qed.

(** The fields SaveFile copies from its arguments, and the state of the
    stream it has read. *)
Lemma SaveFile_fields content name mimeType displayName apiKey s w m s1 w1 :
  SaveFile content name mimeType displayName apiKey s w = (Ok m, s1, w1) ->
  r_fail content = false /\
  Name m = name /\ DisplayName m = displayName /\ MimeType m = mimeType /\
  URI m = "files/" +:+ FileID m.
Proof.
  unfold SaveFile, generateFileID, GenerateFileID, SaveFile_written,
    saveMetadata, os_Create, io_Copy, os_Rename, os_WriteFile, os_Remove,
    time_Now, enter.
  go. repeat step.
  all: intros E; try discriminate E.
  all: injection E as <- <- <-; go.
  all: done.
Qed.

Lemma valid_id_not_empty fileID : isValidFileID fileID = true -> fileID <> "".
Proof. by intros Hv ->. Qed.

(** X25.  The name an upload returns opens the file.  When the one-shot
    upload handler answers with a file resource, in any world: the status
    is 200; the request parsed as a form with a part "file", whose bytes
    are now the content file of the record and whose file name is the
    record's name, the display name and the mime type falling back to the
    file name and to detectMimeType when the form gives none.  Afterwards,
    while the sidecar is in place, can be read and has not expired, GetFile
    answers 200 with that record to a request of the same caller, under
    the returned name as under the bare id, and 404 NOT_FOUND to a caller
    whose key hashes differently. *)
Theorem uploaded_file_can_be_fetched c s w code m s1 w1 :
  handleMultipartUpload c s w = (AnswerUploaded code m, s1, w1) ->
  code = 200 /\
  (exists form part,
     ParseMultipartForm c = inr form /\ form_file form = Some part /\
     filesDir w1 !! FileID m = Some (r_data (part_content part)) /\
     Name m = Filename part /\
     DisplayName m
     = (if decide (form_display_name form = "") then Filename part
        else form_display_name form) /\
     MimeType m
     = (if decide (part_ContentType part = "")
        then detectMimeType (Filename part) else part_ContentType part)) /\
  (forall c' w2,
     metadataDir w2 = metadataDir w1 ->
     nextCallGoesThrough w2 ->
     ~ ExpiresAt m < nextNow w2 ->
     (extractAPIKey c' = extractAPIKey c ->
      fst (GetFile c' (URI m) w2) = AnswerFile 200 m /\
      fst (GetFile c' (FileID m) w2) = AnswerFile 200 m) /\
     (hashAPIKey (extractAPIKey c') <> hashAPIKey (extractAPIKey c) ->
      fst (GetFile c' (URI m) w2)
      = AnswerError 404 ("file not found: " +:+ FileID m) "NOT_FOUND")).
Proof.
  unfold handleMultipartUpload.
  destruct (ParseMultipartForm c) as [err|form] eqn:Hform; [discriminate|].
  destruct (form_file form) as [part|] eqn:Hpart; [|discriminate].
  destruct (SaveFile _ _ _ _ _ s w) as [[r s2] w3] eqn:Hsave.
  destruct r as [m'|e]; [|discriminate].
  intros [= <- <- <- <-].
  pose proof (SaveFile_ok _ _ _ _ _ _ _ _ _ _ Hsave)
    as (Hid & _ & _ & Hkey & Hrec).
  pose proof (SaveFile_content _ _ _ _ _ _ _ _ _ _ Hsave) as Hdata.
  pose proof (SaveFile_fields _ _ _ _ _ _ _ _ _ _ Hsave)
    as (_ & Hname & Hdisplay & Hmime & Huri).
  assert (isValidFileID (FileID m') = true) as Hv
    by (rewrite Hid; apply GenerateFileID_valid).
  split; [done|]. split.
  { exists form, part. repeat split; done. }
  intros c' w2 Hm2 Hgo Hlive.
  assert (record w2 (FileID m') = Some (Sidecar m')) as Hrec2
    by (unfold record in *; by rewrite Hm2).
  assert (URI m' <> "") as Hne by (by rewrite Huri).
  split.
  - intros Hsame.
    pose proof (GetFileForAPIKey_quiet (FileID m') (extractAPIKey c') w2 m'
                  Hv Hrec2 ltac:(by rewrite Hsame) Hgo Hlive) as Hget.
    unfold GetFile.
    destruct (decide (URI m' = "")); [done|].
    destruct (decide (FileID m' = "")) as [E|_];
      [by apply valid_id_not_empty in E|].
    rewrite Huri, TrimPrefix_append, (valid_id_keeps_its_name _ Hv).
    destruct (GetFileForAPIKey _ _ w2) as [r w4]; cbn [fst] in *.
    by subst r.
  - intros Hother.
    destruct (GetFileForAPIKey_hidden (FileID m') (extractAPIKey c') w2)
      as [Hget|[Hbad _]].
    + eapply hidden_other_hash; [exact Hrec2|].
      by apply (ownerHashDiffers_of_saved m' (extractAPIKey c)).
    + unfold GetFile. destruct (decide (URI m' = "")); [done|].
      rewrite Huri, TrimPrefix_append.
      destruct (GetFileForAPIKey _ _ w2) as [r w4]; cbn [fst] in *.
      by subst r.
    + unfold nextCallGoesThrough in Hgo. congruence.
Qed.

Lemma slice_to_long s n :
  (n <= String.length s)%nat -> slice_to s n = Some (String.substring 0 n s).
Proof.
  intros Hn. unfold slice_to.
  by destruct (Nat.leb_spec n (String.length s)); [|lia].
Qed.

Lemma valid_id_length fileID :
  isValidFileID fileID = true -> String.length fileID = 32%nat.
Proof.
  unfold isValidFileID.
  destruct (Nat.eqb_spec (String.length fileID) 32); [done|discriminate].
Qed.

Lemma handleResumableFinalize_long c s w :
  (8 <= String.length (Query c "upload_id"))%nat ->
  exists r, fst (fst (handleResumableFinalize c s w)) = Responded r.
Proof.
  intros Hlen. unfold handleResumableFinalize.
  destruct (decide (Query c "upload_id" = "")); [by eexists|].
  rewrite (slice_to_long _ _ Hlen).
  destruct (SaveFile _ _ _ _ _ s w) as [[[m|e] s1] w1]; by eexists.
Qed.

(** X26.  An upload id handed out by the start of a resumable upload can
    be finalized.  When the metadata of a start request binds, the handler
    answers 200 with an upload URL that ends in a 32-character hexadecimal
    id, and records nothing: the two directories are as before.  A
    finalize request that presents this id, or any upload id of at least
    eight bytes, is answered with a response: it does not end in the
    out-of-range slice. *)
Theorem issued_upload_id_can_be_finalized c w :
  ShouldBindJSON c = None ->
  exists sessionID,
    isValidFileID sessionID = true /\
    fst (handleResumableStart c w)
    = AnswerStatus 200
        [("X-Goog-Upload-URL", "/upload/v1beta/files?upload_id=" +:+ sessionID);
         ("X-Goog-Upload-Status", "active");
         ("X-Goog-Upload-Chunk-Granularity", "262144")] /\
    filesDir (snd (handleResumableStart c w)) = filesDir w /\
    metadataDir (snd (handleResumableStart c w)) = metadataDir w /\
    (forall c' s w',
       Query c' "upload_id" = sessionID \/
       (8 <= String.length (Query c' "upload_id"))%nat ->
       exists r, fst (fst (handleResumableFinalize c' s w')) = Responded r).
Proof.
  intros Hbind. exists (fst (GenerateFileID w)).
  pose proof (GenerateFileID_valid w) as Hv.
  unfold handleResumableStart. rewrite Hbind.
  split; [done|].
  assert (filesDir (snd (GenerateFileID w)) = filesDir w /\
          metadataDir (snd (GenerateFileID w)) = metadataDir w) as [Hf Hm].
  { unfold GenerateFileID. pose proof (time_Now_dirs w).
    by destruct (time_Now w). }
  destruct (GenerateFileID w) as [sessionID w1]; cbn [fst snd] in *.
  repeat split; try done.
  intros c' s w' [Hq|Hlen]; apply handleResumableFinalize_long; [|done].
  rewrite Hq, (valid_id_length _ Hv). lia.
Qed.

Lemma MaxBytesReader_whole r n :
  r_fail (MaxBytesReader r n) = false ->
  MaxBytesReader r n = r /\ Z.of_nat (length (r_data r)) <= n.
Proof.
  unfold MaxBytesReader.
  destruct (Z.ltb_spec n (Z.of_nat (length (r_data r)))); [discriminate|].
  intros _. split; [done|lia].
Qed.

(** X27.  What a finalize answered with 200 has stored.  When the finalize
    handler answers with a file resource, in any world: the status is 200
    and the upload status "final"; the body of the request was read to its
    end without error and holds at most MaxMultipartFileSize bytes; the
    content file of the record holds exactly these bytes; the record is
    owned by the caller of the request, is named after the upload id and
    is displayed as "upload-" followed by the first eight bytes of the
    upload id. *)
Theorem finalize_stores_the_whole_body c s w r m :
  fst (fst (handleResumableFinalize c s w)) = Responded r ->
  body r = FileBody m ->
  code r = 200 /\ uploadStatus r = Some "final" /\
  r_fail (ctx_body c) = false /\
  Z.of_nat (length (r_data (ctx_body c))) <= MaxMultipartFileSize /\
  filesDir (snd (handleResumableFinalize c s w)) !! FileID m
  = Some (r_data (ctx_body c)) /\
  record (snd (handleResumableFinalize c s w)) (FileID m) = Some (Sidecar m) /\
  SizeBytes m = Z.of_nat (length (r_data (ctx_body c))) /\
  APIKey m = hashAPIKey (extractAPIKey c) /\
  Name m = Query c "upload_id" /\
  DisplayName m
  = "upload-" +:+ String.substring 0 8 (Query c "upload_id").
Proof.
  unfold handleResumableFinalize.
  destruct (decide (Query c "upload_id" = ""));
    [intros [= <-]; discriminate|].
  unfold slice_to.
  destruct (8 <=? String.length (Query c "upload_id"))%nat; [|discriminate].
  destruct (SaveFile _ _ _ _ _ s w) as [[res s1] w1] eqn:Hsave.
  destruct res as [m'|e]; cbn [fst snd]; intros [= <-]; cbn [body code uploadStatus];
    [|discriminate].
  intros [= ->].
  pose proof (SaveFile_ok _ _ _ _ _ _ _ _ _ _ Hsave)
    as (_ & Hsize & _ & Hkey & Hrec).
  pose proof (SaveFile_content _ _ _ _ _ _ _ _ _ _ Hsave) as Hdata.
  pose proof (SaveFile_fields _ _ _ _ _ _ _ _ _ _ Hsave)
    as (Hread & Hname & Hdisplay & _).
  apply MaxBytesReader_whole in Hread as Hwhole. destruct Hwhole as [Hsame Hfit].
  rewrite Hsame in *.
  repeat split; done.
Qed.

Lemma GenerateFileID_dirs w :
  filesDir (snd (GenerateFileID w)) = filesDir w /\
  metadataDir (snd (GenerateFileID w)) = metadataDir w.
Proof.
  unfold GenerateFileID. pose proof (time_Now_dirs w).
  by destruct (time_Now w).
Qed.

(** X28.  An upload that is not answered with a file resource has stored
    nothing.  When no system call fails and the temporary name is free,
    whatever the request: unless UploadFile hands it to the one-shot
    handler or to the finalize handler and that handler answers with the
    record of the stored file, the counter and the two directories are
    what they were.  This covers the requests refused for their protocol
    or command, the start and the status query of a resumable upload,
    forms that do not parse, a finalize without upload id or ending in
    the out-of-range slice, and saves turned down by the quota or cut
    short by the stream. *)
Theorem unanswered_upload_stores_nothing c s w :
  faults w = [] ->
  filesDir w !! (fst (GenerateFileID w) +:+ ".tmp") = None ->
  (forall code m,
     fst (fst (UploadFile c s w)) <> OneShot (AnswerUploaded code m)) ->
  (forall r m,
     fst (fst (UploadFile c s w)) = Finalized (Responded r) ->
     body r <> FileBody m) ->
  snd (fst (UploadFile c s w)) = s /\
  filesDir (snd (UploadFile c s w)) = filesDir w /\
  metadataDir (snd (UploadFile c s w)) = metadataDir w.
Proof.
  intros Hq Htmp.
  unfold UploadFile, handleResumableUpload, handleResumableStart,
    handleResumableFinalize, handleMultipartUpload.
  destruct (decide (GetHeader c "X-Goog-Upload-Protocol" = "resumable"))
    as [Hres|Hres].
  - destruct (decide (GetHeader c "X-Goog-Upload-Command" = "start"))
      as [Hstart|Hstart].
    { intros _ _. destruct (ShouldBindJSON c); [done|].
      pose proof (GenerateFileID_dirs w) as [Hf Hm].
      by destruct (GenerateFileID w). }
    destruct (decide (GetHeader c "X-Goog-Upload-Command" = "upload, finalize"))
      as [Hfinal|Hfinal];
      [|by destruct (decide (GetHeader c "X-Goog-Upload-Command" = "query"))].
    destruct (decide (Query c "upload_id" = "")) as [Hid|Hid]; [done|].
    destruct (slice_to _ 8) as [s0|]; [|done].
    pose proof (SaveFile_Err_quiet
                  (MaxBytesReader (ctx_body c) MaxMultipartFileSize)
                  (Query c "upload_id")
                  (if decide (GetHeader c "X-Goog-Upload-Header-Content-Type" = "")
                   then ContentType c
                   else GetHeader c "X-Goog-Upload-Header-Content-Type")
                  ("upload-" +:+ s0) (extractAPIKey c) s w) as Hquiet.
    destruct (SaveFile _ _ _ _ _ s w) as [[[m|e] s1] w1]; cbn [fst snd] in *.
    + intros _ Hfin. by destruct (Hfin _ m eq_refl).
    + intros _ _. by destruct (Hquiet e Hq Htmp eq_refl) as (? & ? & ? & _).
  - destruct (_ || _); [|done].
    destruct (ParseMultipartForm c) as [err|form]; [done|].
    destruct (form_file form) as [part|]; [|done].
    pose proof (SaveFile_Err_quiet (part_content part) (Filename part)
                  (if decide (part_ContentType part = "")
                   then detectMimeType (Filename part)
                   else part_ContentType part)
                  (if decide (form_display_name form = "")
                   then Filename part else form_display_name form)
                  (extractAPIKey c) s w) as Hquiet.
    destruct (SaveFile _ _ _ _ _ s w) as [[[m|e] s1] w1]; cbn [fst snd] in *.
    + intros Hone _. by destruct (Hone 200 m).
    + intros _ _. by destruct (Hquiet e Hq Htmp eq_refl) as (? & ? & ? & _).
Qed.

End LocalHandlerExtras.

(** ** The scenario at the handlers: "hello" uploaded by "key-a" *)

Section LocalHandlerScenario.
Import filestore gemini localapi Spec Scenario LocalScenario.

Lemma hello_uploaded :
  handleMultipartUpload helloUpload freshStore emptyWorld
  = (AnswerUploaded 200 helloRecord, helloStore, helloWorld).
Proof. vm_compute. reflexivity. Qed.

Lemma hidden_file_is_answered_404_witness :
  Hidden helloID "key-b" helloWorld /\
  fst (GetFile requestOfKeyB ("files/" +:+ helloID) helloWorld)
  = AnswerError 404 ("file not found: " +:+ helloID) "NOT_FOUND" /\
  fst (fst (DeleteFile requestOfKeyB ("files/" +:+ helloID)
              helloStore helloWorld))
  = AnswerError 404 ("file not found: " +:+ helloID) "NOT_FOUND".
Proof.
  split; [exact hello_hidden_from_key_b|].
  destruct (hidden_file_is_answered_404 requestOfKeyB ("files/" +:+ helloID)
              helloStore helloWorld ltac:(discriminate)
              hello_hidden_from_key_b eq_refl) as (Hget & Hdel & _).
  split; [exact Hget|exact Hdel].
Defined.

Lemma hello_deleted_by_owner :
  fst (fst (DeleteFile helloUpload helloID helloStore helloWorld))
  = AnswerStatus 204 [].
Proof. vm_compute. reflexivity. Qed.

Lemma deletion_answered_204_witness :
  fst (fst (DeleteFile helloUpload helloID helloStore helloWorld))
  = AnswerStatus 204 [] /\
  fst (GetFile helloUpload helloID
         (snd (DeleteFile helloUpload helloID helloStore helloWorld)))
  = AnswerError 404 ("file not found: " +:+ helloID) "NOT_FOUND".
Proof.
  split; [exact hello_deleted_by_owner|].
  destruct (deletion_answered_204 helloUpload helloID helloStore helloWorld
              204 [] hello_deleted_by_owner) as (_ & _ & _ & _ & _ & _ & Hget).
  exact (Hget helloUpload _ eq_refl eq_refl).
Defined.

Lemma uploaded_file_can_be_fetched_witness :
  handleMultipartUpload helloUpload freshStore emptyWorld
  = (AnswerUploaded 200 helloRecord, helloStore, helloWorld) /\
  fst (GetFile helloUpload (URI helloRecord) helloWorld)
  = AnswerFile 200 helloRecord /\
  fst (GetFile requestOfKeyB (URI helloRecord) helloWorld)
  = AnswerError 404 ("file not found: " +:+ helloID) "NOT_FOUND".
Proof.
  split; [exact hello_uploaded|].
  destruct (uploaded_file_can_be_fetched helloUpload freshStore emptyWorld
              200 helloRecord helloStore helloWorld hello_uploaded)
    as (_ & _ & Hget).
  destruct (Hget helloUpload helloWorld eq_refl eq_refl
              ltac:(vm_compute; discriminate)) as [Hsame _].
  destruct (Hget requestOfKeyB helloWorld eq_refl eq_refl
              ltac:(vm_compute; discriminate)) as [_ Hother].
  split; [exact (proj1 (Hsame eq_refl))|].
  exact (Hother ltac:(vm_compute; discriminate)).
Defined.

Lemma issued_upload_id_can_be_finalized_witness :
  ShouldBindJSON helloUpload = None /\
  exists sessionID,
    fst (handleResumableStart helloUpload emptyWorld)
    = AnswerStatus 200
        [("X-Goog-Upload-URL", "/upload/v1beta/files?upload_id=" +:+ sessionID);
         ("X-Goog-Upload-Status", "active");
         ("X-Goog-Upload-Chunk-Granularity", "262144")] /\
    exists r,
      fst (fst (handleResumableFinalize (finalizeWith sessionID)
                  freshStore emptyWorld)) = Responded r.
Proof.
  split; [reflexivity|].
  destruct (@issued_upload_id_can_be_finalized plainBinding helloUpload
              emptyWorld eq_refl)
    as (sessionID & _ & Hstart & _ & _ & Hfin).
  exists sessionID. split; [exact Hstart|].
  apply Hfin. left. reflexivity.
Defined.

Lemma hello_finalized :
  exists m,
    fst (fst (handleResumableFinalize (finalizeWith helloID)
                freshStore emptyWorld))
    = Responded {| code := 200; uploadStatus := Some "final";
                   body := FileBody m |}.
Proof. vm_compute. eexists. reflexivity. Qed.

Lemma finalize_stores_the_whole_body_witness :
  exists r m,
    fst (fst (handleResumableFinalize (finalizeWith helloID)
                freshStore emptyWorld)) = Responded r /\
    body r = FileBody m /\
    filesDir (snd (handleResumableFinalize (finalizeWith helloID)
                     freshStore emptyWorld)) !! FileID m
    = Some (Bytes.of_string "hello") /\
    DisplayName m = "upload-691ad6e8".
Proof.
  destruct hello_finalized as [m Hfin].
  eexists _, m. split; [exact Hfin|]. split; [reflexivity|].
  destruct (finalize_stores_the_whole_body (finalizeWith helloID)
              freshStore emptyWorld _ m Hfin eq_refl)
    as (_ & _ & _ & _ & Hdata & _ & _ & _ & _ & Hdisplay).
  split; [exact Hdata|exact Hdisplay].
Defined.

Lemma unanswered_upload_stores_nothing_witness :
  faults helloWorld = [] /\
  fst (fst (UploadFile oddRequest helloStore helloWorld))
  = Refused (AnswerError 400 "unsupported upload protocol: raw"
               "INVALID_ARGUMENT") /\
  snd (fst (UploadFile oddRequest helloStore helloWorld)) = helloStore /\
  filesDir (snd (UploadFile oddRequest helloStore helloWorld))
  = filesDir helloWorld.
Proof.
  split; [reflexivity|]. split; [reflexivity|].
  destruct (@unanswered_upload_stores_nothing plainBinding oddRequest
              helloStore helloWorld
              eq_refl ltac:(vm_compute; reflexivity)
              ltac:(intros code m; discriminate)
              ltac:(intros r m; discriminate)) as (Hs & Hf & _).
  split; [exact Hs|exact Hf].
Defined.

End LocalHandlerScenario.

(** * The executor's reading of the proxy's calls *)

Section ExecutorExtras.
Import filestore upstream proxy executor ProxySpec.
Context `{Externals}.

Lemma files_prefix_keeps_slash name :
  Strings.HasPrefix name "files/" = true -> Strings.TrimPrefix name "/" = name.
Proof.
  unfold Strings.TrimPrefix. destruct name as [|ch rest]; [done|].
  cbn [Strings.HasPrefix].
  destruct (Ascii.eqb_spec "f" ch) as [<-|]; [done|discriminate].
Qed.

Lemma normalizeGeminiFileName_prefix meta :
  Strings.HasPrefix (normalizeGeminiFileName meta) "files/" = true.
Proof.
  unfold normalizeGeminiFileName.
  destruct (decide (size meta = 0%nat)); [done|]. cbn zeta.
  destruct (Strings.HasPrefix (Strings.TrimPrefix _ "/") "files/") eqn:Hp;
    [exact Hp|].
  destruct (decide (_ = "")); [done|]. apply HasPrefix_append.
Qed.

(** X29.  The name the executor asks upstream for lies under "files/".
    Whatever the metadata of a call holds under the name key (nothing, a
    value that is not a string, blanks, a leading slash), the name that
    normalizeGeminiFileName returns starts with "files/".  A returned name
    is in normal form: put back under the name key of any metadata, it is
    returned unchanged, provided trimming leaves it alone. *)
Theorem upstream_file_name_is_normalised meta :
  Strings.HasPrefix (normalizeGeminiFileName meta) "files/" = true /\
  (forall meta',
     TrimSpace (normalizeGeminiFileName meta) = normalizeGeminiFileName meta ->
     normalizeGeminiFileName
       (<[executor.geminiFilesNameKey :=
            AnyString (normalizeGeminiFileName meta)]> meta')
     = normalizeGeminiFileName meta).
Proof.
  pose proof (normalizeGeminiFileName_prefix meta) as Hp.
  split; [exact Hp|].
  intros meta' Htrim.
  set (name := normalizeGeminiFileName meta) in *.
  unfold normalizeGeminiFileName at 1.
  destruct (decide (size _ = 0%nat)) as [Hz|_].
  { apply map_size_empty_inv in Hz.
    by apply insert_non_empty in Hz. }
  rewrite lookup_insert_eq. cbn zeta.
  rewrite Htrim, (files_prefix_keeps_slash _ Hp), Hp. done.
Qed.

Lemma size_insert_positive (k : string) (v : any) (m : gmap string any) :
  size (<[k := v]> m) <> 0%nat.
Proof.
  intros Hz. apply map_size_empty_inv in Hz. by apply insert_non_empty in Hz.
Qed.

(** X30.  The executor finds what the proxy has put into a call.  The
    keys of the two packages agree: from the request of a one-shot upload
    or of a follow-up the executor takes the body of the client's request
    as the stream to send, from the request of a start a reader over the
    bytes of the body, and the action it reads is the one the handler has
    set, trimmed; from the request of a metadata call it reads the action
    the handler has resolved and, unless this is the listing, a name that
    starts with "files/" and is the normal form of the trimmed fileId. *)
Theorem executor_reads_the_proxy_calls c fileId method :
  geminiFilesBody (uploadRequest c) = Request_Body c /\
  geminiFilesAction (req_Metadata (uploadRequest c))
  = TrimSpace "files.upload" /\
  geminiFilesBody (fst (startCall c))
  = bytes_NewReader (r_data (Request_Body c)) /\
  geminiFilesAction (req_Metadata (fst (startCall c)))
  = TrimSpace "files.upload" /\
  geminiFilesAction (req_Metadata (metadataRequest fileId method))
  = TrimSpace (resolveMetadataAction fileId method) /\
  (resolveMetadataAction fileId method <> "files.list" ->
   req_Metadata (metadataRequest fileId method) !! executor.geminiFilesNameKey
   = Some (AnyString (TrimSpace fileId)) /\
   normalizeGeminiFileName (req_Metadata (metadataRequest fileId method))
   = normalizeGeminiFileName
       (<[executor.geminiFilesNameKey := AnyString (TrimSpace fileId)]> ∅)).
Proof.
  split; [reflexivity|]. split.
  { unfold geminiFilesAction, uploadRequest. cbn [req_Metadata].
    destruct (decide (size _ = 0%nat)) as [Hz|_];
      [by apply size_insert_positive in Hz|].
    reflexivity. }
  split; [reflexivity|]. split.
  { unfold geminiFilesAction, startCall. cbn [fst req_Metadata].
    destruct (decide (size _ = 0%nat)) as [Hz|_];
      [by apply size_insert_positive in Hz|].
    reflexivity. }
  split.
  { unfold geminiFilesAction, metadataRequest. cbn [req_Metadata].
    destruct (negb _);
      (destruct (decide (size _ = 0%nat)) as [Hz|_];
       [by apply size_insert_positive in Hz|]); reflexivity. }
  intros Hlist. unfold metadataRequest. cbn [req_Metadata].
  rewrite bool_decide_eq_false_2 by done. cbn [negb].
  split; [reflexivity|].
  unfold normalizeGeminiFileName.
  destruct (decide (size _ = 0%nat)) as [Hz|_];
    [by apply size_insert_positive in Hz|].
  destruct (decide (size _ = 0%nat)) as [Hz|_];
    [by apply size_insert_positive in Hz|].
  reflexivity.
Qed.

End ExecutorExtras.

